(** * HTMLGen: the container composition model

    A shallow embedding of [HTMLGen.py]: Python objects as an inductive type
    of values, the mutable [contents] lists and [attrs] dictionaries of the
    containers as cells of an explicit store, methods as functions in a
    state-and-exception monad over that store.  The two recursive methods of
    the library, [HTMLContainer._r_flatten] and [str], recurse through
    values that are read back from the store, so they take the depth of
    Python's call stack still available as a first argument. *)

From stdpp Require Import base option list strings.
From Stdlib Require Import ZArith Lia Ascii DecimalString.

Set Warnings "-register-all".

Local Open Scope string_scope.
Local Open Scope Z_scope.
Local Open Scope nat_scope.
Local Open Scope list_scope.

(** ** Values *)

(** A location names a mutable object of the heap: a Python [list] (the
    [contents] of a container) or a [dict] (its [attrs]). *)
Abbreviation loc := nat (only parsing).

(** The [Pseudotag] subclasses of the module that build pages ([LABIN],
    whose heart takes a dictionary as a positional argument, is left
    out). *)
Inductive pseudotag := SIMPLEPAGE | PAGE | JQPAGE.

(** Python objects, as far as the library looks at them.
    - [VStr], [VInt], [VBool]: the builtin [str], [int] and [bool]
      ([True], [False]);
    - [VObj s m it]: any other object that is neither a number nor an
      [HTMLContainer], described by the three things the library can ask
      of it: [s] is [str(x)]; [m] is the truth value of [x._HTMLAtomic]
      when [x] has such an attribute; [it] is the sequence [iter(x)] yields
      when [x] is iterable ([None] when [iter(x)] raises [TypeError]).  A
      list, a tuple or a generator is a [VObj] with [m = None] and
      [it = Some _];
    - [VTagList], [VTag], [VPseudotag]: instances of the three container
      classes with their instance attributes; [contents] and [attrs] are
      references to a list and to a dictionary of the store.  The
      [tagName] and the [tagType] of a [Tag] are whatever objects its
      constructor was given: [digest] stores them as they come. *)
Inductive value : Type :=
| VStr (s : string)
| VInt (z : Z)
| VBool (b : bool)
| VObj (str_ : string) (HTMLAtomic_ : option bool) (iter_ : option (list value))
| VTagList (extraArgs : list value) (contents attrs : loc)
| VTag (tagName tagType : value) (extraArgs : list value)
       (contents attrs : loc)
| VPseudotag (k : pseudotag) (inner outer : value) (extraArgs : list value)
             (contents attrs : loc).

(** A builtin list or tuple of values (its [str] is never taken by the
    library: a list passed as contents is flattened away). *)
Definition VList (xs : list value) : value := VObj "[...]" None (Some xs).

(** An object that is neither a string, nor marked, nor iterable. *)
Definition VOpaque (s : string) : value := VObj s None None.

(** ** Dictionaries

    A [dict] keeps its keys unique and in insertion order, and the order
    shows in the rendered open tag: an association list. *)
Abbreviation dict := (list (string * value)) (only parsing).

(** [d[k] = v]: an existing key keeps its position. *)
Fixpoint dict_set (k : string) (v : value) (d : dict) : dict :=
  match d with
  | [] => [(k, v)]
  | (k', v') :: d' =>
      if String.eqb k k' then (k', v) :: d' else (k', v') :: dict_set k v d'
  end.

(** [d.update(new)]. *)
Definition dict_update (d new : dict) : dict :=
  fold_left (fun acc kv => dict_set kv.1 kv.2 acc) new d.

Fixpoint dict_get (k : string) (d : dict) : option value :=
  match d with
  | [] => None
  | (k', v) :: d' => if String.eqb k k' then Some v else dict_get k d'
  end.

(** [del d[k]] for a key that may be absent. *)
Definition dict_del (k : string) (d : dict) : dict :=
  List.filter (fun kv => negb (String.eqb k kv.1)) d.

(** ** The store *)

Record store := Store {
  lists : list (list value);
  dicts : list dict
}.

Definition empty_store : store := Store [] [].

(** The list at a location.  Every container gets its [contents] from its
    constructor, which allocates it; a location outside the store reads as
    the empty list. *)
Definition read_list (st : store) (l : loc) : list value :=
  default [] (lists st !! l).

Definition read_dict (st : store) (l : loc) : dict :=
  default [] (dicts st !! l).

(** ** Results and the state monad *)

Inductive exn := ValueError | TypeError | AttributeError | IndexError | NameError.

(** A call returns, raises, or exhausts the call stack ([NoStack], Python's
    [RecursionError]; with an unbounded stack, a call that does not
    return). *)
Inductive outcome (A : Type) : Type :=
| Ret (a : A)
| Raise (e : exn)
| NoStack.
Arguments Ret {A} a.
Arguments Raise {A} e.
Arguments NoStack {A}.

Definition obind {A B} (o : outcome A) (k : A -> outcome B) : outcome B :=
  match o with
  | Ret a => k a
  | Raise e => Raise e
  | NoStack => NoStack
  end.

Definition M (A : Type) : Type := store -> outcome A * store.

Definition ret {A} (a : A) : M A := fun st => (Ret a, st).
Definition raise {A} (e : exn) : M A := fun st => (Raise e, st).
Definition no_stack {A} : M A := fun st => (NoStack, st).

Definition bind {A B} (m : M A) (k : A -> M B) : M B :=
  fun st =>
    match m st with
    | (Ret a, st') => k a st'
    | (Raise e, st') => (Raise e, st')
    | (NoStack, st') => (NoStack, st')
    end.

(** A computation that only reads the store. *)
Definition lift {A} (o : outcome A) : M A := fun st => (o, st).

Declare Scope py_scope.
Delimit Scope py_scope with py.
Notation "'do' x <- m ;; k" := (bind m (fun x => k))
  (at level 10, x name, m at level 99, k at level 200) : py_scope.
Notation "'do' ' p <- m ;; k" := (bind m (fun x => let 'p := x in k))
  (at level 10, p pattern, m at level 99, k at level 200) : py_scope.
Notation "'try' x <- o ;; k" := (obind o (fun x => k))
  (at level 10, x name, o at level 99, k at level 200) : py_scope.
Local Open Scope py_scope.

(** [for x in xs: f(x)] *)
Fixpoint for_each {A} (f : A -> M unit) (xs : list A) : M unit :=
  match xs with
  | [] => ret tt
  | x :: xs' => do _ <- f x ;; for_each f xs'
  end.

(** [map(f, xs)], forced from left to right. *)
Fixpoint omap {A B} (f : A -> outcome B) (xs : list A) : outcome (list B) :=
  match xs with
  | [] => Ret []
  | x :: xs' => try y <- f x ;; try ys <- omap f xs' ;; Ret (y :: ys)
  end.

(** [[]], [{...}]: a new object of the heap. *)
Definition new_list (xs : list value) : M loc :=
  fun st => (Ret (length (lists st)), Store (lists st ++ [xs]) (dicts st)).

Definition new_dict (d : dict) : M loc :=
  fun st => (Ret (length (dicts st)), Store (lists st) (dicts st ++ [d])).

(** [l.append(x)], in place. *)
Definition list_append (l : loc) (x : value) : M unit :=
  fun st => (Ret tt, Store (alter (fun xs => xs ++ [x]) l (lists st)) (dicts st)).

(** [l[i] = x], in place. *)
Definition list_setitem (l : loc) (i : nat) (x : value) : M unit :=
  fun st =>
    if bool_decide (i < length (read_list st l)) then
      (Ret tt, Store (alter (fun xs => <[i:=x]> xs) l (lists st)) (dicts st))
    else (Raise IndexError, st).

(** ** Strings of builtin values *)

Definition dquote : string := String "034"%char EmptyString.

Definition str_int (z : Z) : string := NilZero.string_of_int (Z.to_int z).

Definition str_bool (b : bool) : string := if b then "True" else "False".

(** [sep.join(parts)] *)
Definition join (sep : string) (parts : list string) : string :=
  String.concat sep parts.

(** ** Instance attributes of a container *)

Definition extraArgs (x : value) : option (list value) :=
  match x with
  | VTagList e _ _ | VTag _ _ e _ _ | VPseudotag _ _ _ e _ _ => Some e
  | _ => None
  end.

Definition contents (x : value) : option loc :=
  match x with
  | VTagList _ c _ | VTag _ _ _ c _ | VPseudotag _ _ _ _ c _ => Some c
  | _ => None
  end.

Definition attrs (x : value) : option loc :=
  match x with
  | VTagList _ _ a | VTag _ _ _ _ a | VPseudotag _ _ _ _ _ a => Some a
  | _ => None
  end.

(** [x.name] for an instance attribute: [AttributeError] when absent. *)
Definition getattr {A} (field : value -> option A) (x : value) : M A :=
  match field x with
  | Some a => ret a
  | None => raise AttributeError
  end.

(** ** Builtins the library calls on arbitrary objects *)

Definition isinstance_str (x : value) : bool :=
  match x with VStr _ => true | _ => false end.

(** [x._HTMLAtomic], as a truth value; [None] when [hasattr] is false.  The
    class attribute is [True] in [HTMLContainer] (so for [Tag] and
    [Pseudotag], which inherit it) and [False] in [TagList]. *)
Definition _HTMLAtomic (x : value) : option bool :=
  match x with
  | VStr _ | VInt _ | VBool _ => None
  | VObj _ m _ => m
  | VTagList _ _ _ => Some false
  | VTag _ _ _ _ _ | VPseudotag _ _ _ _ _ _ => Some true
  end.

(** Whether [iter(x)] succeeds.  A container defines [__getitem__], so
    [iter] falls back on the sequence protocol. *)
Definition iterable (x : value) : bool :=
  match x with
  | VStr _ => true
  | VInt _ | VBool _ => false
  | VObj _ _ it => bool_decide (is_Some it)
  | VTagList _ _ _ | VTag _ _ _ _ _ | VPseudotag _ _ _ _ _ _ => true
  end.

(** [list(iter(x))]; [None] for the [TypeError] of a non-iterable.  A
    string yields its characters as strings of length one; a container
    yields [self[0]], [self[1]], ..., the items of its contents list. *)
Definition py_iter (st : store) (x : value) : option (list value) :=
  match x with
  | VStr s => Some (map (fun c => VStr (String c EmptyString)) (String.list_ascii_of_string s))
  | VInt _ | VBool _ => None
  | VObj _ _ it => it
  | VTagList _ c _ | VTag _ _ _ c _ | VPseudotag _ _ _ _ c _ =>
      Some (read_list st c)
  end.

(** ** class HTMLContainer *)

Module HTMLContainer.

Definition spacer : string := EmptyString.

Definition _specialAttrs : list (string * string) :=
  [("for_", "for"); ("class_", "class")].

(** [_specialAttrs.get(k, k)] *)
Definition _specialAttrs_get (k : string) : string :=
  match List.find (fun e => String.eqb k e.1) _specialAttrs with
  | Some e => e.2
  | None => k
  end.

(** [{self._specialAttrs.get(k, k) : v for k, v in attrs.items()}] *)
Definition remap_attrs (attrs : dict) : dict :=
  fold_left (fun acc kv => dict_set (_specialAttrs_get kv.1) kv.2 acc) attrs [].

Definition _atomicOverride (x : value) : bool :=
  if isinstance_str x then true
  else match _HTMLAtomic x with
       | Some true => true
       | _ => false
       end.

(** [self.contents] is the location of the list that receives the items.
    The loop runs over the items [x] has when [iter(x)] is taken; in
    [__init__] the receiving list is new, so no [x] can be changed by the
    appends while it is iterated. *)
Fixpoint _r_flatten (n : nat) (self_contents : loc) (x : value) : M unit :=
  match n with
  | O => no_stack
  | S n' =>
      if _atomicOverride x then list_append self_contents x
      else fun st =>
             match py_iter st x with
             | None => list_append self_contents x st
             | Some it => for_each (_r_flatten n' self_contents) it st
             end
  end.

(** What [digest] hands back to [__init__]: the contents to flatten, the
    class-specific arguments, and the instance with the attributes that
    [digest] has set on it, waiting for [extraArgs], [contents] and
    [attrs]. *)
Definition digested : Type :=
  list value * list value * (list value -> loc -> loc -> value).

Definition __init__ (digest : list value -> outcome digested)
    (n : nat) (args : list value) (attrs : dict) : M value :=
  do ' (temp, extraArgs, self) <- lift (digest args) ;;
  do contents <- new_list [] ;;
  do _ <- for_each (_r_flatten n contents) temp ;;
  do attrs' <- new_dict (remap_attrs attrs) ;;
  ret (self extraArgs contents attrs').

(** [type_self] is the constructor of [type(self)]. *)
Definition __call__ (type_self : nat -> list value -> dict -> M value)
    (n : nat) (self : value) (newContents : list value) (newAttrs : dict)
    : M value :=
  do self_attrs <- getattr attrs self ;;
  do self_extraArgs <- getattr extraArgs self ;;
  do self_contents <- getattr contents self ;;
  fun st =>
    let tempAttrs := dict_update (read_dict st self_attrs) newAttrs in
    type_self n (self_extraArgs ++ read_list st self_contents ++ newContents)
              tempAttrs st.

(** [wrap] is the method of the subclass, [str_] the builtin [str]. *)
Definition __str__ (wrap : string -> outcome string)
    (str_ : value -> outcome string) (self_contents : list value)
    : outcome string :=
  try parts <- omap str_ self_contents ;;
  wrap (join spacer parts).

Definition __getitem__ (self : value) (index : nat) : M value :=
  do self_contents <- getattr contents self ;;
  fun st =>
    match read_list st self_contents !! index with
    | Some x => (Ret x, st)
    | None => (Raise IndexError, st)
    end.

Definition __setitem__ (self : value) (index : nat) (v : value) : M unit :=
  do self_contents <- getattr contents self ;;
  list_setitem self_contents index v.

End HTMLContainer.

(** ** class TagList *)

Module TagList.

Definition digest (contents : list value) : outcome HTMLContainer.digested :=
  Ret (contents, [], VTagList).

Definition wrap (contentStr : string) : outcome string := Ret contentStr.

Definition __init__ : nat -> list value -> dict -> M value :=
  HTMLContainer.__init__ digest.

Definition __call__ : nat -> value -> list value -> dict -> M value :=
  HTMLContainer.__call__ __init__.

End TagList.

(** ** class Pseudotag *)

Module Pseudotag.

(** [heart] gives [self.inner] and [self.extraArgs], the unpacked result
    of [self.heart( *args, **attrs)]. *)
Definition __init__ (k : pseudotag)
    (heart : nat -> list value -> dict -> M (value * list value))
    (skeleton : nat -> value -> list value -> M value)
    (n : nat) (args : list value) (attrs : dict) : M value :=
  do ' (inner, extraArgs) <- heart n args attrs ;;
  do outer <- skeleton n inner extraArgs ;;
  do contents <- getattr contents inner ;;
  do attrs' <- new_dict (HTMLContainer.remap_attrs attrs) ;;
  ret (VPseudotag k inner outer extraArgs contents attrs').

Definition __str__ (str_ : value -> outcome string) (outer : value)
    : outcome string :=
  str_ outer.

End Pseudotag.

(** ** class Tag, and str

    [Tag.digest] formats its error message with [%s], which takes the
    [str] of the tag name, and [str] of a [Tag] runs [Tag.wrap]: the
    builtin is defined between the two. *)

Module Tag.

Definition NORMAL : Z := 0.
Definition LONE : Z := 1.
Definition FORCED_PAIR : Z := 2.

(** [v == k] for an integer [k].  [True] and [False] are the integers 1
    and 0; a string, a container or an object that is no number equals no
    integer. *)
Definition eq_int (v : value) (k : Z) : bool :=
  match v with
  | VInt z => (z =? k)%Z
  | VBool b => ((if b then 1 else 0) =? k)%Z
  | _ => false
  end.

(** ['%d' % v]: a [TypeError] unless [v] is a number. *)
Definition format_d (v : value) : outcome string :=
  match v with
  | VInt z => Ret (str_int z)
  | VBool b => Ret (if b then "1" else "0")
  | _ => Raise TypeError
  end.

(** The loop of [_openTagGuts] over [self.attrs.items()]. *)
Fixpoint _openTagGuts_loop (str_ : value -> outcome string)
    (items : dict) (temp : list string) : outcome (list string) :=
  match items with
  | [] => Ret temp
  | (k, v) :: items' =>
      match v with
      | VBool true => _openTagGuts_loop str_ items' (temp ++ [k])
      | VBool false => _openTagGuts_loop str_ items' temp
      | _ =>
          try s <- str_ v ;;
          _openTagGuts_loop str_ items'
            (temp ++ [k +:+ "=" +:+ dquote +:+ s +:+ dquote])
      end
  end.

(** [temp] starts as [[self.tagName]] and the loop appends strings to it;
    [' '.join(temp)] then raises [TypeError] unless its first item, the tag
    name, is a string as well. *)
Definition _openTagGuts (str_ : value -> outcome string)
    (tagName : value) (self_attrs : dict) : outcome string :=
  match tagName with
  | VStr name =>
      try temp <- _openTagGuts_loop str_ self_attrs [name] ;;
      Ret (join " " temp)
  | _ =>
      try _ <- _openTagGuts_loop str_ self_attrs [] ;;
      Raise TypeError
  end.

(** [guts] is [self._openTagGuts()], run in the branch that calls it;
    [name] is [str(self.tagName)], taken by the [%s] of the closing tag
    once the guts are there. *)
Definition wrap (guts : outcome string) (name : outcome string)
    (tagType : value) (self_contents : list value) (contentStr : string)
    : outcome string :=
  let spacer := HTMLContainer.spacer in
  if negb (bool_decide (self_contents = [])) || eq_int tagType FORCED_PAIR then
    try g <- guts ;;
    try tagName <- name ;;
    Ret ("<" +:+ g +:+ ">" +:+ spacer +:+ contentStr +:+ spacer
         +:+ "</" +:+ tagName +:+ ">")
  else if eq_int tagType LONE then
    try g <- guts ;; Ret ("<" +:+ g +:+ ">")
  else
    try g <- guts ;; Ret ("<" +:+ g +:+ " />").

(** [str(x)]: the string of a builtin value, or the [__str__] of the class
    of a container.  [n] bounds the nesting of containers that can still be
    entered. *)
Fixpoint str (n : nat) (st : store) (x : value) : outcome string :=
  match x with
  | VStr s => Ret s
  | VInt z => Ret (str_int z)
  | VBool b => Ret (str_bool b)
  | VObj s _ _ => Ret s
  | VTagList _ c _ =>
      match n with
      | O => NoStack
      | S n' =>
          HTMLContainer.__str__ TagList.wrap (str n' st) (read_list st c)
      end
  | VTag tagName tagType _ c a =>
      match n with
      | O => NoStack
      | S n' =>
          HTMLContainer.__str__
            (wrap (_openTagGuts (str n' st) tagName (read_dict st a))
                  (str n' st tagName) tagType (read_list st c))
            (str n' st) (read_list st c)
      end
  | VPseudotag _ _ outer _ _ _ =>
      match n with
      | O => NoStack
      | S n' => Pseudotag.__str__ (str n' st) outer
      end
  end.

(** [Tag(tagName, tagType, *contents)].  Fewer than two arguments fail to
    unpack, a [ValueError].  A [tagType] that equals none of the three
    constants raises [ValueError] once the message is formatted: its [%d]
    raises [TypeError] for a [tagType] that is no number, and its [%s]
    takes [str_] of the tag name. *)
Definition digest (str_ : value -> outcome string) (args : list value)
    : outcome HTMLContainer.digested :=
  match args with
  | tagName :: tagType :: contents =>
      if negb (existsb (eq_int tagType) [NORMAL; LONE; FORCED_PAIR])
      then
        try _ <- format_d tagType ;;
        try _ <- str_ tagName ;;
        Raise ValueError
      else Ret (contents, [tagName; tagType], VTag tagName tagType)
  | _ => Raise ValueError
  end.

Definition __init__ (n : nat) (args : list value) (attrs : dict) : M value :=
  fun st => HTMLContainer.__init__ (digest (str n st)) n args attrs st.

Definition __call__ : nat -> value -> list value -> dict -> M value :=
  HTMLContainer.__call__ __init__.

End Tag.

Abbreviation str := Tag.str.

(** ** Module level: the specific tags *)

Definition _loneTags : list (string * string) :=
  [("BR", "br"); ("HR", "hr")].

Definition _normalTags : list (string * string) :=
  [("A", "a"); ("B", "b"); ("BODY", "body"); ("BUTTON", "button");
   ("CODE", "code"); ("DIV", "div"); ("EM", "em"); ("EMBED", "embed");
   ("FORM", "form"); ("H1", "h1"); ("H2", "h2"); ("H3", "h3"); ("H4", "h4");
   ("H5", "h5"); ("H6", "h6"); ("HEAD", "head"); ("HTML", "html");
   ("IFRAME", "iframe"); ("IMG", "img"); ("INPUT", "input"); ("I", "i");
   ("LABEL", "label"); ("LINK", "link"); ("OPTION", "option"); ("P", "p");
   ("PRE", "pre"); ("SEL", "select"); ("SPAN", "span"); ("STRONG", "strong");
   ("STYLE", "style"); ("TITLE", "title");
   ("TABLE", "table"); ("TH", "th"); ("TR", "tr"); ("TD", "td");
   ("CAPTION", "caption"); ("COLGROUP", "colgroup"); ("THEAD", "thead");
   ("TBODY", "tbody"); ("TFOOT", "tfoot");
   ("UL", "ul"); ("OL", "ol"); ("LI", "li"); ("DL", "dl"); ("DT", "dt");
   ("DD", "dd")].

Definition _forcedPairTags : list (string * string) :=
  [("SCRIPT", "script"); ("TEXTAREA", "textarea"); ("VIDEO", "video")].

(** [for k, v in table.items(): sys.modules[__name__].__dict__[k] = Tag(v, tagType)] *)
Fixpoint define_tags (table : list (string * string)) (tagType : Z)
    (globals : dict) : M dict :=
  match table with
  | [] => ret globals
  | (k, v) :: table' =>
      do t <- Tag.__init__ 0 [VStr v; VInt tagType] [] ;;
      define_tags table' tagType (dict_set k t globals)
  end.

Definition jquery_url : string :=
  "http://ajax.googleapis.com/ajax/libs/jquery/1.11.3/jquery.min.js".

(** A name of the module's namespace. *)
Definition lookup_global (globals : dict) (name : string) : M value :=
  match dict_get name globals with
  | Some v => ret v
  | None => raise NameError
  end.

(** The module body, top to bottom, as far as it binds names to
    containers: the three tables, then [GETJQ]. *)
Definition module_body : M dict :=
  do g <- define_tags _loneTags Tag.LONE [] ;;
  do g <- define_tags _normalTags Tag.NORMAL g ;;
  do g <- define_tags _forcedPairTags Tag.FORCED_PAIR g ;;
  do SCRIPT <- lookup_global g "SCRIPT" ;;
  do getjq <- Tag.__call__ 0 SCRIPT [] [("src", VStr jquery_url)] ;;
  ret (dict_set "GETJQ" getjq g).

(** The namespace and the store once the module is imported. *)
Definition module_globals : dict :=
  Eval vm_compute in
    match module_body empty_store with
    | (Ret g, _) => g
    | _ => []
    end.

Definition module_store : store :=
  Eval vm_compute in (module_body empty_store).2.

Definition global : string -> M value := lookup_global module_globals.

(** ** Utility functions *)

(** [bool(x)].  An [HTMLContainer] defines neither [__bool__] nor
    [__len__], so it is true; so is an object of which nothing else is
    known. *)
Definition truthy (x : value) : bool :=
  match x with
  | VStr s => negb (String.eqb s EmptyString)
  | VInt z => negb (z =? 0)%Z
  | VBool b => b
  | _ => true
  end.

Fixpoint vif (args : list value) : value :=
  match args with
  | [] => VStr EmptyString
  | [a] => a
  | a :: b :: rest => if truthy a then b else vif rest
  end.

(** ** The pages *)

(** [first, *rest = x] *)
Definition unpack_first (x : value) : M (value * list value) :=
  fun st =>
    match py_iter st x with
    | None => (Raise TypeError, st)
    | Some [] => (Raise ValueError, st)
    | Some (first :: rest) => (Ret (first, rest), st)
    end.

(** [Tag('!DOCTYPE', Tag.LONE, html = True)] *)
Definition doctype (n : nat) : M value :=
  Tag.__init__ n [VStr "!DOCTYPE"; VInt Tag.LONE] [("html", VBool true)].

Module SIMPLEPAGE_.

(** [heart] returns the [HTML] tag itself, not a tuple; [__init__]
    unpacks what it gets by iterating it. *)
Definition heart (n : nat) (args : list value) (kwargs : dict)
    : M (value * list value) :=
  do HTML <- global "HTML" ;;
  do r <- Tag.__call__ n HTML args kwargs ;;
  unpack_first r.

Definition skeleton (n : nat) (inner : value) (extraArgs : list value)
    : M value :=
  match extraArgs with
  | [] =>
      do d <- doctype n ;;
      TagList.__init__ n [d; inner] []
  | _ => raise TypeError
  end.

End SIMPLEPAGE_.

Module PageWrapper.

(** How the call [self.heart( *args, **attrs)] binds the parameters of
    [heart(self, title, css, *args, **kwargs)]: [title] and [css] take the
    first two positional arguments; one that no positional argument fills
    takes the keyword of its name, which then is no part of [kwargs].
    [None] is the [TypeError] of the call: a keyword names a parameter
    that a positional argument has filled, or a parameter is left
    without a value. *)
Definition heart_parameters (args : list value) (attrs : dict)
    : option (value * value * list value * dict) :=
  match args with
  | title :: css :: args' =>
      match dict_get "title" attrs, dict_get "css" attrs with
      | None, None => Some (title, css, args', attrs)
      | _, _ => None
      end
  | [title] =>
      match dict_get "title" attrs, dict_get "css" attrs with
      | None, Some css => Some (title, css, [], dict_del "css" attrs)
      | _, _ => None
      end
  | [] =>
      match dict_get "title" attrs, dict_get "css" attrs with
      | Some title, Some css =>
          Some (title, css, [], dict_del "title" (dict_del "css" attrs))
      | _, _ => None
      end
  end.

Definition heart (n : nat) (args : list value) (attrs : dict)
    : M (value * list value) :=
  match heart_parameters args attrs with
  | Some (title, css, args', kwargs) =>
      do BODY <- global "BODY" ;;
      do body <- Tag.__call__ n BODY args' kwargs ;;
      ret (body, [title; css])
  | None => raise TypeError
  end.

Definition skeleton (head : nat -> value -> value -> M value)
    (n : nat) (inner : value) (extraArgs : list value) : M value :=
  match extraArgs with
  | [title; css] =>
      do d <- doctype n ;;
      do h <- head n title css ;;
      do HTML <- global "HTML" ;;
      do html <- Tag.__call__ n HTML [h; inner] [] ;;
      TagList.__init__ n [d; html] []
  | _ => raise TypeError
  end.

End PageWrapper.

Module PAGE_.

Definition head (n : nat) (title css : value) : M value :=
  do HEAD <- global "HEAD" ;;
  do TITLE <- global "TITLE" ;;
  do t <- Tag.__call__ n TITLE [title] [] ;;
  do LINK <- global "LINK" ;;
  do l <- Tag.__call__ n LINK [] [("rel", VStr "stylesheet"); ("href", css)] ;;
  Tag.__call__ n HEAD [t; vif [css; l]] [].

End PAGE_.

Module JQPAGE_.

Definition head (n : nat) (title css : value) : M value :=
  do HEAD <- global "HEAD" ;;
  do TITLE <- global "TITLE" ;;
  do t <- Tag.__call__ n TITLE [title] [] ;;
  do LINK <- global "LINK" ;;
  do l <- Tag.__call__ n LINK [] [("rel", VStr "stylesheet"); ("href", css)] ;;
  do GETJQ <- global "GETJQ" ;;
  Tag.__call__ n HEAD [t; vif [css; l]; GETJQ] [].

End JQPAGE_.

Definition heart (k : pseudotag)
    : nat -> list value -> dict -> M (value * list value) :=
  match k with
  | SIMPLEPAGE => SIMPLEPAGE_.heart
  | PAGE | JQPAGE => PageWrapper.heart
  end.

Definition skeleton (k : pseudotag) : nat -> value -> list value -> M value :=
  match k with
  | SIMPLEPAGE => SIMPLEPAGE_.skeleton
  | PAGE => PageWrapper.skeleton PAGE_.head
  | JQPAGE => PageWrapper.skeleton JQPAGE_.head
  end.

(** [K( *args, **attrs)] for a [Pseudotag] subclass [K]. *)
Definition new_pseudotag (k : pseudotag) : nat -> list value -> dict -> M value :=
  Pseudotag.__init__ k (heart k) (skeleton k).

(** [self( *newContents, **newAttrs)]: [HTMLContainer.__call__] with the
    constructor of the class of [self]. *)
Definition call (n : nat) (self : value) (newContents : list value)
    (newAttrs : dict) : M value :=
  match self with
  | VTagList _ _ _ => TagList.__call__ n self newContents newAttrs
  | VTag _ _ _ _ _ => Tag.__call__ n self newContents newAttrs
  | VPseudotag k _ _ _ _ _ =>
      HTMLContainer.__call__ (new_pseudotag k) n self newContents newAttrs
  | _ => raise TypeError
  end.

(** ** class HTMLContainer, continued

    The methods that name the subclass [TagList], and the list methods that
    [__getattr__] hands over from [self.contents]. *)

Module HTMLContainer'.

(** [l.insert(i, x)], in place, for an index counted from the front: past
    the end it appends. *)
Definition list_insert (l : loc) (i : nat) (x : value) : M unit :=
  fun st =>
    (Ret tt,
     Store (alter (fun xs => take i xs ++ x :: drop i xs) l (lists st))
           (dicts st)).

(** [l.pop(i)], in place, for an index counted from the front. *)
Definition list_pop (l : loc) (i : nat) : M value :=
  fun st =>
    match read_list st l !! i with
    | Some x => (Ret x, Store (alter (delete i) l (lists st)) (dicts st))
    | None => (Raise IndexError, st)
    end.

(** [self.append(x)], [self.insert(i, x)], [self.pop(i)]: none is an
    attribute of the instance or of its class, so [__getattr__] returns the
    method of [self.contents], which is then called. *)
Definition append (self x : value) : M unit :=
  do self_contents <- getattr contents self ;;
  list_append self_contents x.

Definition insert (self : value) (i : nat) (x : value) : M unit :=
  do self_contents <- getattr contents self ;;
  list_insert self_contents i x.

Definition pop (self : value) (i : nat) : M value :=
  do self_contents <- getattr contents self ;;
  list_pop self_contents i.

(** [temp] of [join], once the loop has run over the items of [iter(x)]. *)
Fixpoint join_temp (self : value) (rest : list value) : list value :=
  match rest with
  | [] => []
  | y :: rest' => self :: y :: join_temp self rest'
  end.

(** [iter(x)] outside a [try]: the [TypeError] of a non-iterable leaves
    the method. *)
Definition join (n : nat) (self x : value) : M value :=
  if HTMLContainer._atomicOverride x then TagList.__init__ n [x] []
  else fun st =>
         match py_iter st x with
         | None => (Raise TypeError, st)
         | Some [] => TagList.__init__ n [] [] st
         | Some (first :: rest) =>
             TagList.__init__ n (first :: join_temp self rest) [] st
         end.

Definition __add__ (n : nat) (self other : value) : M value :=
  TagList.__init__ n [self; other] [].

Definition __radd__ (n : nat) (self other : value) : M value :=
  TagList.__init__ n [other; self] [].

End HTMLContainer'.

(** ** The operator [+]

    [a + b] when it reaches the library.  Python calls [a.__add__(b)] when
    [a] is a container.  When [a] is a [str], an [int] or a [bool], and
    [b] a container, the [+] of the type of [a] declines [b], and Python
    calls the reflected [b.__radd__(a)].  Other operands are not the
    library's concern ([1 + 2] is [3]): the statements about [add] keep to
    the two cases. *)



(** ** Utility functions, continued *)

(** The arguments of [lif] are callables: each is the computation that
    calling it runs. *)
Fixpoint lif (args : list (M value)) : M value :=
  match args with
  | [] => ret (VStr EmptyString)
  | [a] => a
  | a :: b :: rest => do c <- a ;; if truthy c then b else lif rest
  end.

(** [s * n] for a string [s]: empty when [n] is not positive. *)
Definition str_mul (s : string) (n : Z) : string :=
  String.concat EmptyString (repeat s (Z.to_nat n)).

Definition nbsp (n : Z) : string := str_mul "&nbsp;" n.

(** * Properties *)

(** ** Vocabulary of the statements *)

(** The store after [ys] have been appended, in place, to the list at [l]. *)
Definition append_to (l : loc) (ys : list value) (st : store) : store :=
  Store (alter (fun xs => xs ++ ys) l (lists st)) (dicts st).

(** The store with one more list and one more dictionary. *)
Definition allocate (xs : list value) (d : dict) (st : store) : store :=
  Store (lists st ++ [xs]) (dicts st ++ [d]).

(** What may sit in a flat contents list: an atomic value, or one that
    cannot be iterated. *)
Definition flat_item (x : value) : bool :=
  HTMLContainer._atomicOverride x || negb (iterable x).

(** Every contents list of the store is flat. *)
Definition flat_store (st : store) : Prop :=
  Forall (fun xs => Forall (fun x => flat_item x = true) xs) (lists st).

(** Flattening [temp] into a new list of [st], on a stack of depth [n],
    returns and leaves [ys] in that list. *)
Definition flattens (n : nat) (st : store) (temp ys : list value) : Prop :=
  for_each (HTMLContainer._r_flatten n (length (lists st))) temp
           (Store (lists st ++ [[]]) (dicts st))
  = (Ret tt, Store (lists st ++ [ys]) (dicts st)).

(** [x] renders to [s], with a deep enough stack. *)
Definition renders (st : store) (x : value) (s : string) : Prop :=
  exists n, str n st x = Ret s.

(** [ctor( *args, **attrs)] returns [v] and leaves the store [st'], with a
    deep enough stack. *)
Definition builds (ctor : nat -> list value -> dict -> M value)
    (args : list value) (attrs : dict) (st : store) (v : value) (st' : store)
    : Prop :=
  exists n, ctor n args attrs st = (Ret v, st').

(** Nested iterables: a leaf is any value; a node is an iterable object
    that is not atomic (no [_HTMLAtomic], or a false one) and yields its
    subtrees in order. *)
Inductive nest : Type :=
| Leaf (x : value)
| Nest (s : string) (false_marker : bool) (ts : list nest).

Fixpoint embed (t : nest) : value :=
  match t with
  | Leaf x => x
  | Nest s fm ts =>
      VObj s (if fm then Some false else None) (Some (map embed ts))
  end.

(** The leaves, depth-first and left to right. *)
Fixpoint leaves (t : nest) : list value :=
  match t with
  | Leaf x => [x]
  | Nest _ _ ts => concat (map leaves ts)
  end.

Fixpoint nest_depth (t : nest) : nat :=
  match t with
  | Leaf _ => 0
  | Nest _ _ ts => S (list_max (map nest_depth ts))
  end.

(** A [TagList] or a [Tag] as its constructor leaves it: [extraArgs] holds
    what [digest] returned after the contents. *)
Definition primitive (c : value) : Prop :=
  match c with
  | VTagList ea _ _ => ea = []
  | VTag name ty ea _ _ => ea = [name; ty]
  | _ => False
  end.

(** The constructor of [type(c)]. *)
Definition type_ (c : value) : nat -> list value -> dict -> M value :=
  match c with
  | VTagList _ _ _ => TagList.__init__
  | VTag _ _ _ _ _ => Tag.__init__
  | VPseudotag k _ _ _ _ _ => new_pseudotag k
  | _ => fun _ _ _ => raise TypeError
  end.

(** An object of the class of [c], with the class-specific attributes of
    [c], over another contents list and another attrs dictionary. *)
Definition reseat (c : value) (l a : loc) : value :=
  match c with
  | VTagList ea _ _ => VTagList ea l a
  | VTag name ty ea _ _ => VTag name ty ea l a
  | VPseudotag k i o ea _ _ => VPseudotag k i o ea l a
  | _ => c
  end.

(** [st'] has every list and every dictionary of [st], unchanged, and
    possibly new ones. *)
Definition extends (st st' : store) : Prop :=
  lists st `prefix_of` lists st' /\ dicts st `prefix_of` dicts st'.

(** A dictionary as a constructor stores it: its keys are distinct and
    none of them is a reserved-word alias ([for_], [class_]). *)
Definition normal (d : dict) : Prop :=
  NoDup d.*1
  /\ Forall (fun k => HTMLContainer._specialAttrs_get k = k) d.*1.

(** The tag type of a [Tag] equals one of the three constants. *)
Definition recognized (c : value) : Prop :=
  match c with
  | VTag _ ty _ _ _ =>
      existsb (Tag.eq_int ty) [Tag.NORMAL; Tag.LONE; Tag.FORCED_PAIR] = true
  | _ => True
  end.

(** [str(e)] for an expression [e] evaluated in the store [st0]. *)
Definition str_of (e : M value) (st0 : store) (n : nat) : outcome string :=
  match e st0 with
  | (Ret v, st) => str n st v
  | (Raise e, _) => Raise e
  | (NoStack, _) => NoStack
  end.

(** What one attribute contributes to the open tag, [str_] being [str]:
    its bare name for [True], nothing for [False], and [name="str(v)"] with
    the string of the value as it is for any other value. *)
Inductive attr_token (str_ : value -> outcome string)
  : string * value -> list string -> Prop :=
| attr_token_True k : attr_token str_ (k, VBool true) [k]
| attr_token_False k : attr_token str_ (k, VBool false) []
| attr_token_other k v s :
    (forall b, v <> VBool b) -> str_ v = Ret s ->
    attr_token str_ (k, v) [k +:+ "=" +:+ dquote +:+ s +:+ dquote].

(** The stores a program reaches from the imported module by constructor
    and extension calls alone, however each call ends. *)
Inductive built : store -> Prop :=
| built_module : built module_store
| built_TagList n args attrs st o st' :
    built st -> TagList.__init__ n args attrs st = (o, st') -> built st'
| built_Tag n args attrs st o st' :
    built st -> Tag.__init__ n args attrs st = (o, st') -> built st'
| built_Pseudotag k n args attrs st o st' :
    built st -> new_pseudotag k n args attrs st = (o, st') -> built st'
| built_call n c x newAttrs st o st' :
    built st -> call n c x newAttrs st = (o, st') -> built st'.

(** Every contents list of the store is flat and every attributes
    dictionary normal. *)
Definition tidy_store (st : store) : Prop :=
  flat_store st /\ Forall normal (dicts st).

(** A computation that leaves the store tidy if it finds it so, however it
    ends. *)
Definition keeps_tidy {A} (m : M A) : Prop :=
  forall st o st', tidy_store st -> m st = (o, st') -> tidy_store st'.

(** [SIMPLEPAGE(DIV(SPAN('z')))], and that page extended by nothing. *)
Definition simplepage_scenario : M (value * value) :=
  do SPAN <- global "SPAN" ;;
  do span <- call 1 SPAN [VStr "z"] [] ;;
  do DIV <- global "DIV" ;;
  do div <- call 1 DIV [span] [] ;;
  do p <- new_pseudotag SIMPLEPAGE 1 [div] [] ;;
  do p' <- call 1 p [] [] ;;
  ret (p, p').

(** The text of a tag whose open tag is [g] and whose children render,
    joined, to [inner]; [filled] tells whether it has contents. *)
Definition tag_text (filled : bool) (tagType : Z) (g inner tagName : string)
    : string :=
  if filled || (tagType =? Tag.FORCED_PAIR)%Z then
    "<" +:+ g +:+ ">" +:+ inner +:+ "</" +:+ tagName +:+ ">"
  else if (tagType =? Tag.LONE)%Z then "<" +:+ g +:+ ">"
  else "<" +:+ g +:+ " />".

(** The integer that a tag type equals, as [wrap] compares it with
    [FORCED_PAIR] and [LONE]; [-1] for a tag type that equals no integer. *)
Definition type_code (ty : value) : Z :=
  match ty with
  | VInt z => z
  | VBool b => if b then 1 else 0
  | _ => -1
  end.


(** A computation that, once it returns on a stack of some depth, returns
    the same on every deeper stack. *)
Definition mono {A} (f : nat -> M A) : Prop :=
  forall n m st a st', n <= m -> f n st = (Ret a, st') -> f m st = (Ret a, st').

(** A computation that, however it ends, leaves every list and every
    dictionary of the store as it was, and at most adds new ones. *)
Definition grows {A} (m : M A) : Prop :=
  forall st o st', m st = (o, st') -> extends st st'.


(** The three tables of the module body with the tag type of each. *)
Definition tag_tables : list (list (string * string) * Z) :=
  [(_loneTags, Tag.LONE); (_normalTags, Tag.NORMAL);
   (_forcedPairTags, Tag.FORCED_PAIR)].

(** An argument that a constructor takes in as it stands: a flat item, or
    a [TagList] that lives in the store. *)
Definition plain (st : store) (x : value) : Prop :=
  flat_item x = true
  \/ exists ea c a, x = VTagList ea c a /\ c < length (lists st).

(** What such an argument leaves in a contents list: itself, or, for a
    [TagList], its items. *)
Definition splice (st : store) (x : value) : list value :=
  match x with
  | VTagList _ c _ => read_list st c
  | _ => [x]
  end.

(** The strings of the [temp] of [join] after its first item, [s] being
    the string of [self]. *)
Fixpoint join_strings (s : string) (ps : list string) : list string :=
  match ps with
  | [] => []
  | p :: ps' => s :: p :: join_strings s ps'
  end.

(** A keyword argument under the name the constructor stores it by. *)
Definition remap_item (kv : string * value) : string * value :=
  (HTMLContainer._specialAttrs_get kv.1, kv.2).

(** The [<link>] of a page for the style sheet [css], absent when [css]
    is the empty string. *)
Definition link_guts (css : string) : string :=
  "link rel=" +:+ dquote +:+ "stylesheet" +:+ dquote
  +:+ " href=" +:+ dquote +:+ css +:+ dquote.

Definition link_text (css : string) : string :=
  if String.eqb css EmptyString then EmptyString
  else tag_text false Tag.NORMAL (link_guts css) EmptyString "link".


(** A normal tag with contents and no attributes. *)
Definition element (name inner : string) : string :=
  tag_text true Tag.NORMAL name inner name.

(** The page that [PAGE] and [JQPAGE] document, without any white space:
    [rest] is what follows the title in the head, [body] the [<body>]
    element. *)
Definition page_text (title rest body : string) : string :=
  "<!DOCTYPE html>"
  +:+ element "html"
        (element "head" (element "title" title +:+ rest) +:+ body).


(** Every location that [x] mentions, at any depth, lies inside a store
    of [nl] lists and [nd] dictionaries. *)
Fixpoint closedb (nl nd : nat) (x : value) {struct x} : bool :=
  match x with
  | VStr _ | VInt _ | VBool _ => true
  | VObj _ _ it =>
      match it with
      | Some xs => forallb (closedb nl nd) xs
      | None => true
      end
  | VTagList ea c a =>
      forallb (closedb nl nd) ea && bool_decide (c < nl) && bool_decide (a < nd)
  | VTag _ _ ea c a =>
      forallb (closedb nl nd) ea && bool_decide (c < nl) && bool_decide (a < nd)
  | VPseudotag _ inner outer ea c a =>
      closedb nl nd inner && closedb nl nd outer
      && forallb (closedb nl nd) ea
      && bool_decide (c < nl) && bool_decide (a < nd)
  end.

(** [x] mentions only lists and dictionaries of the store. *)
Definition closed_in (st : store) (x : value) : Prop :=
  closedb (length (lists st)) (length (dicts st)) x = true.

(** Every item of every list and every value of every dictionary of the
    store mentions only lists and dictionaries of the store. *)
Definition closed_store (st : store) : Prop :=
  Forall (Forall (closed_in st)) (lists st)
  /\ Forall (Forall (fun kv : string * value => closed_in st kv.2)) (dicts st).

(** A constructor that, given closed arguments in a closed store that
    holds the imported module, keeps the store closed however it ends, and
    returns a closed value. *)
Definition closed_ctor (f : list value -> list (string * value) -> M value)
    : Prop :=
  forall args kw st o st',
    closed_store st -> extends module_store st ->
    Forall (closed_in st) args ->
    Forall (fun kv : string * value => closed_in st kv.2) kw ->
    f args kw st = (o, st') ->
    closed_store st' /\ forall v, o = Ret v -> closed_in st' v.

(** A computation that keeps the store closed while the values [live] are
    closed in it, and whose results [res] are then closed as well. *)
Definition keeps_closed {A} (live : list value) (m : M A)
    (res : A -> list value) : Prop :=
  forall st o st',
    closed_store st -> extends module_store st ->
    Forall (closed_in st) live -> m st = (o, st') ->
    closed_store st' /\ forall a, o = Ret a -> Forall (closed_in st') (res a).

(** The ways the children [ys] that an extension adds and its keyword
    arguments [new] show in the string of a tag whose attributes are [d].
    Either every key of [new] is new to the tag (also once remapped), and
    an added child renders to a non-empty string or a value of [new] is
    not [False]; or no child is added and [new] is a single keyword that
    changes what an attribute of the tag contributes to the open tag. *)
Definition visible_change (st : store) (d : dict) (ys : list value)
    (new : dict) : Prop :=
  (NoDup (d.*1 ++ (HTMLContainer._specialAttrs_get <$> new.*1))
   /\ ((exists y sy, y ∈ ys /\ renders st y sy /\ sy <> EmptyString)
       \/ (exists k v, (k, v) ∈ new /\ v <> VBool false)))
  \/ (ys = []
      /\ exists k v v0 t t0 n,
           new = [(k, v)]
           /\ dict_get (HTMLContainer._specialAttrs_get k) d = Some v0
           /\ attr_token (str n st) (HTMLContainer._specialAttrs_get k, v0) t0
           /\ attr_token (str n st) (HTMLContainer._specialAttrs_get k, v) t
           /\ t <> t0).

(** ** The monad *)

Lemma bind_ret {A B} (m : M A) (k : A -> M B) st a st' :
  m st = (Ret a, st') -> bind m k st = k a st'.
Proof. intros H. unfold bind. by rewrite H. Qed.

Lemma bind_inv_ret {A B} (m : M A) (k : A -> M B) st b st' :
  bind m k st = (Ret b, st') ->
  exists a st1, m st = (Ret a, st1) /\ k a st1 = (Ret b, st').
Proof.
  unfold bind. destruct (m st) as [[a | e |] st1]; intros H; try discriminate.
  eauto.
Qed.

Lemma omap_app {A B} (f : A -> outcome B) xs ys ps qs :
  omap f xs = Ret ps -> omap f ys = Ret qs -> omap f (xs ++ ys) = Ret (ps ++ qs).
Proof.
  revert ps. induction xs as [| x xs IH]; intros ps Hx Hy; simpl in *.
  - by inversion Hx.
  - destruct (f x) as [y | |]; simpl in *; try discriminate.
    destruct (omap f xs) as [ys' | |]; simpl in *; try discriminate.
    inversion Hx; subst. rewrite (IH ys' eq_refl Hy). reflexivity.
Qed.

Lemma omap_app_inv {A B} (f : A -> outcome B) xs ys rs :
  omap f (xs ++ ys) = Ret rs ->
  exists ps qs, omap f xs = Ret ps /\ omap f ys = Ret qs /\ rs = ps ++ qs.
Proof.
  revert rs. induction xs as [| x xs IH]; intros rs H; simpl in *.
  - exists [], rs. eauto.
  - destruct (f x) as [y | |]; simpl in *; try discriminate.
    destruct (omap f (xs ++ ys)) as [rs' | |] eqn:E; simpl in *; try discriminate.
    inversion H; subst. destruct (IH rs' eq_refl) as (ps & qs & -> & -> & ->).
    exists (y :: ps), qs. eauto.
Qed.

(** ** The store under appends *)

Lemma append_to_nil l st : append_to l [] st = st.
Proof.
  destruct st as [ls ds]. unfold append_to; simpl. f_equal.
  apply list_eq; intros i. rewrite list_lookup_alter.
  case_decide; [subst |]; [| done].
  destruct (ls !! i); simpl; [by rewrite app_nil_r | done].
Qed.

Lemma append_to_app l xs ys st :
  append_to l ys (append_to l xs st) = append_to l (xs ++ ys) st.
Proof.
  unfold append_to; simpl. f_equal.
  apply list_eq; intros i. rewrite !list_lookup_alter.
  repeat case_decide; subst; try done.
  destruct (lists st !! i); simpl; [by rewrite app_assoc | done].
Qed.

Lemma read_list_append_to l ys st :
  l < length (lists st) ->
  read_list (append_to l ys st) l = read_list st l ++ ys.
Proof.
  intros Hl. destruct (lookup_lt_is_Some_2 (lists st) l Hl) as [xs Hxs].
  unfold read_list, append_to; cbn [lists].
  rewrite list_lookup_alter, decide_True, Hxs by done. reflexivity.
Qed.

Lemma read_list_append_to_ne l l' ys st :
  l <> l' -> read_list (append_to l ys st) l' = read_list st l'.
Proof.
  intros Hne. unfold read_list, append_to; cbn [lists].
  by rewrite list_lookup_alter_ne.
Qed.

Lemma append_to_allocate xs d ys st :
  append_to (length (lists st)) ys (allocate xs d st) = allocate (xs ++ ys) d st.
Proof.
  unfold append_to, allocate; cbn [lists dicts]. f_equal.
  apply list_eq; intros i. rewrite list_lookup_alter.
  case_decide; [subst |].
  - by rewrite !lookup_app_r, Nat.sub_diag by lia.
  - destruct (decide (i < length (lists st))).
    + by rewrite !lookup_app_l by lia.
    + rewrite !lookup_ge_None_2; [done | |]; rewrite length_app; simpl; lia.
Qed.

(** ** Iteration and atomicity *)

Lemma py_iter_None st x : py_iter st x = None <-> iterable x = false.
Proof.
  destruct x as [| | | s m [it |] | | |]; simpl; split; intros H;
    try done.
Qed.

Lemma list_append_spec l x st :
  list_append l x st = (Ret tt, append_to l [x] st).
Proof. reflexivity. Qed.

(** ** [for_each] *)

Lemma for_each_app {A} (f : A -> M unit) xs ys st :
  for_each f (xs ++ ys) st =
  match for_each f xs st with
  | (Ret _, st') => for_each f ys st'
  | r => r
  end.
Proof.
  revert st. induction xs as [| x xs IH]; intros st; simpl.
  - done.
  - unfold bind. destruct (f x st) as [[[] | e |] st1]; [apply IH | done | done].
Qed.

Lemma for_each_ret_app {A} (f : A -> M unit) xs ys st st1 st2 :
  for_each f xs st = (Ret tt, st1) ->
  for_each f ys st1 = (Ret tt, st2) ->
  for_each f (xs ++ ys) st = (Ret tt, st2).
Proof. intros H1 H2. by rewrite for_each_app, H1. Qed.

Lemma for_each_app_inv {A} (f : A -> M unit) xs ys st st2 :
  for_each f (xs ++ ys) st = (Ret tt, st2) ->
  exists st1, for_each f xs st = (Ret tt, st1) /\ for_each f ys st1 = (Ret tt, st2).
Proof.
  rewrite for_each_app. destruct (for_each f xs st) as [[[] | e |] st1];
    intros H; try discriminate. eauto.
Qed.

(** A loop whose body only appends to the list at [l] only appends to it,
    however it ends. *)
Lemma for_each_appends {A} (P : value -> Prop) (f : A -> M unit) l xs :
  (forall x st o st', In x xs -> f x st = (o, st') ->
     exists ys, st' = append_to l ys st /\ Forall P ys) ->
  forall st o st', for_each f xs st = (o, st') ->
    exists ys, st' = append_to l ys st /\ Forall P ys.
Proof.
  induction xs as [| x xs IH]; intros Hf st o st' H; simpl in H.
  - inversion H; subst. exists []. by rewrite append_to_nil.
  - unfold bind in H. destruct (f x st) as [[[] | e |] st1] eqn:E.
    + destruct (Hf x st _ _ (or_introl eq_refl) E) as (ys1 & -> & HP1).
      destruct (IH (fun y s o' s' Hy => Hf y s o' s' (or_intror Hy)) _ _ _ H)
        as (ys2 & -> & HP2).
      exists (ys1 ++ ys2). rewrite append_to_app. split; [done |].
      by apply Forall_app.
    + inversion H; subst. eapply (Hf x); [by left | done].
    + inversion H; subst. eapply (Hf x); [by left | done].
Qed.

(** ** [_r_flatten] *)

Section flatten.
Import HTMLContainer.

Lemma flat_item_atomic x : _atomicOverride x = true -> flat_item x = true.
Proof. unfold flat_item. by intros ->. Qed.

(** One call on a flat item appends it and returns. *)
Lemma r_flatten_flat_item n l x st :
  flat_item x = true ->
  _r_flatten (S n) l x st = (Ret tt, append_to l [x] st).
Proof.
  unfold flat_item. intros H. simpl.
  destruct (_atomicOverride x); [done |].
  simpl in H. apply negb_true_iff in H.
  apply (py_iter_None st) in H. by rewrite H.
Qed.

Lemma for_each_flat_items n l xs st :
  Forall (fun x => flat_item x = true) xs ->
  for_each (_r_flatten (S n) l) xs st = (Ret tt, append_to l xs st).
Proof.
  intros H. revert st. induction H as [| x xs Hx _ IH]; intros st.
  - simpl. by rewrite append_to_nil.
  - cbn [for_each]. erewrite bind_ret by by apply r_flatten_flat_item.
    rewrite IH. by rewrite append_to_app.
Qed.

(** Whatever the outcome, a call only appends to [self.contents], and
    only flat items. *)
Lemma r_flatten_appends n l x st o st' :
  _r_flatten n l x st = (o, st') ->
  exists ys, st' = append_to l ys st /\ Forall (fun y => flat_item y = true) ys.
Proof.
  revert x st o st'. induction n as [| n IH]; intros x st o st' H; simpl in H.
  - inversion H; subst. exists []. by rewrite append_to_nil.
  - destruct (_atomicOverride x) eqn:Ea.
    + inversion H; subst. exists [x]. split; [done |].
      repeat constructor. by apply flat_item_atomic.
    + destruct (py_iter st x) as [it |] eqn:Ei.
      * eapply for_each_appends; [| exact H]. intros; by eapply IH.
      * inversion H; subst. exists [x]. split; [done |].
        repeat constructor. unfold flat_item. rewrite Ea. simpl.
        apply negb_true_iff. by apply (py_iter_None st).
Qed.

Lemma for_each_r_flatten_appends n l xs st o st' :
  for_each (_r_flatten n l) xs st = (o, st') ->
  exists ys, st' = append_to l ys st /\ Forall (fun y => flat_item y = true) ys.
Proof.
  apply for_each_appends. intros; by eapply r_flatten_appends.
Qed.

(** A deeper stack does not change a call that returned. *)
Lemma for_each_mono {A} (f g : A -> M unit) xs :
  (forall x st st', In x xs -> f x st = (Ret tt, st') -> g x st = (Ret tt, st')) ->
  forall st st', for_each f xs st = (Ret tt, st') -> for_each g xs st = (Ret tt, st').
Proof.
  induction xs as [| x xs IH]; intros Hfg st st' H; simpl in *; [done |].
  apply bind_inv_ret in H as ([] & st1 & H1 & H2).
  erewrite bind_ret by (apply Hfg; [by left | exact H1]).
  apply IH; [| done]. intros; apply Hfg; [by right | done].
Qed.

Lemma r_flatten_mono n m l x st st' :
  n <= m ->
  _r_flatten n l x st = (Ret tt, st') -> _r_flatten m l x st = (Ret tt, st').
Proof.
  revert m x st st'. induction n as [| n IH]; intros m x st st' Hnm H.
  - discriminate.
  - destruct m as [| m]; [lia |]. simpl in *.
    destruct (_atomicOverride x); [done |].
    destruct (py_iter st x) as [it |]; [| done].
    eapply for_each_mono; [| exact H]. intros; eapply IH; [lia | done].
Qed.

Lemma for_each_r_flatten_mono n m l xs st st' :
  n <= m ->
  for_each (_r_flatten n l) xs st = (Ret tt, st') ->
  for_each (_r_flatten m l) xs st = (Ret tt, st').
Proof.
  intros Hnm. apply for_each_mono. intros; by eapply r_flatten_mono.
Qed.

End flatten.

(** ** The constructor *)

Section init.
Import HTMLContainer.

Lemma append_to_fresh ys st :
  append_to (length (lists st)) ys (Store (lists st ++ [[]]) (dicts st))
  = Store (lists st ++ [ys]) (dicts st).
Proof.
  unfold append_to; cbn [lists dicts]. f_equal.
  apply list_eq; intros i. rewrite list_lookup_alter.
  case_decide; [subst |].
  - by rewrite !lookup_app_r, Nat.sub_diag by lia.
  - destruct (decide (i < length (lists st))).
    + by rewrite !lookup_app_l by lia.
    + rewrite !lookup_ge_None_2; [done | |]; rewrite length_app; simpl; lia.
Qed.

(** [__init__] allocates one list and, when the flattening returns, one
    dictionary; the list receives what the flattening appends. *)
Lemma init_unfold digest n args attrs st temp ea self :
  digest args = Ret (temp, ea, self) ->
  __init__ digest n args attrs st =
  match for_each (_r_flatten n (length (lists st))) temp
                 (Store (lists st ++ [[]]) (dicts st)) with
  | (Ret _, st1) =>
      (Ret (self ea (length (lists st)) (length (dicts st))),
       Store (lists st1) (dicts st ++ [remap_attrs attrs]))
  | (Raise e, st1) => (Raise e, st1)
  | (NoStack, st1) => (NoStack, st1)
  end.
Proof.
  intros Hd. unfold __init__, bind, lift, new_list, new_dict, ret. rewrite Hd.
  destruct (for_each _ temp _) as [[[] | e |] st1] eqn:E; try done.
  apply for_each_r_flatten_appends in E as (ys & -> & _).
  by rewrite append_to_fresh.
Qed.

Lemma init_ret digest n args attrs st temp ea self v st' :
  digest args = Ret (temp, ea, self) ->
  __init__ digest n args attrs st = (Ret v, st') <->
  exists ys, flattens n st temp ys
             /\ v = self ea (length (lists st)) (length (dicts st))
             /\ st' = allocate ys (remap_attrs attrs) st.
Proof.
  intros Hd. rewrite (init_unfold _ _ _ _ _ _ _ _ Hd). unfold flattens.
  destruct (for_each _ temp _) as [[[] | e |] st1] eqn:E.
  - pose proof E as E'.
    apply for_each_r_flatten_appends in E' as (ys & -> & _).
    rewrite append_to_fresh. split.
    + intros H; inversion H; subst. by exists ys.
    + intros (ys' & H & -> & ->). inversion H as [H']. 
      apply app_inj_tail in H' as [_ ->]. done.
  - split; [done |]. by intros (ys & H & _).
  - split; [done |]. by intros (ys & H & _).
Qed.

Lemma init_raise_digest digest n args attrs st e :
  digest args = Raise e -> __init__ digest n args attrs st = (Raise e, st).
Proof. intros Hd. unfold __init__, bind, lift. by rewrite Hd. Qed.

Lemma flattens_flat_items n st xs :
  Forall (fun x => flat_item x = true) xs -> flattens (S n) st xs xs.
Proof.
  intros H. unfold flattens. rewrite for_each_flat_items by done.
  by rewrite append_to_fresh.
Qed.

Lemma flattens_flat n st temp ys :
  flattens n st temp ys -> Forall (fun y => flat_item y = true) ys.
Proof.
  unfold flattens. intros H.
  apply for_each_r_flatten_appends in H as (ys' & H & Hflat).
  rewrite append_to_fresh in H. inversion H as [H'].
  apply app_inj_tail in H' as [_ ->]. done.
Qed.

Lemma flattens_mono n m st temp ys :
  n <= m -> flattens n st temp ys -> flattens m st temp ys.
Proof. unfold flattens. apply for_each_r_flatten_mono. Qed.

End init.

(** ** Nested iterables *)

Lemma nest_induction (P : nest -> Prop) :
  (forall x, P (Leaf x)) ->
  (forall s fm ts, Forall P ts -> P (Nest s fm ts)) ->
  forall t, P t.
Proof.
  intros HL HN. fix IH 1. intros [x | s fm ts]; [apply HL |].
  apply HN. induction ts as [| t ts IHts]; constructor; [apply IH | apply IHts].
Qed.

Section nests.
Import HTMLContainer.

Lemma for_each_singleton {A} (f : A -> M unit) x st st' :
  for_each f [x] st = (Ret tt, st') <-> f x st = (Ret tt, st').
Proof.
  simpl. unfold bind, ret. destruct (f x st) as [[[] | e |] st1]; split; congruence.
Qed.

Lemma r_flatten_embed_nest n l s fm ts st :
  _r_flatten (S n) l (embed (Nest s fm ts)) st
  = for_each (_r_flatten n l) (map embed ts) st.
Proof. simpl. by destruct fm. Qed.

Lemma list_max_ge (ns : list nat) k : In k ns -> k <= list_max ns.
Proof.
  induction ns as [| m ns IH]; simpl; [done |].
  intros [-> | H]; [lia |]. specialize (IH H). lia.
Qed.

(** Flattening the leaves one by one returns: so does flattening the
    tree, on a stack deeper by the depth of the tree, with the same
    effect. *)
Lemma nest_of_leaves t : forall n l st st',
  for_each (_r_flatten n l) (leaves t) st = (Ret tt, st') ->
  _r_flatten (n + nest_depth t) l (embed t) st = (Ret tt, st').
Proof.
  induction t as [x | s fm ts IH] using nest_induction; intros n l st st' H.
  - cbn [leaves embed nest_depth] in *.
    apply (proj1 (for_each_singleton _ _ _ _)) in H.
    eapply r_flatten_mono; [| exact H]. lia.
  - cbn [nest_depth]. rewrite Nat.add_succ_r, r_flatten_embed_nest.
    cbn [leaves] in H. revert st H.
    assert (Hd : forall t, In t ts -> nest_depth t <= list_max (map nest_depth ts)).
    { intros t Ht. apply list_max_ge. by apply in_map. }
    revert Hd. generalize (list_max (map nest_depth ts)) as d.
    induction IH as [| t ts Ht _ IHts]; intros d Hd st H; simpl in *; [done |].
    apply for_each_app_inv in H as (st1 & H1 & H2).
    erewrite bind_ret.
    + apply IHts; [| exact H2]. intros; apply Hd; by right.
    + eapply r_flatten_mono; [| apply Ht, H1].
      specialize (Hd t (or_introl eq_refl)). lia.
Qed.

(** Flattening the tree returns: so does flattening its leaves one by
    one, on the same stack, with the same effect. *)
Lemma leaves_of_nest t : forall n l st st',
  _r_flatten n l (embed t) st = (Ret tt, st') ->
  for_each (_r_flatten n l) (leaves t) st = (Ret tt, st').
Proof.
  induction t as [x | s fm ts IH] using nest_induction; intros n l st st' H.
  - cbn [leaves embed] in *. by apply (proj2 (for_each_singleton _ _ _ _)).
  - destruct n as [| n]; [discriminate |].
    rewrite r_flatten_embed_nest in H. cbn [leaves]. revert st H.
    induction IH as [| t ts Ht _ IHts]; intros st H;
      cbn [map concat for_each] in *; [done |].
    apply bind_inv_ret in H as ([] & st1 & H1 & H2).
    eapply for_each_ret_app; [| apply IHts, H2].
    eapply for_each_r_flatten_mono; [| apply Ht, H1]. lia.
Qed.

Lemma for_each_nests_of_leaves ts : forall n l st st',
  for_each (_r_flatten n l) (concat (map leaves ts)) st = (Ret tt, st') ->
  for_each (_r_flatten (n + list_max (map nest_depth ts)) l) (map embed ts) st
  = (Ret tt, st').
Proof.
  intros n l st st' H.
  pose proof (nest_of_leaves (Nest EmptyString false ts) n l st st' H) as H'.
  cbn [nest_depth] in H'. rewrite Nat.add_succ_r, r_flatten_embed_nest in H'.
  exact H'.
Qed.

Lemma for_each_leaves_of_nests ts : forall n l st st',
  for_each (_r_flatten n l) (map embed ts) st = (Ret tt, st') ->
  for_each (_r_flatten (S n) l) (concat (map leaves ts)) st = (Ret tt, st').
Proof.
  intros n l st st' H.
  apply (leaves_of_nest (Nest EmptyString false ts) (S n)).
  by rewrite r_flatten_embed_nest.
Qed.

End nests.

Section nesting_invariance.
Import HTMLContainer.

Lemma flattens_nests_iff st ts ys :
  (exists n, flattens n st (map embed ts) ys)
  <-> (exists n, flattens n st (concat (map leaves ts)) ys).
Proof.
  unfold flattens. split; intros [n H].
  - exists (S n). by apply for_each_leaves_of_nests.
  - eexists. by apply for_each_nests_of_leaves.
Qed.

(** A constructor whose [digest] hands over the nested contents builds
    what it builds from the leaves. *)
Lemma init_nests_iff digest args1 args2 ts ea self attrs st v st' :
  digest args1 = Ret (map embed ts, ea, self) ->
  digest args2 = Ret (concat (map leaves ts), ea, self) ->
  builds (__init__ digest) args1 attrs st v st'
  <-> builds (__init__ digest) args2 attrs st v st'.
Proof.
  intros H1 H2. unfold builds.
  split; intros [n H].
  - apply (init_ret _ _ _ _ _ _ _ _ _ _ H1) in H as (ys & Hf & -> & ->).
    destruct (proj1 (flattens_nests_iff st ts ys) (ex_intro _ n Hf)) as [m Hm].
    exists m. apply (init_ret _ _ _ _ _ _ _ _ _ _ H2). by exists ys.
  - apply (init_ret _ _ _ _ _ _ _ _ _ _ H2) in H as (ys & Hf & -> & ->).
    destruct (proj2 (flattens_nests_iff st ts ys) (ex_intro _ n Hf)) as [m Hm].
    exists m. apply (init_ret _ _ _ _ _ _ _ _ _ _ H1). by exists ys.
Qed.

Lemma Tag_digest_cons n st name ty contents :
  Tag.digest (str n st) (VStr name :: VInt ty :: contents)
  = if negb (existsb (Tag.eq_int (VInt ty)) [Tag.NORMAL; Tag.LONE; Tag.FORCED_PAIR])
    then Raise ValueError
    else Ret (contents, [VStr name; VInt ty], VTag (VStr name) (VInt ty)).
Proof.
  unfold Tag.digest.
  destruct (negb _); [| reflexivity]. by destruct n.
Qed.

(** A recognized tag type lets [digest] hand everything over as it came. *)
Lemma Tag_digest_recognized str_ name ty contents :
  existsb (Tag.eq_int ty) [Tag.NORMAL; Tag.LONE; Tag.FORCED_PAIR] = true ->
  Tag.digest str_ (name :: ty :: contents)
  = Ret (contents, [name; ty], VTag name ty).
Proof. intros H. unfold Tag.digest. by rewrite H. Qed.

(** With another tag type [digest] does not return. *)
Lemma Tag_digest_unrecognized str_ name ty contents :
  existsb (Tag.eq_int ty) [Tag.NORMAL; Tag.LONE; Tag.FORCED_PAIR] = false ->
  forall r, Tag.digest str_ (name :: ty :: contents) <> Ret r.
Proof.
  intros H r. unfold Tag.digest. rewrite H. cbn [negb].
  destruct (Tag.format_d ty); [| done | done]. cbn [obind].
  by destruct (str_ name).
Qed.

(** With flat leaves the constructor returns and stores the leaves. *)
Lemma TagList_init_flat_leaves ts attrs st :
  Forall (fun x => flat_item x = true) (concat (map leaves ts)) ->
  TagList.__init__ (S (list_max (map nest_depth ts))) (map embed ts) attrs st
  = (Ret (VTagList [] (length (lists st)) (length (dicts st))),
     allocate (concat (map leaves ts)) (remap_attrs attrs) st).
Proof.
  intros Hflat.
  apply (init_ret TagList.digest _ _ _ _ (map embed ts) [] VTagList);
    [done |].
  exists (concat (map leaves ts)). split; [| done].
  pose proof (flattens_flat_items 0 st _ Hflat) as H. unfold flattens in *.
  apply for_each_nests_of_leaves in H. exact H.
Qed.

End nesting_invariance.


(** ** Rendering raises nothing *)

Lemma omap_never_raises {A B} (f : A -> outcome B) xs :
  (forall x e, f x <> Raise e) -> forall e, omap f xs <> Raise e.
Proof.
  intros Hf e. induction xs as [| x xs IH]; simpl; [done |].
  specialize (Hf x). destruct (f x) as [y | e' |]; simpl;
    [| exfalso; by apply (Hf e') | done].
  destruct (omap f xs) as [ys | e' |]; simpl; [done | exact IH | done].
Qed.







(** ** Frames *)

Lemma extends_refl st : extends st st.
Proof. by split. Qed.

Lemma extends_trans st1 st2 st3 :
  extends st1 st2 -> extends st2 st3 -> extends st1 st3.
Proof. intros [? ?] [? ?]. split; by etrans. Qed.

Lemma extends_read_list st st' l :
  extends st st' -> l < length (lists st) -> read_list st' l = read_list st l.
Proof.
  intros [[k Hk] _] Hl. unfold read_list. by rewrite Hk, lookup_app_l.
Qed.

Lemma extends_read_dict st st' a :
  extends st st' -> a < length (dicts st) -> read_dict st' a = read_dict st a.
Proof.
  intros [_ [k Hk]] Ha. unfold read_dict. by rewrite Hk, lookup_app_l.
Qed.

Lemma extends_allocate xs d st : extends st (allocate xs d st).
Proof. split; by eexists. Qed.

(** However it ends, a constructor leaves what existed as it was. *)
Lemma init_extends digest n args attrs st o st' :
  HTMLContainer.__init__ digest n args attrs st = (o, st') -> extends st st'.
Proof.
  destruct (digest args) as [[[temp ea] self] | e |] eqn:Hd.
  - rewrite (init_unfold _ _ _ _ _ _ _ _ Hd).
    destruct (for_each _ temp _) as [[[] | e |] st1] eqn:E;
      apply for_each_r_flatten_appends in E as (ys & -> & _);
      rewrite append_to_fresh; intros H; inversion H; subst;
      split; simpl; try (by apply prefix_app_r); done.
  - rewrite (init_raise_digest _ _ _ _ _ _ Hd). intros H; inversion H; subst.
    apply extends_refl.
  - unfold HTMLContainer.__init__, bind, lift. rewrite Hd.
    intros H; inversion H; subst. apply extends_refl.
Qed.

Lemma call_unfold type_self n c x newAttrs st ea cl al :
  extraArgs c = Some ea -> contents c = Some cl -> attrs c = Some al ->
  HTMLContainer.__call__ type_self n c x newAttrs st
  = type_self n (ea ++ read_list st cl ++ x)
                (dict_update (read_dict st al) newAttrs) st.
Proof.
  intros He Hc Ha. unfold HTMLContainer.__call__, bind, getattr, ret.
  by rewrite He, Hc, Ha.
Qed.

Lemma call_type n c x newAttrs st cl :
  contents c = Some cl ->
  call n c x newAttrs st = HTMLContainer.__call__ (type_ c) n c x newAttrs st.
Proof. by destruct c. Qed.

(** The tag type of a [Tag] is one of the three. *)
Lemma recognized_spec ty :
  existsb (Tag.eq_int (VInt ty)) [Tag.NORMAL; Tag.LONE; Tag.FORCED_PAIR] = true
  <-> ty = Tag.NORMAL \/ ty = Tag.LONE \/ ty = Tag.FORCED_PAIR.
Proof.
  unfold Tag.NORMAL, Tag.LONE, Tag.FORCED_PAIR. simpl.
  destruct (Z.eqb_spec ty 0), (Z.eqb_spec ty 1), (Z.eqb_spec ty 2); simpl;
    split; intros H; try done; auto; lia.
Qed.

Lemma call_primitive n c x newAttrs st cl al :
  primitive c -> contents c = Some cl -> attrs c = Some al ->
  call n c x newAttrs st
  = type_ c n (default [] (extraArgs c) ++ read_list st cl ++ x)
            (dict_update (read_dict st al) newAttrs) st.
Proof.
  intros Hp Hc Ha. rewrite (call_type _ _ _ _ _ _ Hc).
  destruct c; try done; simpl in *; by erewrite call_unfold.
Qed.

Lemma call_primitive_extends n c x newAttrs st o st' :
  primitive c -> call n c x newAttrs st = (o, st') -> extends st st'.
Proof.
  intros Hp.
  destruct c as [| | | | ea c a | name ty ea c a |]; try done; simpl;
    unfold TagList.__call__, Tag.__call__;
    (erewrite call_unfold by done); apply init_extends.
Qed.

Lemma call_primitive_ret n c x newAttrs st cl al c' st' :
  primitive c -> contents c = Some cl -> attrs c = Some al ->
  call n c x newAttrs st = (Ret c', st') <->
  exists ys,
    flattens n st (read_list st cl ++ x) ys
    /\ c' = reseat c (length (lists st)) (length (dicts st))
    /\ st' = allocate ys (HTMLContainer.remap_attrs
                            (dict_update (read_dict st al) newAttrs)) st
    /\ recognized c.
Proof.
  intros Hp Hc Ha.
  destruct c as [| | | | ea c a | name ty ea c a |]; try done;
    simpl in Hp, Hc, Ha; subst ea; injection Hc as <-; injection Ha as <-;
    simpl; unfold TagList.__call__, Tag.__call__;
    (erewrite call_unfold by done).
  - unfold TagList.__init__.
    rewrite (init_ret TagList.digest n _ _ st (read_list st c ++ x) [] VTagList)
      by done.
    split; intros (ys & ? & ? & ?); exists ys; tauto.
  - cbn [app]. unfold Tag.__init__.
    destruct (existsb (Tag.eq_int ty) [Tag.NORMAL; Tag.LONE; Tag.FORCED_PAIR])
      eqn:E.
    + rewrite (init_ret (Tag.digest (str n st)) n _ _ st (read_list st c ++ x)
                 [name; ty] (VTag name ty))
        by (by apply Tag_digest_recognized).
      split; intros (ys & ? & ? & ?); exists ys; tauto.
    + split; [| intros (ys & _ & _ & _ & H); simpl in H, E; congruence].
      intros H. exfalso.
      pose proof (Tag_digest_unrecognized (str n st) name ty
                    (read_list st c ++ x) E) as Hd.
      destruct (Tag.digest (str n st) (name :: ty :: read_list st c ++ x))
        as [r | e |] eqn:Hr; [by apply (Hd r) | |].
      * by rewrite (init_raise_digest _ _ _ _ _ _ Hr) in H.
      * unfold HTMLContainer.__init__, bind, lift in H. by rewrite Hr in H.
Qed.

(** ** Dictionaries *)

Section dicts.
Import HTMLContainer.

Lemma dict_set_fresh k v (d : dict) :
  k ∉ d.*1 -> dict_set k v d = d ++ [(k, v)].
Proof.
  induction d as [| [k' v'] d IH]; simpl; intros Hk; [done |].
  apply not_elem_of_cons in Hk as [Hne Hk].
  destruct (String.eqb_spec k k'); [done |]. by rewrite IH.
Qed.

Lemma dict_set_keys k v (d : dict) :
  (dict_set k v d).*1 = if bool_decide (k ∈ d.*1) then d.*1 else d.*1 ++ [k].
Proof.
  induction d as [| [k' v'] d IH]; [done |].
  cbn [dict_set]. rewrite (fmap_cons fst (k', v') d). cbn [fst].
  destruct (String.eqb_spec k k') as [-> | Hne].
  - rewrite fmap_cons. cbn [fst]. rewrite bool_decide_eq_true_2; [done | by left].
  - rewrite fmap_cons, IH. cbn [fst]. destruct (bool_decide (k ∈ d.*1)) eqn:E.
    + apply bool_decide_eq_true in E.
      rewrite bool_decide_eq_true_2; [done | by right].
    + apply bool_decide_eq_false in E.
      rewrite bool_decide_eq_false_2; [done |].
      by apply not_elem_of_cons.
Qed.

Lemma specialAttrs_get_idem k :
  _specialAttrs_get (_specialAttrs_get k) = _specialAttrs_get k.
Proof.
  unfold _specialAttrs_get, _specialAttrs. simpl.
  destruct (String.eqb_spec k "for_"); [done |].
  destruct (String.eqb_spec k "class_"); [done |]. simpl.
  destruct (String.eqb_spec k "for_"); [done |].
  by destruct (String.eqb_spec k "class_").
Qed.

Lemma normal_nil : normal [].
Proof. split; constructor. Qed.

Lemma normal_dict_set k v d :
  normal d -> _specialAttrs_get k = k -> normal (dict_set k v d).
Proof.
  intros [Hnd Hfix] Hk. unfold normal. rewrite dict_set_keys.
  destruct (bool_decide (k ∈ d.*1)) eqn:E; [done |].
  apply bool_decide_eq_false in E. split.
  - apply NoDup_app. split; [done |]. split; [| apply NoDup_singleton].
    intros k' Hk' ->%list_elem_of_singleton. done.
  - apply Forall_app. split; [done |]. by constructor.
Qed.

Lemma normal_fold_remap d acc :
  normal acc ->
  normal (fold_left (fun acc kv => dict_set (_specialAttrs_get kv.1) kv.2 acc)
                    d acc).
Proof.
  revert acc. induction d as [| [k v] d IH]; intros acc Hacc; simpl; [done |].
  apply IH, normal_dict_set; [done |]. apply specialAttrs_get_idem.
Qed.

(** The dictionary a constructor stores is normal. *)
Lemma normal_remap_attrs d : normal (remap_attrs d).
Proof. apply normal_fold_remap, normal_nil. Qed.

Lemma fold_remap_normal d acc :
  NoDup (acc.*1 ++ d.*1) ->
  Forall (fun k => _specialAttrs_get k = k) d.*1 ->
  fold_left (fun acc kv => dict_set (_specialAttrs_get kv.1) kv.2 acc) d acc
  = acc ++ d.
Proof.
  revert acc. induction d as [| [k v] d IH]; intros acc Hnd Hfix; simpl.
  - by rewrite app_nil_r.
  - simpl in *. apply Forall_cons in Hfix as [Hk Hfix]. rewrite Hk.
    apply NoDup_app in Hnd as (Hacc & Hdisj & Hd).
    apply NoDup_cons in Hd as [Hkd Hd].
    assert (Hka : k ∉ acc.*1).
    { intros Hin. apply (Hdisj k Hin). by left. }
    rewrite dict_set_fresh by done. rewrite IH; [by rewrite <- app_assoc | | done].
    rewrite fmap_app. simpl. rewrite <- app_assoc. simpl.
    apply NoDup_app. split; [done |]. split.
    + intros k' Hk' [-> | Hin]%elem_of_cons; [done |].
      apply (Hdisj k' Hk'). by right.
    + by apply NoDup_cons.
Qed.

(** Storing a normal dictionary again does not change it. *)
Lemma remap_attrs_normal d : normal d -> remap_attrs d = d.
Proof. intros [Hnd Hfix]. unfold remap_attrs. by rewrite fold_remap_normal. Qed.

Lemma normal_dict_update d new :
  normal d -> Forall (fun k => _specialAttrs_get k = k) new.*1 ->
  normal (dict_update d new).
Proof.
  unfold dict_update. revert d.
  induction new as [| [k v] new IH]; intros d Hd Hnew; simpl; [done |].
  simpl in Hnew. apply Forall_cons in Hnew as [Hk Hnew].
  apply IH; [| done]. by apply normal_dict_set.
Qed.

End dicts.


(** ** The open tag *)

Lemma openTagGuts_loop_tokens str_ items toks :
  Forall2 (attr_token str_) items toks ->
  forall temp,
    Tag._openTagGuts_loop str_ items temp = Ret (temp ++ concat toks).
Proof.
  induction 1 as [| [k v] tok items toks Htok _ IH]; intros temp; simpl.
  - by rewrite app_nil_r.
  - inversion Htok as [k' | k' | k' v' s Hv Hs]; subst.
    + rewrite IH. by rewrite <- app_assoc.
    + apply IH.
    + destruct v as [| | b | | | |]; try (by destruct (Hv b));
        rewrite Hs; simpl; rewrite IH; by rewrite <- app_assoc.
Qed.


(** ** Rendering a tag *)

Lemma str_VStr n st s : str n st (VStr s) = Ret s.
Proof. by destruct n. Qed.

Lemma str_VTag n st name ty ea c a :
  str (S n) st (VTag (VStr name) (VInt ty) ea c a)
  = (try parts <- omap (str n st) (read_list st c) ;;
     Tag.wrap (Tag._openTagGuts (str n st) (VStr name) (read_dict st a))
              (Ret name) (VInt ty) (read_list st c)
              (join HTMLContainer.spacer parts)).
Proof. cbn [Tag.str]. by rewrite str_VStr. Qed.

Lemma Tag_init_unfold n args attrs st :
  Tag.__init__ n args attrs st
  = HTMLContainer.__init__ (Tag.digest (str n st)) n args attrs st.
Proof. reflexivity. Qed.

Lemma str_VTagList n st ea c a :
  str (S n) st (VTagList ea c a)
  = (try parts <- omap (str n st) (read_list st c) ;;
     Ret (join HTMLContainer.spacer parts)).
Proof. reflexivity. Qed.


(** ** The flatness invariant *)

Section flatness.
Import HTMLContainer.

Lemma tidy_store_new_list st ys :
  tidy_store st -> Forall (fun y => flat_item y = true) ys ->
  tidy_store (Store (lists st ++ [ys]) (dicts st)).
Proof.
  intros [Hl Hd] Hys. split; [| done].
  unfold flat_store; cbn [lists]. apply Forall_app. split; [done |].
  by constructor.
Qed.

Lemma tidy_store_new_dict st d :
  tidy_store st -> tidy_store (Store (lists st) (dicts st ++ [remap_attrs d])).
Proof.
  intros [Hl Hd]. split; [done |]. cbn [dicts]. apply Forall_app. split; [done |].
  constructor; [apply normal_remap_attrs | constructor].
Qed.

Lemma keeps_tidy_ret {A} (a : A) : keeps_tidy (ret a).
Proof. intros st o st' H [= <- <-]. done. Qed.

Lemma keeps_tidy_raise {A} e : keeps_tidy (@raise A e).
Proof. intros st o st' H [= <- <-]. done. Qed.

Lemma keeps_tidy_lift {A} (r : outcome A) : keeps_tidy (lift r).
Proof. intros st o st' H [= <- <-]. done. Qed.

Lemma keeps_tidy_bind {A B} (m : M A) (k : A -> M B) :
  keeps_tidy m -> (forall a, keeps_tidy (k a)) -> keeps_tidy (bind m k).
Proof.
  intros Hm Hk st o st' Hst. unfold bind.
  destruct (m st) as [[a | e |] st1] eqn:E; intros H.
  - eapply Hk; [| exact H]. by eapply Hm.
  - inversion H; subst. by eapply Hm.
  - inversion H; subst. by eapply Hm.
Qed.

Lemma keeps_tidy_getattr {A} (field : value -> option A) x :
  keeps_tidy (getattr field x).
Proof.
  unfold getattr. destruct (field x); [apply keeps_tidy_ret | apply keeps_tidy_raise].
Qed.

Lemma keeps_tidy_global name : keeps_tidy (global name).
Proof.
  unfold global, lookup_global.
  destruct (dict_get name module_globals);
    [apply keeps_tidy_ret | apply keeps_tidy_raise].
Qed.

Lemma keeps_tidy_new_dict d : keeps_tidy (new_dict (remap_attrs d)).
Proof. intros st o st' H [= <- <-]. by apply tidy_store_new_dict. Qed.

Lemma keeps_tidy_unpack_first x : keeps_tidy (unpack_first x).
Proof.
  intros st o st' H. unfold unpack_first.
  destruct (py_iter st x) as [[| y ys] |]; intros [= <- <-]; done.
Qed.

(** However it ends, a constructor leaves the store tidy: the new list
    holds only what [_r_flatten] appended, the new dictionary what
    [remap_attrs] made. *)
Lemma keeps_tidy_init digest n args attrs :
  keeps_tidy (__init__ digest n args attrs).
Proof.
  intros st o st' Hst.
  destruct (digest args) as [[[temp ea] self] | e |] eqn:Hd.
  - rewrite (init_unfold _ _ _ _ _ _ _ _ Hd).
    destruct (for_each _ temp _) as [[[] | e |] st1] eqn:E;
      apply for_each_r_flatten_appends in E as (ys & -> & Hys);
      rewrite append_to_fresh; intros H; inversion H; subst;
      try (by apply tidy_store_new_list).
    apply (tidy_store_new_dict (Store (lists st ++ [ys]) (dicts st))).
    by apply tidy_store_new_list.
  - rewrite (init_raise_digest _ _ _ _ _ _ Hd). by intros [= <- <-].
  - unfold __init__, bind, lift. rewrite Hd. by intros [= <- <-].
Qed.

Lemma keeps_tidy_call type_self n c x newAttrs :
  (forall args attrs, keeps_tidy (type_self n args attrs)) ->
  keeps_tidy (__call__ type_self n c x newAttrs).
Proof.
  intros Ht. unfold __call__.
  repeat (apply keeps_tidy_bind; [apply keeps_tidy_getattr | intros ?]).
  intros st o st' Hst. apply Ht, Hst.
Qed.

Lemma keeps_tidy_Tag_init n args attrs : keeps_tidy (Tag.__init__ n args attrs).
Proof. intros st o st' Hst H. by apply (keeps_tidy_init _ _ _ _ _ _ _ Hst H). Qed.

Lemma keeps_tidy_Tag_call n c x newAttrs : keeps_tidy (Tag.__call__ n c x newAttrs).
Proof. apply keeps_tidy_call. intros; apply keeps_tidy_Tag_init. Qed.

Lemma keeps_tidy_TagList_call n c x newAttrs :
  keeps_tidy (TagList.__call__ n c x newAttrs).
Proof. apply keeps_tidy_call. intros; apply keeps_tidy_init. Qed.

Ltac keeps_tidy_step :=
  first
    [ apply keeps_tidy_ret | apply keeps_tidy_raise | apply keeps_tidy_global
    | apply keeps_tidy_unpack_first | apply keeps_tidy_new_dict
    | apply keeps_tidy_getattr | apply keeps_tidy_Tag_call
    | apply keeps_tidy_TagList_call | apply keeps_tidy_Tag_init
    | apply keeps_tidy_init
    | apply keeps_tidy_bind; [| intros ?] ].

Lemma keeps_tidy_head_PAGE n title css : keeps_tidy (PAGE_.head n title css).
Proof. unfold PAGE_.head. repeat keeps_tidy_step. Qed.

Lemma keeps_tidy_head_JQPAGE n title css : keeps_tidy (JQPAGE_.head n title css).
Proof. unfold JQPAGE_.head. repeat keeps_tidy_step. Qed.

Lemma keeps_tidy_heart k n args attrs : keeps_tidy (heart k n args attrs).
Proof.
  destruct k; simpl; unfold SIMPLEPAGE_.heart, PageWrapper.heart;
    try (destruct (PageWrapper.heart_parameters args attrs)
           as [[[[title css] args'] kwargs] |]);
    repeat keeps_tidy_step.
Qed.

Lemma keeps_tidy_skeleton k n I ea : keeps_tidy (skeleton k n I ea).
Proof.
  destruct k; simpl; unfold SIMPLEPAGE_.skeleton, PageWrapper.skeleton, doctype;
    destruct ea as [| title [| css [| ? ?]]]; repeat keeps_tidy_step;
    first [apply keeps_tidy_head_PAGE | apply keeps_tidy_head_JQPAGE].
Qed.

Lemma keeps_tidy_new_pseudotag k n args attrs :
  keeps_tidy (new_pseudotag k n args attrs).
Proof.
  unfold new_pseudotag, Pseudotag.__init__.
  apply keeps_tidy_bind; [apply keeps_tidy_heart | intros [I ea]].
  apply keeps_tidy_bind; [apply keeps_tidy_skeleton | intros O].
  repeat keeps_tidy_step.
Qed.

Lemma keeps_tidy_any_call n c x newAttrs : keeps_tidy (call n c x newAttrs).
Proof.
  destruct c; simpl; try apply keeps_tidy_raise.
  - apply keeps_tidy_TagList_call.
  - apply keeps_tidy_Tag_call.
  - apply keeps_tidy_call. intros; apply keeps_tidy_new_pseudotag.
Qed.

Lemma tidy_store_module : tidy_store module_store.
Proof.
  split.
  - unfold flat_store. vm_compute. repeat constructor.
  - unfold module_store; cbn [dicts].
    repeat (constructor;
            [first [apply normal_nil
                   | apply (normal_remap_attrs [("src", VStr jquery_url)])] |]).
    constructor.
Qed.

Lemma built_tidy_store st : built st -> tidy_store st.
Proof.
  induction 1 as [| n args attrs st o st' _ IH H | n args attrs st o st' _ IH H
                  | k n args attrs st o st' _ IH H | n c x na st o st' _ IH H].
  - apply tidy_store_module.
  - eapply keeps_tidy_init; [exact IH | exact H].
  - eapply keeps_tidy_Tag_init; [exact IH | exact H].
  - eapply keeps_tidy_new_pseudotag; [exact IH | exact H].
  - eapply keeps_tidy_any_call; [exact IH | exact H].
Qed.

(** Every contents list of a built store is flat: each item is atomic or
    cannot be iterated. *)
Lemma built_flat_store st : built st -> flat_store st.
Proof. intros H. apply (built_tidy_store st H). Qed.


Lemma flat_store_read_list st l :
  flat_store st -> Forall (fun y => flat_item y = true) (read_list st l).
Proof.
  intros H. unfold read_list. destruct (lists st !! l) as [xs |] eqn:E; simpl.
  - eapply (Forall_lookup_1 _ _ _ _ H E).
  - constructor.
Qed.

(** Flattening a flat list again is the identity. *)
Lemma for_each_flat_items_inv n l xs st st' :
  Forall (fun x => flat_item x = true) xs ->
  for_each (_r_flatten n l) xs st = (Ret tt, st') -> st' = append_to l xs st.
Proof.
  intros Hflat H. destruct n as [| n].
  - destruct xs as [| x xs]; simpl in H.
    + inversion H; subst. by rewrite append_to_nil.
    + discriminate.
  - rewrite for_each_flat_items in H by done. by inversion H.
Qed.

(** Extending a [TagList] or a [Tag] of a store with flat contents lists
    keeps its contents, in order, as a prefix of the contents of the
    result. *)
Lemma extension_keeps_prefix n c x newAttrs st cl al c' st' :
  flat_store st -> primitive c -> contents c = Some cl -> attrs c = Some al ->
  cl < length (lists st) ->
  call n c x newAttrs st = (Ret c', st') ->
  exists ys,
    contents c' = Some (length (lists st))
    /\ read_list st' (length (lists st)) = read_list st cl ++ ys
    /\ read_list st' cl = read_list st cl
    /\ Forall (fun y => flat_item y = true) ys.
Proof.
  intros Hst Hp Hc Ha Hcl H.
  pose proof (call_primitive_extends _ _ _ _ _ _ _ Hp H) as Hext.
  apply (call_primitive_ret _ _ _ _ _ _ _ _ _ Hp Hc Ha) in H
    as (ys' & Hf & -> & -> & _).
  unfold flattens in Hf. apply for_each_app_inv in Hf as (st1 & H1 & H2).
  apply for_each_flat_items_inv in H1; [| by apply flat_store_read_list].
  rewrite append_to_fresh in H1. subst st1.
  pose proof H2 as H2'.
  apply for_each_r_flatten_appends in H2' as (ys & E & Hys').
  assert (Hys : ys' = read_list st cl ++ ys).
  { unfold append_to in E; cbn [lists dicts] in E. injection E as E.
    assert (E' : (lists st ++ [ys']) !! length (lists st)
                 = alter (fun xs => xs ++ ys) (length (lists st))
                     (lists st ++ [read_list st cl]) !! length (lists st))
      by (by rewrite E).
    rewrite list_lookup_alter, decide_True in E' by done.
    rewrite !lookup_app_r, Nat.sub_diag in E' by lia. simpl in E'.
    by injection E' as ->. }
  subst ys'. exists ys.
  split; [by destruct c |]. split; [| split].
  - unfold read_list, allocate; cbn [lists].
    by rewrite lookup_app_r, Nat.sub_diag by lia.
  - by apply extends_read_list.
  - done.
Qed.

End flatness.


(** ** Strings *)

Lemma append_cons ch (a b : string) : String ch a +:+ b = String ch (a +:+ b).
Proof. reflexivity. Qed.

Lemma length_append (a b : string) :
  String.length (a +:+ b) = String.length a + String.length b.
Proof.
  induction a as [| ch a IH]; [done |]. rewrite append_cons. simpl. by rewrite IH.
Qed.

Lemma append_nil_r (a : string) : a +:+ EmptyString = a.
Proof. induction a as [| ch a IH]; [done |]. by rewrite append_cons, IH. Qed.

Lemma append_assoc (a b c : string) : (a +:+ b) +:+ c = a +:+ (b +:+ c).
Proof. induction a as [| ch a IH]; [done |]. by rewrite !append_cons, IH. Qed.

Lemma join_cons sep x y ys :
  join sep (x :: y :: ys) = x +:+ sep +:+ join sep (y :: ys).
Proof. reflexivity. Qed.

Lemma join_empty_cons x xs :
  join EmptyString (x :: xs) = x +:+ join EmptyString xs.
Proof. destruct xs; simpl; [by rewrite append_nil_r | done]. Qed.

Lemma join_empty_app xs ys :
  join EmptyString (xs ++ ys) = join EmptyString xs +:+ join EmptyString ys.
Proof.
  induction xs as [| x xs IH]; [done |].
  rewrite <- app_comm_cons, !join_empty_cons, IH. by rewrite append_assoc.
Qed.

Lemma join_snoc sep xs y :
  xs <> [] -> join sep (xs ++ [y]) = join sep xs +:+ sep +:+ y.
Proof.
  induction xs as [| x xs IH]; [done |]. intros _.
  destruct xs as [| x' xs]; [done |].
  rewrite <- !app_comm_cons in *. rewrite join_cons, IH by done.
  rewrite join_cons. by rewrite !append_assoc.
Qed.

Lemma join_app sep xs ys :
  xs <> [] -> ys <> [] ->
  join sep (xs ++ ys) = join sep xs +:+ sep +:+ join sep ys.
Proof.
  intros Hxs. revert xs Hxs. induction ys as [| y ys IH]; intros xs Hxs Hys; [done |].
  destruct ys as [| y' ys].
  - by apply join_snoc.
  - rewrite (cons_middle y xs), app_assoc, IH by (done || by destruct xs).
    rewrite join_snoc by done. rewrite join_cons. by rewrite !append_assoc.
Qed.

(** ** [str] and the depth of the stack *)

Lemma omap_mono {A B} (f g : A -> outcome B) xs ys :
  (forall x y, In x xs -> f x = Ret y -> g x = Ret y) ->
  omap f xs = Ret ys -> omap g xs = Ret ys.
Proof.
  revert ys. induction xs as [| x xs IH]; intros ys Hfg H; simpl in *; [done |].
  destruct (f x) as [y | |] eqn:E; simpl in H; try discriminate.
  destruct (omap f xs) as [ys' | |] eqn:E'; simpl in H; try discriminate.
  rewrite (Hfg x y (or_introl eq_refl) E). simpl.
  rewrite (IH ys'); [done | | done]. intros; apply Hfg; [by right | done].
Qed.

Lemma openTagGuts_loop_mono (f g : value -> outcome string) items temp r :
  (forall x y, f x = Ret y -> g x = Ret y) ->
  Tag._openTagGuts_loop f items temp = Ret r ->
  Tag._openTagGuts_loop g items temp = Ret r.
Proof.
  intros Hfg. revert temp.
  induction items as [| [k v] items IH]; intros temp H; simpl in *; [done |].
  destruct v as [| | [] | | | |]; try (by apply IH);
    (match type of H with context [f ?v] =>
       destruct (f v) as [sv | |] eqn:E; simpl in H; try discriminate;
       rewrite (Hfg _ _ E); simpl; by apply IH end).
Qed.

Lemma openTagGuts_mono (f g : value -> outcome string) name items r :
  (forall x y, f x = Ret y -> g x = Ret y) ->
  Tag._openTagGuts f name items = Ret r ->
  Tag._openTagGuts g name items = Ret r.
Proof.
  intros Hfg. unfold Tag._openTagGuts.
  destruct name;
    (match goal with |- context [Tag._openTagGuts_loop f ?i ?t] =>
       destruct (Tag._openTagGuts_loop f i t) as [t' | |] eqn:El;
       [| done | done];
       rewrite (openTagGuts_loop_mono _ _ _ _ _ Hfg El) end); done.
Qed.

Lemma wrap_mono guts guts' name name' ty cs s r :
  (forall g, guts = Ret g -> guts' = Ret g) ->
  (forall t, name = Ret t -> name' = Ret t) ->
  Tag.wrap guts name ty cs s = Ret r -> Tag.wrap guts' name' ty cs s = Ret r.
Proof.
  intros Hg Hn. unfold Tag.wrap.
  destruct guts as [g | |]; [| by repeat case_match | by repeat case_match].
  rewrite (Hg g eq_refl).
  destruct name as [t | |]; [| by repeat case_match | by repeat case_match].
  by rewrite (Hn t eq_refl).
Qed.

(** [str] of a [Tag], whatever its name and its type are. *)
Lemma str_VTag_any n st name ty ea c a :
  str (S n) st (VTag name ty ea c a)
  = (try parts <- omap (str n st) (read_list st c) ;;
     Tag.wrap (Tag._openTagGuts (str n st) name (read_dict st a))
              (str n st name) ty (read_list st c)
              (join HTMLContainer.spacer parts)).
Proof. reflexivity. Qed.

Lemma str_mono n m st x s : n <= m -> str n st x = Ret s -> str m st x = Ret s.
Proof.
  revert m x s. induction n as [| n IH]; intros m x s Hnm H.
  - destruct x; simpl in H; try discriminate; by destruct m.
  - destruct m as [| m]; [lia |].
    assert (IH' : forall y t, str n st y = Ret t -> str m st y = Ret t).
    { intros y t. apply IH. lia. }
    destruct x as [| | | | ea c a | name ty ea c a | k inn out ea c a]; try done.
    + rewrite str_VTagList in *.
      destruct (omap (str n st) _) as [ps | |] eqn:E; simpl in H; try discriminate.
      by rewrite (omap_mono _ _ _ _ (fun y t _ => IH' y t) E).
    + rewrite str_VTag_any in *.
      destruct (omap (str n st) _) as [ps | |] eqn:E; simpl in H; try discriminate.
      rewrite (omap_mono _ _ _ _ (fun y t _ => IH' y t) E). simpl.
      revert H. apply wrap_mono; [| apply IH'].
      intros g. by apply openTagGuts_mono.
    + simpl in *. by apply IH'.
Qed.

Lemma renders_functional st x s1 s2 :
  renders st x s1 -> renders st x s2 -> s1 = s2.
Proof.
  intros [n1 H1] [n2 H2].
  apply (str_mono _ (n1 `max` n2)) in H1; [| lia].
  apply (str_mono _ (n1 `max` n2)) in H2; [| lia]. congruence.
Qed.


(** ** Extension and rendering *)

Section rerender.
Import HTMLContainer.

Lemma str_VTag_ret n st name ty ea c a s :
  str (S n) st (VTag (VStr name) (VInt ty) ea c a) = Ret s ->
  exists ps g,
    omap (str n st) (read_list st c) = Ret ps
    /\ Tag._openTagGuts (str n st) (VStr name) (read_dict st a) = Ret g
    /\ s = tag_text (negb (bool_decide (read_list st c = []))) ty g
                    (join EmptyString ps) name.
Proof.
  rewrite str_VTag.
  destruct (omap _ _) as [ps | |]; cbn [obind]; try discriminate.
  unfold Tag.wrap, tag_text, spacer. cbn [Tag.eq_int].
  destruct (Tag._openTagGuts _ _ _) as [g | |];
    [| by repeat case_match | by repeat case_match].
  intros H. exists ps, g. split; [done |]. split; [done |].
  repeat case_match; simpl in H; by injection H as <-.
Qed.

Lemma eq_int_code ty k : (0 <= k)%Z -> Tag.eq_int ty k = (type_code ty =? k)%Z.
Proof.
  intros Hk. destruct ty; cbn [Tag.eq_int type_code]; try done;
    symmetry; apply Z.eqb_neq; lia.
Qed.

(** A [Tag] that renders has a string for a name. *)
Lemma str_VTag_ret_any n st name ty ea c a s :
  str (S n) st (VTag name ty ea c a) = Ret s ->
  exists nm ps g,
    name = VStr nm
    /\ omap (str n st) (read_list st c) = Ret ps
    /\ Tag._openTagGuts (str n st) (VStr nm) (read_dict st a) = Ret g
    /\ s = tag_text (negb (bool_decide (read_list st c = []))) (type_code ty) g
                    (join EmptyString ps) nm.
Proof.
  rewrite str_VTag_any.
  destruct (omap _ _) as [ps | |]; cbn [obind]; try discriminate.
  unfold Tag.wrap, tag_text, spacer.
  rewrite !eq_int_code by (unfold Tag.FORCED_PAIR, Tag.LONE; lia).
  destruct name as [nm | | | | | |];
    try (unfold Tag._openTagGuts;
         destruct (Tag._openTagGuts_loop _ _ _); by repeat case_match).
  rewrite str_VStr.
  destruct (Tag._openTagGuts _ _ _) as [g | |] eqn:Eg;
    [| by repeat case_match | by repeat case_match].
  intros H. exists nm, ps, g. split; [done |]. split; [done |]. split; [done |].
  repeat case_match; simpl in H; by injection H as <-.
Qed.




Lemma length_join_elem (qs : list string) q :
  q ∈ qs -> String.length q <= String.length (join EmptyString qs).
Proof.
  induction qs as [| q' qs IH]; [by intros ?%elem_of_nil |].
  rewrite join_empty_cons, length_append.
  intros [-> | H]%elem_of_cons; [lia |]. specialize (IH H). lia.
Qed.

Lemma omap_elem {A B} (f : A -> outcome B) xs ys x y :
  omap f xs = Ret ys -> x ∈ xs -> f x = Ret y -> y ∈ ys.
Proof.
  revert ys. induction xs as [| x' xs IH]; intros ys H Hx Hy;
    [by apply elem_of_nil in Hx |].
  simpl in H. destruct (f x') as [y' | |] eqn:E; simpl in H; try discriminate.
  destruct (omap f xs) as [ys' | |]; simpl in H; try discriminate.
  injection H as <-. apply elem_of_cons in Hx as [-> | Hx].
  - rewrite Hy in E. injection E as ->. by left.
  - right. by eapply IH.
Qed.

(** *** The open tag, read back *)

Lemma openTagGuts_loop_inv str_ items temp r :
  Tag._openTagGuts_loop str_ items temp = Ret r ->
  exists toks, Forall2 (attr_token str_) items toks /\ r = temp ++ concat toks.
Proof.
  revert temp. induction items as [| [k v] items IH]; intros temp H; simpl in H.
  - injection H as <-. exists []. split; [constructor | by rewrite app_nil_r].
  - assert (Hother : forall sv,
              (forall b, v <> VBool b) -> str_ v = Ret sv ->
              Tag._openTagGuts_loop str_ items
                (temp ++ [k +:+ "=" +:+ dquote +:+ sv +:+ dquote]) = Ret r ->
              exists toks,
                Forall2 (attr_token str_) ((k, v) :: items) toks
                /\ r = temp ++ concat toks).
    { intros sv Hv Hs H'. apply IH in H' as (toks & Hf & ->).
      exists ([k +:+ "=" +:+ dquote +:+ sv +:+ dquote] :: toks).
      split; [| cbn [concat]; by rewrite <- app_assoc].
      constructor; [by apply attr_token_other | exact Hf]. }
    destruct v as [s0 | z | [] | s0 mk it | ea c a | nm ty ea c a | pk I O ea c a].
    + destruct (str_ _) as [sv | |] eqn:E; [| done | done].
      by apply (Hother sv).
    + destruct (str_ _) as [sv | |] eqn:E; [| done | done].
      by apply (Hother sv).
    + apply IH in H as (toks & Hf & ->). exists ([k] :: toks).
      split; [| cbn [concat]; by rewrite <- app_assoc].
      constructor; [apply attr_token_True | exact Hf].
    + apply IH in H as (toks & Hf & ->). exists ([] :: toks).
      split; [| done]. constructor; [apply attr_token_False | exact Hf].
    + destruct (str_ _) as [sv | |] eqn:E; [| done | done].
      by apply (Hother sv).
    + destruct (str_ _) as [sv | |] eqn:E; [| done | done].
      by apply (Hother sv).
    + destruct (str_ _) as [sv | |] eqn:E; [| done | done].
      by apply (Hother sv).
    + destruct (str_ _) as [sv | |] eqn:E; [| done | done].
      by apply (Hother sv).
Qed.

Lemma attr_token_functional str_ kv t1 t2 :
  attr_token str_ kv t1 -> attr_token str_ kv t2 -> t1 = t2.
Proof.
  intros H1 H2.
  inversion H1 as [k | k | k v s Hv Hs]; subst;
    inversion H2 as [k' | k' | k' v' s' Hv' Hs']; subst; try done;
    try (by destruct (Hv true)); try (by destruct (Hv false));
    try (by destruct (Hv' true)); try (by destruct (Hv' false)).
  congruence.
Qed.

Lemma attr_tokens_functional str_ items toks1 toks2 :
  Forall2 (attr_token str_) items toks1 ->
  Forall2 (attr_token str_) items toks2 -> toks1 = toks2.
Proof.
  intros H. revert toks2. induction H as [| kv t items toks Ht _ IH];
    intros toks2 H2; inversion H2; subst; [done |].
  f_equal; [by eapply attr_token_functional | by apply IH].
Qed.

Lemma attr_tokens_nonempty str_ items toks k v :
  Forall2 (attr_token str_) items toks ->
  (k, v) ∈ items -> v <> VBool false -> concat toks <> [].
Proof.
  induction 1 as [| kv t items toks Ht _ IH]; [by intros ?%elem_of_nil |].
  intros [<- | Hin]%elem_of_cons Hv.
  - inversion Ht; subst; done.
  - specialize (IH Hin Hv). simpl. intros [_ ?]%app_eq_nil. done.
Qed.

End rerender.

(** ** New attributes *)

Section new_attributes.
Import HTMLContainer.

Lemma fold_remap_fresh (items acc : list (string * value)) :
  NoDup (acc.*1 ++ (_specialAttrs_get <$> items.*1)) ->
  fold_left (fun acc kv => dict_set (_specialAttrs_get kv.1) kv.2 acc) items acc
  = acc ++ ((fun kv => (_specialAttrs_get kv.1, kv.2)) <$> items).
Proof.
  revert acc. induction items as [| [k v] items IH]; intros acc Hnd.
  - simpl. by rewrite app_nil_r.
  - rewrite !fmap_cons in *. cbn [fst snd fold_left] in *.
    apply NoDup_app in Hnd as (Hacc & Hdisj & Hd).
    apply NoDup_cons in Hd as [Hkd Hd].
    assert (Hka : _specialAttrs_get k ∉ acc.*1).
    { intros Hin. apply (Hdisj _ Hin). by left. }
    rewrite dict_set_fresh by done. rewrite IH.
    + by rewrite <- app_assoc.
    + rewrite fmap_app, fmap_cons. cbn [fst fmap list_fmap].
      rewrite <- app_assoc. simpl.
      apply NoDup_app. split; [done |]. split.
      * intros k' Hk' [-> | Hin]%elem_of_cons; [done |].
        apply (Hdisj k' Hk'). by right.
      * by apply NoDup_cons.
Qed.

Lemma dict_update_fresh (d new : list (string * value)) :
  NoDup (d.*1 ++ new.*1) -> dict_update d new = d ++ new.
Proof.
  unfold dict_update. revert d.
  induction new as [| [k v] new IH]; intros d Hnd.
  - simpl. by rewrite app_nil_r.
  - rewrite fmap_cons in Hnd. cbn [fst snd fold_left] in *.
    apply NoDup_app in Hnd as (Hd & Hdisj & Hn).
    apply NoDup_cons in Hn as [Hkn Hn].
    assert (Hkd : k ∉ d.*1).
    { intros Hin. apply (Hdisj _ Hin). by left. }
    rewrite dict_set_fresh by done. rewrite IH.
    + by rewrite <- app_assoc.
    + rewrite fmap_app, fmap_cons. cbn [fst]. rewrite <- app_assoc. simpl.
      apply NoDup_app. split; [done |]. split.
      * intros k' Hk' [-> | Hin]%elem_of_cons; [done |].
        apply (Hdisj k' Hk'). by right.
      * by apply NoDup_cons.
Qed.

(** Keys that are new to a normal dictionary, also once remapped, are
    stored after its items. *)
Lemma remap_update_fresh (d new : list (string * value)) :
  normal d ->
  NoDup (d.*1 ++ (_specialAttrs_get <$> new.*1)) ->
  remap_attrs (dict_update d new)
  = d ++ ((fun kv => (_specialAttrs_get kv.1, kv.2)) <$> new).
Proof.
  intros [Hnd Hfix] Hfresh.
  assert (Hraw : NoDup (d.*1 ++ new.*1)).
  { apply NoDup_app in Hfresh as (_ & Hdisj & Hn).
    apply NoDup_app. split; [done |]. split.
    - intros k Hkd Hkn. apply (Hdisj k Hkd).
      rewrite Forall_forall in Hfix. rewrite <- (Hfix k Hkd).
      by apply list_elem_of_fmap_2.
    - by apply NoDup_fmap_1 in Hn. }
  rewrite dict_update_fresh by done.
  unfold remap_attrs. rewrite fold_left_app.
  fold (remap_attrs d). rewrite remap_attrs_normal by done.
  by apply fold_remap_fresh.
Qed.

End new_attributes.

Section extension_rendering.
Import HTMLContainer.

Lemma omap_elem_inv {A B} (f : A -> outcome B) xs ys x :
  omap f xs = Ret ys -> x ∈ xs -> exists y, f x = Ret y /\ y ∈ ys.
Proof.
  revert ys. induction xs as [| x' xs IH]; intros ys H Hx;
    [by apply elem_of_nil in Hx |].
  simpl in H. destruct (f x') as [y' | |] eqn:E; simpl in H; try discriminate.
  destruct (omap f xs) as [ys' | |]; simpl in H; try discriminate.
  injection H as <-. apply elem_of_cons in Hx as [-> | Hx].
  - exists y'. split; [done | by left].
  - destruct (IH ys' eq_refl Hx) as (y & Hy & Hin). exists y. split; [done | by right].
Qed.


End extension_rendering.


(** ** Deeper stacks *)

Section deeper.
Import HTMLContainer.

Lemma mono_const {A} (m : M A) : mono (fun _ => m).
Proof. by intros n m' st a st' _ H. Qed.

Lemma mono_bind {A B} (f : nat -> M A) (g : A -> nat -> M B) :
  mono f -> (forall a, mono (g a)) -> mono (fun n => bind (f n) (fun a => g a n)).
Proof.
  intros Hf Hg n m st b st' Hnm H.
  apply bind_inv_ret in H as (a & st1 & H1 & H2).
  erewrite bind_ret by (eapply Hf; [exact Hnm | exact H1]).
  eapply Hg; [exact Hnm | exact H2].
Qed.

Lemma mono_init digest args attrs : mono (fun n => __init__ digest n args attrs).
Proof.
  intros n m st v st' Hnm H. cbv beta in *.
  destruct (digest args) as [[[temp ea] self] | e |] eqn:Hd.
  - apply (init_ret _ _ _ _ _ _ _ _ _ _ Hd) in H.
    destruct H as (ys & Hf & Hv & Hst').
    apply (init_ret _ _ _ _ _ _ _ _ _ _ Hd). exists ys.
    split; [by eapply flattens_mono | done].
  - by rewrite (init_raise_digest _ _ _ _ _ _ Hd) in H.
  - unfold __init__, bind, lift in H. by rewrite Hd in H.
Qed.

Lemma mono_call type_self c x newAttrs :
  (forall args attrs, mono (fun n => type_self n args attrs)) ->
  mono (fun n => __call__ type_self n c x newAttrs).
Proof.
  intros Ht n m st v st' Hnm. unfold __call__, bind, getattr, ret, raise.
  destruct (attrs c); [| done]. destruct (extraArgs c); [| done].
  destruct (contents c); [| done]. by apply Ht.
Qed.

(** What [digest] returns does not depend on the [str] it is given. *)
Lemma Tag_digest_ret_any (f g : value -> outcome string) args r :
  Tag.digest f args = Ret r -> Tag.digest g args = Ret r.
Proof.
  unfold Tag.digest. destruct args as [| name [| ty contents]]; try done.
  destruct (negb _); [| done].
  destruct (Tag.format_d ty); [| done | done]. cbn [obind].
  by destruct (f name).
Qed.

Lemma mono_Tag_init args attrs : mono (fun n => Tag.__init__ n args attrs).
Proof.
  intros n m st v st' Hnm H. cbv beta in *. rewrite Tag_init_unfold in *.
  destruct (Tag.digest (str n st) args) as [[[temp ea] self] | e |] eqn:Hd.
  - pose proof (Tag_digest_ret_any _ (str m st) _ _ Hd) as Hd'.
    apply (init_ret _ _ _ _ _ _ _ _ _ _ Hd) in H.
    destruct H as (ys & Hf & Hv & Hst').
    apply (init_ret _ _ _ _ _ _ _ _ _ _ Hd'). exists ys.
    split; [by eapply flattens_mono | done].
  - by rewrite (init_raise_digest _ _ _ _ _ _ Hd) in H.
  - unfold __init__, bind, lift in H. by rewrite Hd in H.
Qed.

Lemma mono_Tag_call c x newAttrs : mono (fun n => Tag.__call__ n c x newAttrs).
Proof. apply mono_call. intros; apply mono_Tag_init. Qed.

Lemma mono_TagList_init args attrs : mono (fun n => TagList.__init__ n args attrs).
Proof. apply mono_init. Qed.

Ltac mono_step :=
  first
    [ apply mono_const | apply mono_Tag_call | apply mono_Tag_init
    | apply mono_TagList_init
    | apply mono_bind; [| intros ?] ].

Lemma mono_head_PAGE title css : mono (fun n => PAGE_.head n title css).
Proof. unfold PAGE_.head. repeat mono_step. Qed.

Lemma mono_head_JQPAGE title css : mono (fun n => JQPAGE_.head n title css).
Proof. unfold JQPAGE_.head. repeat mono_step. Qed.

Lemma mono_skeleton k I ea : mono (fun n => skeleton k n I ea).
Proof.
  destruct k; simpl; unfold SIMPLEPAGE_.skeleton, PageWrapper.skeleton, doctype;
    destruct ea as [| title [| css [| ? ?]]]; repeat mono_step;
    first [apply mono_head_PAGE | apply mono_head_JQPAGE].
Qed.

Lemma mono_heart k args attrs : mono (fun n => heart k n args attrs).
Proof.
  destruct k; simpl; unfold SIMPLEPAGE_.heart, PageWrapper.heart;
    try (destruct (PageWrapper.heart_parameters args attrs)
           as [[[[title css] args'] kwargs] |]);
    repeat mono_step.
Qed.

(** Two computations that return the same things, each on a deep enough
    stack, still do when followed by the same continuation. *)
Lemma bind_iff {A B} (f1 f2 : nat -> M A) (g : A -> nat -> M B) st b st' :
  mono f1 -> mono f2 -> (forall a, mono (g a)) ->
  (forall a st1, (exists n, f1 n st = (Ret a, st1))
                 <-> (exists n, f2 n st = (Ret a, st1))) ->
  (exists n, bind (f1 n) (fun a => g a n) st = (Ret b, st'))
  <-> (exists n, bind (f2 n) (fun a => g a n) st = (Ret b, st')).
Proof.
  intros H1 H2 Hg Hiff.
  assert (Himp : forall (h1 h2 : nat -> M A),
            mono h2 ->
            (forall a st1, (exists n, h1 n st = (Ret a, st1))
                           -> (exists n, h2 n st = (Ret a, st1))) ->
            (exists n, bind (h1 n) (fun a => g a n) st = (Ret b, st'))
            -> (exists n, bind (h2 n) (fun a => g a n) st = (Ret b, st'))).
  { intros h1 h2 Hm Himp [n H].
    apply bind_inv_ret in H as (a & st1 & Ha & Hb).
    destruct (Himp a st1 (ex_intro _ n Ha)) as [n2 Ha2].
    exists (n `max` n2).
    erewrite bind_ret by (eapply Hm; [| exact Ha2]; lia).
    eapply Hg; [| exact Hb]. lia. }
  split; apply Himp; try done; intros a st1; apply Hiff.
Qed.

Lemma flattens_pre_nests_iff st pre ts ys :
  (exists n, flattens n st (pre ++ map embed ts) ys)
  <-> (exists n, flattens n st (pre ++ concat (map leaves ts)) ys).
Proof.
  unfold flattens. split; intros [n H];
    apply for_each_app_inv in H as (st1 & H1 & H2).
  - exists (S n). eapply for_each_ret_app.
    + eapply for_each_r_flatten_mono; [| exact H1]. lia.
    + by apply for_each_leaves_of_nests.
  - exists (n + list_max (map nest_depth ts)). eapply for_each_ret_app.
    + eapply for_each_r_flatten_mono; [| exact H1]. lia.
    + by apply for_each_nests_of_leaves.
Qed.

(** Extending a [TagList] or a [Tag] by nested contents or by their
    leaves gives the same. *)
Lemma call_nests_iff c ts newAttrs st v st' :
  primitive c ->
  (exists n, call n c (map embed ts) newAttrs st = (Ret v, st'))
  <-> (exists n, call n c (concat (map leaves ts)) newAttrs st = (Ret v, st')).
Proof.
  intros Hp.
  assert (exists cl al, contents c = Some cl /\ attrs c = Some al)
    as (cl & al & Hc & Ha) by (destruct c; try done; by eexists _, _).
  split; intros [n H];
    apply (call_primitive_ret _ _ _ _ _ _ _ _ _ Hp Hc Ha) in H
      as (ys & Hf & -> & -> & Hr).
  - destruct (proj1 (flattens_pre_nests_iff st _ ts ys) (ex_intro _ n Hf))
      as [m Hm].
    exists m. apply (call_primitive_ret _ _ _ _ _ _ _ _ _ Hp Hc Ha).
    by exists ys.
  - destruct (proj2 (flattens_pre_nests_iff st _ ts ys) (ex_intro _ n Hf))
      as [m Hm].
    exists m. apply (call_primitive_ret _ _ _ _ _ _ _ _ _ Hp Hc Ha).
    by exists ys.
Qed.

Lemma Tag_call_is_call n c x newAttrs st :
  (exists name ty ea cl al, c = VTag name ty ea cl al) ->
  Tag.__call__ n c x newAttrs st = call n c x newAttrs st.
Proof. by intros (name & ty & ea & cl & al & ->). Qed.

(** The heart of a page given nested contents or their leaves. *)
Lemma heart_nests_iff k pre ts attrs st r st1 :
  length pre = match k with SIMPLEPAGE => 0 | _ => 2 end ->
  (exists n, heart k n (pre ++ map embed ts) attrs st = (Ret r, st1))
  <-> (exists n, heart k n (pre ++ concat (map leaves ts)) attrs st
                 = (Ret r, st1)).
Proof.
  intros Hlen.
  assert (Hcall : forall (g : value -> nat -> M (value * list value)) G,
            (forall a, mono (g a)) ->
            (exists name ty cl al,
               G = VTag (VStr name) (VInt ty) [VStr name; VInt ty] cl al) ->
            (exists n, bind (Tag.__call__ n G (map embed ts) attrs)
                            (fun a => g a n) st = (Ret r, st1))
            <-> (exists n, bind (Tag.__call__ n G (concat (map leaves ts)) attrs)
                                (fun a => g a n) st = (Ret r, st1))).
  { intros g G Hg (name & ty & cl & al & ->).
    apply (bind_iff (fun n => Tag.__call__ n _ _ _)
                    (fun n => Tag.__call__ n _ _ _) g);
      [apply mono_Tag_call | apply mono_Tag_call | exact Hg |].
    intros a st2. apply (call_nests_iff (VTag (VStr name) (VInt ty) _ cl al)). done. }
  destruct k; simpl in Hlen.
  - destruct pre; [| done]. simpl. unfold SIMPLEPAGE_.heart.
    apply (Hcall (fun a _ => unpack_first a)); [intros; apply mono_const |].
    by eexists _, _, _, _.
  - destruct pre as [| title [| css [| ? ?]]]; try done. simpl.
    unfold PageWrapper.heart, PageWrapper.heart_parameters.
    destruct (dict_get "title" attrs), (dict_get "css" attrs);
      try (split; intros [n H]; discriminate).
    apply (Hcall (fun a _ => ret (a, [title; css])));
      [intros; apply mono_const |].
    by eexists _, _, _, _.
  - destruct pre as [| title [| css [| ? ?]]]; try done. simpl.
    unfold PageWrapper.heart, PageWrapper.heart_parameters.
    destruct (dict_get "title" attrs), (dict_get "css" attrs);
      try (split; intros [n H]; discriminate).
    apply (Hcall (fun a _ => ret (a, [title; css])));
      [intros; apply mono_const |].
    by eexists _, _, _, _.
Qed.

Lemma new_pseudotag_nests_iff k pre ts attrs st v st' :
  length pre = match k with SIMPLEPAGE => 0 | _ => 2 end ->
  builds (new_pseudotag k) (pre ++ map embed ts) attrs st v st'
  <-> builds (new_pseudotag k) (pre ++ concat (map leaves ts)) attrs st v st'.
Proof.
  intros Hlen. unfold builds, new_pseudotag, Pseudotag.__init__.
  apply (bind_iff (fun n => heart k n _ attrs) (fun n => heart k n _ attrs)
           (fun r n =>
              let '(inner, extraArgs) := r in
              do outer <- skeleton k n inner extraArgs ;;
              do contents <- getattr contents inner ;;
              do attrs' <- new_dict (remap_attrs attrs) ;;
              ret (VPseudotag k inner outer extraArgs contents attrs'))).
  - apply mono_heart.
  - apply mono_heart.
  - intros [I ea].
    apply (mono_bind (fun n => skeleton k n I ea)
             (fun outer _ =>
                do contents <- getattr contents I ;;
                do attrs' <- new_dict (remap_attrs attrs) ;;
                ret (VPseudotag k I outer ea contents attrs')));
      [apply mono_skeleton | intros; apply mono_const].
  - intros r st1. by apply heart_nests_iff.
Qed.

End deeper.

(** ** Operations only allocate *)

Section growth.
Import HTMLContainer.

Lemma grows_ret {A} (a : A) : grows (ret a).
Proof. intros st o st' [= <- <-]. apply extends_refl. Qed.

Lemma grows_raise {A} e : grows (@raise A e).
Proof. intros st o st' [= <- <-]. apply extends_refl. Qed.

Lemma grows_bind {A B} (m : M A) (k : A -> M B) :
  grows m -> (forall a, grows (k a)) -> grows (bind m k).
Proof.
  intros Hm Hk st o st'. unfold bind.
  destruct (m st) as [[a | e |] st1] eqn:E; intros H.
  - eapply extends_trans; [by eapply Hm | by eapply Hk].
  - inversion H; subst. by eapply Hm.
  - inversion H; subst. by eapply Hm.
Qed.

Lemma grows_getattr {A} (field : value -> option A) x : grows (getattr field x).
Proof.
  unfold getattr. destruct (field x); [apply grows_ret | apply grows_raise].
Qed.

Lemma grows_global name : grows (global name).
Proof.
  unfold global, lookup_global.
  destruct (dict_get name module_globals); [apply grows_ret | apply grows_raise].
Qed.

Lemma grows_new_dict d : grows (new_dict d).
Proof.
  intros st o st' [= <- <-]. split; cbn [lists dicts]; [done |].
  by apply prefix_app_r.
Qed.

Lemma grows_unpack_first x : grows (unpack_first x).
Proof.
  intros st o st'. unfold unpack_first.
  destruct (py_iter st x) as [[| y ys] |]; intros [= <- <-]; apply extends_refl.
Qed.

Lemma grows_init digest n args attrs : grows (__init__ digest n args attrs).
Proof. intros st o st'. apply init_extends. Qed.

Lemma grows_call type_self n c x newAttrs :
  (forall args attrs, grows (type_self n args attrs)) ->
  grows (__call__ type_self n c x newAttrs).
Proof.
  intros Ht. unfold __call__.
  repeat (apply grows_bind; [apply grows_getattr | intros ?]).
  intros st o st'. apply Ht.
Qed.

Lemma grows_Tag_init n args attrs : grows (Tag.__init__ n args attrs).
Proof. intros st o st' H. by apply (init_extends _ _ _ _ _ _ _ H). Qed.

Lemma grows_Tag_call n c x newAttrs : grows (Tag.__call__ n c x newAttrs).
Proof. apply grows_call. intros; apply grows_Tag_init. Qed.

Lemma grows_TagList_call n c x newAttrs : grows (TagList.__call__ n c x newAttrs).
Proof. apply grows_call. intros; apply grows_init. Qed.

Ltac grows_step :=
  first
    [ apply grows_ret | apply grows_raise | apply grows_global
    | apply grows_unpack_first | apply grows_new_dict
    | apply grows_getattr | apply grows_Tag_call
    | apply grows_TagList_call | apply grows_Tag_init | apply grows_init
    | apply grows_bind; [| intros ?] ].

Lemma grows_head_PAGE n title css : grows (PAGE_.head n title css).
Proof. unfold PAGE_.head. repeat grows_step. Qed.

Lemma grows_head_JQPAGE n title css : grows (JQPAGE_.head n title css).
Proof. unfold JQPAGE_.head. repeat grows_step. Qed.

Lemma grows_heart k n args attrs : grows (heart k n args attrs).
Proof.
  destruct k; simpl; unfold SIMPLEPAGE_.heart, PageWrapper.heart;
    try (destruct (PageWrapper.heart_parameters args attrs)
           as [[[[title css] args'] kwargs] |]);
    repeat grows_step.
Qed.

Lemma grows_skeleton k n I ea : grows (skeleton k n I ea).
Proof.
  destruct k; simpl; unfold SIMPLEPAGE_.skeleton, PageWrapper.skeleton, doctype;
    destruct ea as [| title [| css [| ? ?]]]; repeat grows_step;
    first [apply grows_head_PAGE | apply grows_head_JQPAGE].
Qed.

Lemma grows_new_pseudotag k n args attrs : grows (new_pseudotag k n args attrs).
Proof.
  unfold new_pseudotag, Pseudotag.__init__.
  apply grows_bind; [apply grows_heart | intros [I ea]].
  apply grows_bind; [apply grows_skeleton | intros O].
  repeat grows_step.
Qed.

Lemma grows_any_call n c x newAttrs : grows (call n c x newAttrs).
Proof.
  destruct c; simpl; try apply grows_raise.
  - apply grows_TagList_call.
  - apply grows_Tag_call.
  - apply grows_call. intros; apply grows_new_pseudotag.
Qed.

Lemma grows_join n self x : grows (HTMLContainer'.join n self x).
Proof.
  unfold HTMLContainer'.join.
  destruct (_atomicOverride x); [apply grows_init |].
  intros st o st'. destruct (py_iter st x) as [[| y ys] |].
  - apply grows_init.
  - apply grows_init.
  - intros [= <- <-]. apply extends_refl.
Qed.

Lemma built_extends_module st : built st -> extends module_store st.
Proof.
  induction 1 as [| n args attrs st o st' _ IH H | n args attrs st o st' _ IH H
                  | k n args attrs st o st' _ IH H | n c x na st o st' _ IH H].
  - apply extends_refl.
  - eapply extends_trans; [exact IH | by eapply grows_init].
  - eapply extends_trans; [exact IH | by eapply grows_Tag_init].
  - eapply extends_trans; [exact IH | by eapply grows_new_pseudotag].
  - eapply extends_trans; [exact IH | by eapply grows_any_call].
Qed.

End growth.

(** ** The names of the module *)

(** A tag without contents or attributes. *)
Lemma str_empty_tag n st name ty ea c a :
  read_list st c = [] -> read_dict st a = [] ->
  str (S n) st (VTag (VStr name) (VInt ty) ea c a)
  = Ret (tag_text false ty name EmptyString name).
Proof.
  intros Hc Ha. rewrite str_VTag, Hc, Ha. cbn [omap obind].
  unfold Tag.wrap, tag_text. rewrite bool_decide_eq_true_2 by done.
  cbn [negb orb Tag.eq_int].
  destruct (ty =? Tag.FORCED_PAIR)%Z; [reflexivity |].
  destruct (ty =? Tag.LONE)%Z; reflexivity.
Qed.

Lemma module_tables_bound :
  Forall (fun e : list (string * string) * Z =>
            Forall (fun kv : string * string =>
                      exists c a,
                        dict_get kv.1 module_globals
                        = Some (VTag (VStr kv.2) (VInt e.2) [VStr kv.2; VInt e.2] c a)
                        /\ c < length (lists module_store)
                        /\ a < length (dicts module_store)
                        /\ read_list module_store c = []
                        /\ read_dict module_store a = []) e.1)
         tag_tables.
Proof.
  unfold tag_tables.
  repeat (constructor;
          [repeat (constructor;
                   [do 2 eexists;
                    split; [vm_compute; reflexivity |];
                    split; [vm_compute; lia |];
                    split; [vm_compute; lia |];
                    split; vm_compute; reflexivity |]);
           constructor |]).
  constructor.
Qed.

(** ** Plain arguments *)

Section plain_arguments.
Import HTMLContainer.

Lemma append_to_last ls ds ys zs :
  append_to (length ls) zs (Store (ls ++ [ys]) ds) = Store (ls ++ [ys ++ zs]) ds.
Proof.
  unfold append_to; cbn [lists dicts]. f_equal.
  apply list_eq; intros i. rewrite list_lookup_alter.
  case_decide as E; [subst i |].
  - by rewrite !lookup_app_r, !Nat.sub_diag by lia.
  - destruct (decide (i < length ls)).
    + by rewrite !lookup_app_l by lia.
    + rewrite !lookup_app_r by lia.
      destruct (i - length ls) as [| j] eqn:Ej; [lia | done].
Qed.

Lemma read_list_grown st ys c :
  c < length (lists st) ->
  read_list (Store (lists st ++ [ys]) (dicts st)) c = read_list st c.
Proof. intros Hc. unfold read_list; cbn [lists]. by rewrite lookup_app_l. Qed.

Lemma read_list_allocate_new xs d st :
  read_list (allocate xs d st) (length (lists st)) = xs.
Proof.
  unfold read_list, allocate; cbn [lists].
  by rewrite lookup_app_r, Nat.sub_diag by lia.
Qed.

Lemma read_dict_allocate_new xs d st :
  read_dict (allocate xs d st) (length (dicts st)) = d.
Proof.
  unfold read_dict, allocate; cbn [dicts].
  by rewrite lookup_app_r, Nat.sub_diag by lia.
Qed.

Lemma read_list_allocate_old xs d st c :
  c < length (lists st) -> read_list (allocate xs d st) c = read_list st c.
Proof. intros Hc. apply extends_read_list; [apply extends_allocate | done]. Qed.

Lemma read_dict_allocate_old xs d st a :
  a < length (dicts st) -> read_dict (allocate xs d st) a = read_dict st a.
Proof. intros Ha. apply extends_read_dict; [apply extends_allocate | done]. Qed.

Lemma splice_flat_item st x : flat_item x = true -> splice st x = [x].
Proof. by destruct x. Qed.


Lemma r_flatten_plain n st x ys :
  flat_store st -> plain st x ->
  _r_flatten (S (S n)) (length (lists st)) x (Store (lists st ++ [ys]) (dicts st))
  = (Ret tt, Store (lists st ++ [ys ++ splice st x]) (dicts st)).
Proof.
  intros Hst [Hx | (ea & c & a & -> & Hc)].
  - rewrite r_flatten_flat_item by done.
    rewrite splice_flat_item by done. by rewrite append_to_last.
  - change (_r_flatten (S (S n)) (length (lists st)) (VTagList ea c a)
              (Store (lists st ++ [ys]) (dicts st)))
      with (for_each (_r_flatten (S n) (length (lists st)))
              (read_list (Store (lists st ++ [ys]) (dicts st)) c)
              (Store (lists st ++ [ys]) (dicts st))).
    cbn [splice]. rewrite read_list_grown by done.
    rewrite for_each_flat_items by (by apply flat_store_read_list).
    by rewrite append_to_last.
Qed.

Lemma for_each_plain n st xs : forall ys,
  flat_store st -> Forall (plain st) xs ->
  for_each (_r_flatten (S (S n)) (length (lists st))) xs
           (Store (lists st ++ [ys]) (dicts st))
  = (Ret tt, Store (lists st ++ [ys ++ concat (map (splice st) xs)]) (dicts st)).
Proof.
  induction xs as [| x xs IH]; intros ys Hst Hxs.
  - simpl. by rewrite app_nil_r.
  - apply Forall_cons in Hxs as [Hx Hxs].
    cbn [for_each map concat]. unfold bind at 1.
    rewrite r_flatten_plain by done. rewrite IH by done.
    by rewrite app_assoc.
Qed.

Lemma flattens_plain n st xs :
  flat_store st -> Forall (plain st) xs ->
  flattens (S (S n)) st xs (concat (map (splice st) xs)).
Proof. intros Hst Hxs. unfold flattens. by rewrite for_each_plain. Qed.

Lemma init_plain digest n args attrs st temp ea self :
  flat_store st -> digest args = Ret (temp, ea, self) ->
  Forall (plain st) temp ->
  __init__ digest (S (S n)) args attrs st
  = (Ret (self ea (length (lists st)) (length (dicts st))),
     allocate (concat (map (splice st) temp)) (remap_attrs attrs) st).
Proof.
  intros Hst Hd Ht. apply (init_ret _ _ _ _ _ _ _ _ _ _ Hd).
  exists (concat (map (splice st) temp)). split; [| done].
  by apply flattens_plain.
Qed.

Lemma TagList_init_plain n args attrs st :
  flat_store st -> Forall (plain st) args ->
  TagList.__init__ (S (S n)) args attrs st
  = (Ret (VTagList [] (length (lists st)) (length (dicts st))),
     allocate (concat (map (splice st) args)) (remap_attrs attrs) st).
Proof. intros Hst Ha. by apply (init_plain TagList.digest). Qed.

(** *** Rendering what was spliced *)

Lemma renders_all st xs ps :
  Forall2 (renders st) xs ps -> exists m, omap (str m st) xs = Ret ps.
Proof.
  induction 1 as [| x p xs ps [m1 Hx] _ [m2 IH]].
  - by exists 0.
  - exists (m1 `max` m2). cbn [omap].
    rewrite (str_mono m1 (m1 `max` m2) _ _ _ ltac:(lia) Hx). cbn [obind].
    rewrite (omap_mono (str m2 st) (str (m1 `max` m2) st) xs ps); [done | | done].
    intros y q _. apply str_mono. lia.
Qed.

Lemma all_renders m st xs ps :
  omap (str m st) xs = Ret ps -> Forall2 (renders st) xs ps.
Proof.
  revert ps. induction xs as [| x xs IH]; intros ps H; simpl in H.
  - injection H as <-. constructor.
  - destruct (str m st x) as [p | |] eqn:E; simpl in H; try discriminate.
    destruct (omap (str m st) xs) as [qs | |]; simpl in H; try discriminate.
    injection H as <-. constructor; [by exists m | by apply IH].
Qed.

Lemma str_splice m st st' x p :
  extends st st' -> plain st x -> str m st' x = Ret p ->
  exists qs, omap (str m st') (splice st x) = Ret qs
             /\ join EmptyString qs = p.
Proof.
  intros He [Hx | (ea & c & a & -> & Hc)] Hp.
  - rewrite splice_flat_item by done. exists [p]. cbn [omap].
    rewrite Hp. done.
  - destruct m as [| m]; [discriminate |]. rewrite str_VTagList in Hp.
    rewrite (extends_read_list _ _ _ He Hc) in Hp.
    destruct (omap (str m st') (read_list st c)) as [qs | |] eqn:E;
      simpl in Hp; try discriminate.
    injection Hp as <-. exists qs. split; [| done].
    cbn [splice]. eapply omap_mono; [| exact E].
    intros y q _. apply str_mono. lia.
Qed.

Lemma omap_splices m st st' xs ps :
  extends st st' -> Forall (plain st) xs -> omap (str m st') xs = Ret ps ->
  exists qs, omap (str m st') (concat (map (splice st) xs)) = Ret qs
             /\ join EmptyString qs = join EmptyString ps.
Proof.
  intros He. revert ps. induction xs as [| x xs IH]; intros ps Hxs H.
  - simpl in H. injection H as <-. by exists [].
  - apply Forall_cons in Hxs as [Hx Hxs]. simpl in H.
    destruct (str m st' x) as [p | |] eqn:E; simpl in H; try discriminate.
    destruct (omap (str m st') xs) as [ps' | |] eqn:E'; simpl in H;
      try discriminate.
    injection H as <-.
    destruct (str_splice _ _ _ _ _ He Hx E) as (qs1 & H1 & J1).
    destruct (IH ps' Hxs eq_refl) as (qs2 & H2 & J2).
    exists (qs1 ++ qs2). cbn [map concat]. split.
    + by apply omap_app.
    + by rewrite join_empty_app, join_empty_cons, J1, J2.
Qed.

(** A [TagList] built from plain arguments renders to the strings of the
    arguments, one after the other. *)
Lemma TagList_plain_renders st args d ps :
  flat_store st -> Forall (plain st) args ->
  Forall2 (renders (allocate (concat (map (splice st) args)) d st)) args ps ->
  renders (allocate (concat (map (splice st) args)) d st)
          (VTagList [] (length (lists st)) (length (dicts st)))
          (join EmptyString ps).
Proof.
  intros Hst Ha Hps. apply renders_all in Hps as [m Hps].
  destruct (omap_splices _ _ _ _ _ (extends_allocate _ d st) Ha Hps)
    as (qs & Hqs & J).
  exists (S m). rewrite str_VTagList, read_list_allocate_new, Hqs.
  cbn [obind]. unfold spacer. by rewrite J.
Qed.




(** *** [join] *)

Lemma join_temp_renders st self s rest ps :
  renders st self s -> Forall2 (renders st) rest ps ->
  Forall2 (renders st) (HTMLContainer'.join_temp self rest) (join_strings s ps).
Proof.
  intros Hs. induction 1 as [| y p rest ps Hy _ IH]; simpl.
  - constructor.
  - apply Forall2_cons. split; [done |]. apply Forall2_cons. by split.
Qed.

Lemma join_join_strings s p ps :
  join EmptyString (p :: join_strings s ps) = String.concat s (p :: ps).
Proof.
  revert p. induction ps as [| q ps IH]; intros p.
  - simpl. unfold join. simpl. reflexivity.
  - cbn [join_strings].
    rewrite join_empty_cons, join_empty_cons, IH.
    change (String.concat s (p :: q :: ps)) with (join s (p :: q :: ps)).
    by rewrite join_cons.
Qed.

Lemma join_temp_plain st self rest :
  plain st self -> Forall (plain st) rest ->
  Forall (plain st) (HTMLContainer'.join_temp self rest).
Proof.
  intros Hs. induction 1 as [| y rest Hy _ IH]; simpl.
  - constructor.
  - apply Forall_cons. split; [done |]. apply Forall_cons. by split.
Qed.

End plain_arguments.

(** ** Constructing from flat items, and [join] *)

Section joining.
Import HTMLContainer.

Lemma init_flat digest n args attrs st temp ea self :
  digest args = Ret (temp, ea, self) ->
  Forall (fun x => flat_item x = true) temp ->
  __init__ digest (S n) args attrs st
  = (Ret (self ea (length (lists st)) (length (dicts st))),
     allocate temp (remap_attrs attrs) st).
Proof.
  intros Hd Ht. apply (init_ret _ _ _ _ _ _ _ _ _ _ Hd).
  exists temp. split; [by apply flattens_flat_items | done].
Qed.

Lemma TagList_init_flat n args attrs st :
  Forall (fun x => flat_item x = true) args ->
  TagList.__init__ (S n) args attrs st
  = (Ret (VTagList [] (length (lists st)) (length (dicts st))),
     allocate args (remap_attrs attrs) st).
Proof. intros Ha. by apply (init_flat TagList.digest). Qed.


Lemma join_unfold n self x st items :
  _atomicOverride x = false -> py_iter st x = Some items ->
  HTMLContainer'.join n self x st
  = TagList.__init__ n
      (match items with
       | [] => []
       | first :: rest => first :: HTMLContainer'.join_temp self rest
       end) [] st.
Proof.
  intros Ha Hi. unfold HTMLContainer'.join. rewrite Ha, Hi. by destruct items.
Qed.

Lemma join_args_plain st self items :
  plain st self -> Forall (plain st) items ->
  Forall (plain st)
    (match items with
     | [] => []
     | first :: rest => first :: HTMLContainer'.join_temp self rest
     end).
Proof.
  intros Hs Hi. destruct items as [| first rest]; [constructor |].
  apply Forall_cons in Hi as [Hf Hr]. apply Forall_cons. split; [done |].
  by apply join_temp_plain.
Qed.

End joining.

(** ** Lists changed in place *)

Section in_place.
Import HTMLContainer.

Lemma read_list_alter_eq f c st :
  c < length (lists st) ->
  read_list (Store (alter f c (lists st)) (dicts st)) c = f (read_list st c).
Proof.
  intros Hc. unfold read_list; cbn [lists].
  rewrite list_lookup_alter. case_decide; [| done].
  destruct (lookup_lt_is_Some_2 (lists st) c Hc) as [xs ->]. done.
Qed.

Lemma read_list_alter_ne f c l st :
  l <> c ->
  read_list (Store (alter f c (lists st)) (dicts st)) l = read_list st l.
Proof.
  intros Hl. unfold read_list; cbn [lists].
  rewrite list_lookup_alter. case_decide; [congruence | done].
Qed.

Lemma alter_alter_id (f g : list value -> list value) c (ls : list (list value)) :
  (forall xs, ls !! c = Some xs -> g (f xs) = xs) ->
  alter g c (alter f c ls) = ls.
Proof.
  intros H. apply list_eq; intros i. rewrite !list_lookup_alter.
  case_decide as E; [subst i | done].
  rewrite decide_True by done.
  destruct (ls !! c) as [xs |] eqn:Ex; [| done]. simpl. f_equal. by apply H.
Qed.

Lemma read_list_in_store st c i :
  i < length (read_list st c) -> c < length (lists st).
Proof.
  unfold read_list. intros H.
  destruct (lists st !! c) as [xs |] eqn:E; [| simpl in H; lia].
  by apply lookup_lt_Some in E.
Qed.

Lemma setitem_unfold self c i v st :
  contents self = Some c -> i < length (read_list st c) ->
  __setitem__ self i v st
  = (Ret tt, Store (alter (fun xs => <[i:=v]> xs) c (lists st)) (dicts st)).
Proof.
  intros Hc Hi. unfold __setitem__, getattr. rewrite Hc.
  unfold bind, ret, list_setitem. by rewrite bool_decide_eq_true_2.
Qed.

Lemma getitem_unfold self c j st :
  contents self = Some c ->
  __getitem__ self j st
  = match read_list st c !! j with
    | Some x => (Ret x, st)
    | None => (Raise IndexError, st)
    end.
Proof. intros Hc. unfold __getitem__, getattr. by rewrite Hc. Qed.

(** Flattening a list that sits among flat items. *)
Lemma flattens_around_list n st pre items post :
  Forall (fun x => flat_item x = true) pre ->
  Forall (fun x => flat_item x = true) items ->
  Forall (fun x => flat_item x = true) post ->
  flattens (S (S n)) st (pre ++ VList items :: post) (pre ++ items ++ post).
Proof.
  intros Hpre Hit Hpost. unfold flattens.
  set (st0 := Store (lists st ++ [[]]) (dicts st)).
  set (l := length (lists st)).
  rewrite (for_each_ret_app _ pre (VList items :: post) st0
             (append_to l pre st0)
             (append_to l post (append_to l items (append_to l pre st0)))).
  - rewrite !append_to_app. unfold st0, l. by rewrite append_to_fresh.
  - by apply for_each_flat_items.
  - cbn [for_each]. unfold bind at 1.
    change (_r_flatten (S (S n)) l (VList items) (append_to l pre st0))
      with (for_each (_r_flatten (S n) l) items (append_to l pre st0)).
    rewrite for_each_flat_items by done.
    by apply for_each_flat_items.
Qed.

End in_place.

(** ** Looking attributes up *)

Section lookups.
Import HTMLContainer.

Lemma dict_get_set k k' v (d : list (string * value)) :
  dict_get k' (dict_set k v d)
  = if String.eqb k' k then Some v else dict_get k' d.
Proof.
  induction d as [| [k1 v1] d IH]; simpl.
  - done.
  - destruct (String.eqb_spec k k1) as [-> | Hk]; simpl.
    + by destruct (String.eqb_spec k' k1).
    + rewrite IH. destruct (String.eqb_spec k' k1) as [-> | Hk'].
      * by rewrite (proj2 (String.eqb_neq k1 k)).
      * done.
Qed.





Lemma dict_get_Some_elem k v (d : list (string * value)) :
  dict_get k d = Some v -> (k, v) ∈ d.
Proof.
  induction d as [| [k1 v1] d IH]; simpl; [done |].
  destruct (String.eqb_spec k k1) as [-> | Hk].
  - intros [= ->]. apply list_elem_of_here.
  - intros H. apply list_elem_of_further. by apply IH.
Qed.

Lemma dict_get_elem k v (d : list (string * value)) :
  NoDup d.*1 -> (k, v) ∈ d -> dict_get k d = Some v.
Proof.
  induction d as [| [k1 v1] d IH]; simpl.
  - intros _ H. by apply elem_of_nil in H.
  - intros [Hk1 Hd]%NoDup_cons [[= -> ->] | Hin]%elem_of_cons.
    + by rewrite String.eqb_refl.
    + destruct (String.eqb_spec k k1) as [-> | Hk]; [| by apply IH].
      exfalso. apply Hk1.
      by apply (list_elem_of_fmap_2 fst d (k1, v)).
Qed.

(** Which keyword argument the constructor's dictionary keeps under a
    key: the last one that is stored by that name. *)
Lemma dict_get_fold_remap (items : list (string * value)) : forall acc k v,
  dict_get k (fold_left (fun acc kv => dict_set (_specialAttrs_get kv.1) kv.2 acc)
                        items acc) = Some v
  <-> (exists pre k0 post,
         items = pre ++ (k0, v) :: post /\ _specialAttrs_get k0 = k
         /\ Forall (fun kv => _specialAttrs_get kv.1 <> k) post)
      \/ (Forall (fun kv => _specialAttrs_get kv.1 <> k) items
          /\ dict_get k acc = Some v).
Proof.
  induction items as [| [k1 v1] items IH]; intros acc k v; simpl.
  - split.
    + intros H. right. by split.
    + intros [(pre & k0 & post & H & _) | [_ H]]; [| done].
      by destruct pre.
  - rewrite IH, dict_get_set. split.
    + intros [(pre & k0 & post & -> & Hk & Hpost) | [Hall H]].
      * left. by exists ((k1, v1) :: pre), k0, post.
      * destruct (String.eqb_spec k (_specialAttrs_get k1)) as [-> | Hne].
        -- injection H as ->. left. by exists [], k1, items.
        -- right. split; [| done]. constructor; [| done]. simpl. congruence.
    + intros [(pre & k0 & post & H & Hk & Hpost) | [Hall H]].
      * destruct pre as [| p pre]; simpl in H.
        -- injection H as E1 E2 E3. subst. right. split; [done |].
           by rewrite String.eqb_refl.
        -- injection H as E1 E2. subst. left. by exists pre, k0, post.
      * apply Forall_cons in Hall as [Hne Hall]. simpl in Hne.
        right. split; [done |].
        by rewrite (proj2 (String.eqb_neq k (_specialAttrs_get k1))).
Qed.

(** *** Updating, then remapping *)

Lemma dict_set_comm k k' v v' (d : list (string * value)) :
  k <> k' -> k ∈ d.*1 ->
  dict_set k' v' (dict_set k v d) = dict_set k v (dict_set k' v' d).
Proof.
  intros Hne. induction d as [| [k1 v1] d IH]; intros Hin;
    [by apply elem_of_nil in Hin |].
  cbn [dict_set].
  destruct (String.eqb_spec k k1) as [-> | Hk];
    destruct (String.eqb_spec k' k1) as [-> | Hk']; try done; cbn [dict_set];
    rewrite ?String.eqb_refl;
    repeat match goal with
           | H : ?a <> ?b |- context [String.eqb ?a ?b] =>
               rewrite (proj2 (String.eqb_neq a b) H)
           end; try done.
  f_equal. apply IH. rewrite fmap_cons in Hin.
  apply elem_of_cons in Hin as [E | Hin]; [done | done].
Qed.

Lemma dict_set_set k v v' (d : list (string * value)) :
  dict_set k v (dict_set k v' d) = dict_set k v d.
Proof.
  induction d as [| [k1 v1] d IH]; simpl.
  - by rewrite String.eqb_refl.
  - destruct (String.eqb_spec k k1) as [-> | Hk]; simpl.
    + by rewrite String.eqb_refl.
    + rewrite (proj2 (String.eqb_neq k k1)) by done. by rewrite IH.
Qed.

Lemma dict_set_elem_keys k v (d : list (string * value)) : k ∈ (dict_set k v d).*1.
Proof.
  rewrite dict_set_keys. case_bool_decide; [done |].
  apply elem_of_app. right. apply list_elem_of_here.
Qed.

Lemma fold_remap_set k v (items : list (string * value)) : forall acc,
  k ∈ acc.*1 ->
  Forall (fun kv => _specialAttrs_get kv.1 <> k) items ->
  fold_left (fun acc kv => dict_set (_specialAttrs_get kv.1) kv.2 acc) items
            (dict_set k v acc)
  = dict_set k v
      (fold_left (fun acc kv => dict_set (_specialAttrs_get kv.1) kv.2 acc)
                 items acc).
Proof.
  induction items as [| [k1 v1] items IH]; intros acc Hk Hall; simpl; [done |].
  apply Forall_cons in Hall as [Hne Hall]. simpl in Hne.
  rewrite dict_set_comm by done. apply IH; [| done].
  rewrite dict_set_keys. case_bool_decide; [done |].
  apply elem_of_app. by left.
Qed.

(** Setting a key that is in the dictionary under its stored name, and
    under no alias, commutes with remapping. *)
Lemma fold_remap_dict_set k v (T : list (string * value)) : forall acc,
  NoDup T.*1 -> k ∈ T.*1 -> _specialAttrs_get k = k ->
  (forall k2, k2 ∈ T.*1 -> _specialAttrs_get k2 = k -> k2 = k) ->
  fold_left (fun acc kv => dict_set (_specialAttrs_get kv.1) kv.2 acc)
            (dict_set k v T) acc
  = dict_set k v
      (fold_left (fun acc kv => dict_set (_specialAttrs_get kv.1) kv.2 acc)
                 T acc).
Proof.
  induction T as [| [k1 v1] T IH]; intros acc Hnd Hin Hk Hu.
  - by apply elem_of_nil in Hin.
  - rewrite fmap_cons in Hnd, Hin, Hu. cbn [fst] in Hnd, Hin, Hu.
    apply NoDup_cons in Hnd as [Hk1 Hnd]. cbn [dict_set fold_left fst snd].
    destruct (String.eqb_spec k k1) as [<- | Hne]; simpl.
    + rewrite Hk.
      rewrite <- (fold_remap_set k v T (dict_set k v1 acc)).
      * by rewrite dict_set_set.
      * apply dict_set_elem_keys.
      * apply Forall_forall. intros [k2 v2] Hin2 E. simpl in E.
        assert (k2 ∈ T.*1) as Hk2
            by (by apply (list_elem_of_fmap_2 fst T (k2, v2))).
        assert (k2 = k) as -> by (apply Hu; [by apply list_elem_of_further | done]).
        done.
    + apply elem_of_cons in Hin as [-> | Hin]; [done |].
      apply IH; [done | done | done |].
      intros k2 Hk2 E. apply Hu; [by apply list_elem_of_further | done].
Qed.

Lemma dict_update_snoc (d new : list (string * value)) k v :
  dict_update d (new ++ [(k, v)]) = dict_set k v (dict_update d new).
Proof. unfold dict_update. by rewrite fold_left_app. Qed.

Lemma dict_update_keys_elem (new : list (string * value)) : forall d k,
  k ∈ (dict_update d new).*1 -> k ∈ d.*1 \/ k ∈ new.*1.
Proof.
  induction new as [| [k1 v1] new IH] using rev_ind; intros d k.
  - simpl. by left.
  - rewrite dict_update_snoc, dict_set_keys, fmap_app.
    case_bool_decide.
    + intros [H' | H']%IH; [by left | right]. apply elem_of_app. by left.
    + intros [[H' | H']%IH | H']%elem_of_app.
      * by left.
      * right. apply elem_of_app. by left.
      * right. apply elem_of_app. by right.
Qed.



Lemma NoDup_dict_update (new : list (string * value)) : forall d,
  NoDup d.*1 -> NoDup (dict_update d new).*1.
Proof.
  induction new as [| [k1 v1] new IH] using rev_ind; intros d Hd; [done |].
  rewrite dict_update_snoc, dict_set_keys. case_bool_decide as E.
  - by apply IH.
  - apply NoDup_app. split; [by apply IH |]. split.
    + intros k Hk ->%list_elem_of_singleton. done.
    + apply NoDup_singleton.
Qed.

Lemma remap_attrs_snoc (T : list (string * value)) k v :
  remap_attrs (T ++ [(k, v)]) = dict_set (_specialAttrs_get k) v (remap_attrs T).
Proof. unfold remap_attrs. by rewrite fold_left_app. Qed.

(** The dictionary that an extension stores: the receiver's, updated by
    the new attributes under their stored names. *)
Lemma remap_update (new : list (string * value)) : forall d,
  normal d -> NoDup (_specialAttrs_get <$> new.*1) ->
  remap_attrs (dict_update d new) = dict_update d (remap_item <$> new).
Proof.
  induction new as [| [k v] new IH] using rev_ind; intros d Hd Hnew.
  - simpl. by apply remap_attrs_normal.
  - rewrite !fmap_app in Hnew. simpl in Hnew.
    apply NoDup_app in Hnew as (Hnew & Hfresh & _).
    assert (Hk : _specialAttrs_get k ∉ _specialAttrs_get <$> new.*1).
    { intros Hin. apply (Hfresh _ Hin). apply list_elem_of_here. }
    rewrite fmap_app, dict_update_snoc.
    change (remap_item <$> [(k, v)]) with [(_specialAttrs_get k, v)].
    rewrite dict_update_snoc, <- (IH d Hd Hnew).
    set (T := dict_update d new).
    destruct (decide (k ∈ T.*1)) as [Hin | Hnin].
    + assert (Hkd : k ∈ d.*1).
      { apply dict_update_keys_elem in Hin as [H' | H']; [done |].
        exfalso. apply Hk. by apply list_elem_of_fmap_2. }
      destruct Hd as [Hnd Hfix].
      assert (Hkk : _specialAttrs_get k = k).
      { rewrite Forall_forall in Hfix. by apply Hfix. }
      rewrite Hkk. unfold remap_attrs.
      apply fold_remap_dict_set; [by apply NoDup_dict_update | done | done |].
      intros k2 Hk2 E.
      apply dict_update_keys_elem in Hk2 as [H' | H'].
      * rewrite Forall_forall in Hfix. by rewrite <- (Hfix _ H'), E.
      * exfalso. apply Hk. rewrite Hkk, <- E. by apply list_elem_of_fmap_2.
    + rewrite dict_set_fresh by done. apply remap_attrs_snoc.
Qed.

Lemma dict_get_update_new (new : list (string * value)) : forall d k v,
  NoDup new.*1 -> (k, v) ∈ new -> dict_get k (dict_update d new) = Some v.
Proof.
  induction new as [| [k1 v1] new IH] using rev_ind; intros d k v Hnd Hin.
  - by apply elem_of_nil in Hin.
  - rewrite dict_update_snoc, dict_get_set.
    rewrite fmap_app in Hnd. apply NoDup_app in Hnd as (Hnd & Hfresh & _).
    apply elem_of_app in Hin as [Hin | [= -> ->]%list_elem_of_singleton].
    + destruct (String.eqb_spec k k1) as [-> | Hne]; [| by apply IH].
      exfalso. apply (Hfresh k1); [| apply list_elem_of_here].
      by apply (list_elem_of_fmap_2 fst new (k1, v)).
    + by rewrite String.eqb_refl.
Qed.

Lemma dict_get_update_old (new : list (string * value)) : forall d k,
  k ∉ new.*1 -> dict_get k (dict_update d new) = dict_get k d.
Proof.
  induction new as [| [k1 v1] new IH] using rev_ind; intros d k Hk; [done |].
  rewrite fmap_app in Hk. apply not_elem_of_app in Hk as [Hk Hk1].
  rewrite dict_update_snoc, dict_get_set.
  destruct (String.eqb_spec k k1) as [-> | Hne]; [| by apply IH].
  exfalso. apply Hk1. apply list_elem_of_here.
Qed.

Lemma dict_update_keys (new : list (string * value)) : forall d,
  NoDup new.*1 ->
  (dict_update d new).*1 = d.*1 ++ filter (fun k => k ∉ d.*1) new.*1.
Proof.
  induction new as [| [k1 v1] new IH] using rev_ind; intros d Hnd.
  - simpl. by rewrite app_nil_r.
  - rewrite fmap_app in Hnd. apply NoDup_app in Hnd as (Hnd & Hfresh & _).
    rewrite dict_update_snoc, dict_set_keys, fmap_app, filter_app, IH by done.
    simpl. rewrite filter_cons, filter_nil.
    assert (Hk1 : k1 ∉ new.*1).
    { intros Hin. apply (Hfresh _ Hin). apply list_elem_of_here. }
    destruct (decide (k1 ∈ d.*1)) as [Hin | Hnin].
    + rewrite decide_False by (intros H; by apply H).
      rewrite bool_decide_eq_true_2; [by rewrite app_nil_r |].
      apply elem_of_app. by left.
    + rewrite decide_True by done.
      rewrite bool_decide_eq_false_2; [by rewrite app_assoc |].
      intros [H' | H']%elem_of_app; [done |].
      apply list_elem_of_filter in H' as [_ H']. done.
Qed.

End lookups.

(** ** What a constructor returns *)

Section returns.
Import HTMLContainer.

Lemma init_ret_inv digest n args attrs st v st' :
  __init__ digest n args attrs st = (Ret v, st') ->
  exists temp ea self ys,
    digest args = Ret (temp, ea, self)
    /\ flattens n st temp ys
    /\ v = self ea (length (lists st)) (length (dicts st))
    /\ st' = allocate ys (remap_attrs attrs) st.
Proof.
  intros H. destruct (digest args) as [[[temp ea] self] | e |] eqn:Hd.
  - pose proof (proj1 (init_ret _ _ _ _ _ _ _ _ _ _ Hd) H) as (ys & Hf & Hv & Hs).
    by exists temp, ea, self, ys.
  - rewrite (init_raise_digest _ _ _ _ _ _ Hd) in H. discriminate.
  - unfold __init__, bind, lift in H. rewrite Hd in H. discriminate.
Qed.

Lemma Tag_digest_ret str_ args temp ea self :
  Tag.digest str_ args = Ret (temp, ea, self) ->
  exists name ty, self = VTag name ty.
Proof.
  unfold Tag.digest.
  destruct args as [| name [| ty ?]]; try discriminate.
  destruct (negb _).
  - destruct (Tag.format_d ty); [| done | done]. cbn [obind].
    by destruct (str_ name).
  - intros [= _ _ <-]. eauto.
Qed.

Lemma remap_item_keys (new : list (string * value)) :
  (remap_item <$> new).*1 = _specialAttrs_get <$> new.*1.
Proof.
  induction new as [| [k v] new IH]; [done |].
  rewrite !fmap_cons, IH. done.
Qed.

End returns.

(** ** The utility functions *)

Lemma lif_ret_vif_bounded st : forall n args,
  length args <= n -> lif (map ret args) st = (Ret (vif args), st).
Proof.
  induction n as [| n IH]; intros args Hlen.
  - destruct args; [done | simpl in Hlen; lia].
  - destruct args as [| a [| b rest]]; [done | done |].
    cbn [map lif vif]. unfold bind, ret at 1.
    destruct (truthy a); [done |]. apply IH. simpl in Hlen. lia.
Qed.

Lemma length_str_mul s n :
  String.length (str_mul s n) = Z.to_nat n * String.length s.
Proof.
  unfold str_mul. induction (Z.to_nat n) as [| k IH]; [done |].
  cbn [repeat]. change (String.concat EmptyString (s :: repeat s k))
    with (join EmptyString (s :: repeat s k)).
  rewrite join_empty_cons, length_append. unfold join. rewrite IH. lia.
Qed.

(** ** Calling the tags of the module *)

Section module_tags.
Import HTMLContainer.

Lemma call_flat n c x newAttrs st cl al :
  primitive c -> recognized c -> contents c = Some cl -> attrs c = Some al ->
  Forall (fun y => flat_item y = true) (read_list st cl) ->
  Forall (fun y => flat_item y = true) x ->
  call (S n) c x newAttrs st
  = (Ret (reseat c (length (lists st)) (length (dicts st))),
     allocate (read_list st cl ++ x)
       (remap_attrs (dict_update (read_dict st al) newAttrs)) st).
Proof.
  intros Hp Hr Hc Ha Hfc Hfx.
  apply (call_primitive_ret _ _ _ _ _ _ _ _ _ Hp Hc Ha).
  exists (read_list st cl ++ x). split; [| done].
  apply flattens_flat_items. by apply Forall_app.
Qed.

Lemma tag_tables_recognized table ty :
  (table, ty) ∈ tag_tables ->
  ty = Tag.NORMAL \/ ty = Tag.LONE \/ ty = Tag.FORCED_PAIR.
Proof.
  unfold tag_tables.
  intros [[= _ ->] | [[= _ ->] | [[= _ ->] | H]%elem_of_cons]%elem_of_cons]%elem_of_cons.
  - right. by left.
  - by left.
  - right. by right.
  - by apply elem_of_nil in H.
Qed.

(** [K( *x, **kw)] for a name [K] of the tables. *)
Lemma global_call n table ty K v x kw st :
  extends module_store st -> (table, ty) ∈ tag_tables -> (K, v) ∈ table ->
  Forall (fun y => flat_item y = true) x ->
  exists c a,
    global K st = (Ret (VTag (VStr v) (VInt ty) [VStr v; VInt ty] c a), st)
    /\ Tag.__call__ (S n) (VTag (VStr v) (VInt ty) [VStr v; VInt ty] c a) x kw st
       = (Ret (VTag (VStr v) (VInt ty) [VStr v; VInt ty] (length (lists st)) (length (dicts st))),
          allocate x (remap_attrs (dict_update [] kw)) st).
Proof.
  intros He Ht HK Hx.
  pose proof module_tables_bound as HF.
  rewrite Forall_forall in HF. specialize (HF _ Ht). cbn [fst snd] in HF.
  rewrite Forall_forall in HF.
  destruct (HF _ HK) as (c & a & Hg & Hc & Ha & Hl & Hd). cbn [fst snd] in Hg.
  exists c, a. split.
  - unfold global, lookup_global. by rewrite Hg.
  - rewrite Tag_call_is_call by eauto 6.
    rewrite (call_flat n _ x kw st c a); try done.
    + rewrite (extends_read_list _ _ _ He Hc), Hl.
      by rewrite (extends_read_dict _ _ _ He Ha), Hd.
    + apply recognized_spec. by apply (tag_tables_recognized table).
    + rewrite (extends_read_list _ _ _ He Hc), Hl. constructor.
Qed.





End module_tags.

(** ** The pages *)

Section pages.
Import HTMLContainer.

Lemma extends_new_dict d st : extends st (Store (lists st) (dicts st ++ [d])).
Proof. by apply (grows_new_dict d st (Ret (length (dicts st)))). Qed.




Lemma in_normalTags K v :
  (K, v) ∈ _normalTags -> (_normalTags, Tag.NORMAL) ∈ tag_tables.
Proof. intros _. unfold tag_tables. apply list_elem_of_further, list_elem_of_here. Qed.









End pages.

(** ** Closed values and stores *)

Section closedness.
Import HTMLContainer.

Lemma value_induction (P : value -> Prop) :
  (forall s, P (VStr s)) -> (forall z, P (VInt z)) -> (forall b, P (VBool b)) ->
  (forall s m, P (VObj s m None)) ->
  (forall s m xs, Forall P xs -> P (VObj s m (Some xs))) ->
  (forall ea c a, Forall P ea -> P (VTagList ea c a)) ->
  (forall name ty ea c a, Forall P ea -> P (VTag name ty ea c a)) ->
  (forall k I O ea c a, P I -> P O -> Forall P ea ->
     P (VPseudotag k I O ea c a)) ->
  forall x, P x.
Proof.
  intros H1 H2 H3 H4 H5 H6 H7 H8.
  refine (fix IH (x : value) : P x :=
            let all := fix all (xs : list value) : Forall P xs :=
                         match xs with
                         | [] => Forall_nil_2 P
                         | y :: ys => Forall_cons_2 P y ys (IH y) (all ys)
                         end in
            match x with
            | VStr s => H1 s
            | VInt z => H2 z
            | VBool b => H3 b
            | VObj s m None => H4 s m
            | VObj s m (Some xs) => H5 s m xs (all xs)
            | VTagList ea c a => H6 ea c a (all ea)
            | VTag name ty ea c a => H7 name ty ea c a (all ea)
            | VPseudotag k inn out ea c a =>
                H8 k inn out ea c a (IH inn) (IH out) (all ea)
            end).
Qed.

Lemma forallb_mono_in (f g : value -> bool) xs :
  Forall (fun x => f x = true -> g x = true) xs ->
  forallb f xs = true -> forallb g xs = true.
Proof.
  induction 1 as [| x xs Hx _ IH]; simpl; [done |].
  intros [H1 H2]%andb_true_iff. by rewrite Hx, IH.
Qed.

Lemma closedb_mono nl nd nl' nd' x :
  nl <= nl' -> nd <= nd' ->
  closedb nl nd x = true -> closedb nl' nd' x = true.
Proof.
  intros Hl Hd. induction x as [| | | | s m xs IH | ea c a IH
                                 | name ty ea c a IH | k I O ea c a IHI IHO IH]
    using value_induction; cbn [closedb]; try done.
  - by apply forallb_mono_in.
  - intros [[H1 H2%bool_decide_eq_true]%andb_true_iff
              H3%bool_decide_eq_true]%andb_true_iff.
    rewrite (forallb_mono_in _ _ _ IH H1).
    rewrite !bool_decide_eq_true_2 by lia. done.
  - intros [[H1 H2%bool_decide_eq_true]%andb_true_iff
              H3%bool_decide_eq_true]%andb_true_iff.
    rewrite (forallb_mono_in _ _ _ IH H1).
    rewrite !bool_decide_eq_true_2 by lia. done.
  - intros [[[[HI HO]%andb_true_iff H1]%andb_true_iff
               H2%bool_decide_eq_true]%andb_true_iff
              H3%bool_decide_eq_true]%andb_true_iff.
    rewrite (IHI HI), (IHO HO), (forallb_mono_in _ _ _ IH H1).
    rewrite !bool_decide_eq_true_2 by lia. done.
Qed.

Lemma extends_lengths st st' :
  extends st st' ->
  length (lists st) <= length (lists st')
  /\ length (dicts st) <= length (dicts st').
Proof. intros [Hl Hd]. split; by apply prefix_length. Qed.

Lemma closed_in_extends st st' x :
  extends st st' -> closed_in st x -> closed_in st' x.
Proof.
  intros [Hl Hd]%extends_lengths. unfold closed_in. by apply closedb_mono.
Qed.

Lemma closed_store_read_list st l :
  closed_store st -> Forall (closed_in st) (read_list st l).
Proof.
  intros [Hl _]. unfold read_list.
  destruct (lists st !! l) as [xs |] eqn:E; simpl; [| constructor].
  rewrite Forall_forall in Hl. apply Hl. by eapply list_elem_of_lookup_2.
Qed.

Lemma closed_store_read_dict st a :
  closed_store st ->
  Forall (fun kv : string * value => closed_in st kv.2) (read_dict st a).
Proof.
  intros [_ Hd]. unfold read_dict.
  destruct (dicts st !! a) as [d |] eqn:E; simpl; [| constructor].
  rewrite Forall_forall in Hd. apply Hd. by eapply list_elem_of_lookup_2.
Qed.

Lemma omap_ext {A B} (f g : A -> outcome B) xs :
  Forall (fun x => f x = g x) xs -> omap f xs = omap g xs.
Proof.
  induction 1 as [| x xs Hx _ IH]; simpl; [done |]. by rewrite Hx, IH.
Qed.

Lemma openTagGuts_loop_ext (f g : value -> outcome string) items :
  Forall (fun kv : string * value => f kv.2 = g kv.2) items ->
  forall temp,
    Tag._openTagGuts_loop f items temp = Tag._openTagGuts_loop g items temp.
Proof.
  induction 1 as [| [k v] items Hv _ IH]; intros temp; simpl; [done |].
  simpl in Hv. destruct v as [| | [|] | | | |]; rewrite ?Hv, ?IH; try done;
    destruct (g _); simpl; by rewrite ?IH.
Qed.

(** The string of a closed value of a closed store is the same in every
    store that extends it. *)
Lemma str_frame st st' :
  closed_store st -> extends st st' ->
  forall n x, closed_in st x -> str n st' x = str n st x.
Proof.
  intros Hst He. induction n as [| n IH]; intros x Hx; [by destruct x |].
  destruct x as [| | | | ea c a | name ty ea c a | k I O ea c a]; try done.
  - unfold closed_in in Hx. cbn [closedb] in Hx.
    apply andb_true_iff in Hx as [[_ Hc%bool_decide_eq_true]%andb_true_iff _].
    rewrite !str_VTagList, (extends_read_list _ _ _ He Hc).
    rewrite (omap_ext (str n st') (str n st)); [done |].
    eapply Forall_impl; [by apply closed_store_read_list |]. apply IH.
  - unfold closed_in in Hx. cbn [closedb] in Hx.
    apply andb_true_iff in Hx as [[_ Hc%bool_decide_eq_true]%andb_true_iff
                                    Ha%bool_decide_eq_true].
    rewrite !str_VTag_any, (extends_read_list _ _ _ He Hc),
      (extends_read_dict _ _ _ He Ha).
    rewrite (omap_ext (str n st') (str n st)).
    + assert (Hl : forall temp,
                Tag._openTagGuts_loop (str n st') (read_dict st a) temp
                = Tag._openTagGuts_loop (str n st) (read_dict st a) temp).
      { apply openTagGuts_loop_ext.
        eapply Forall_impl; [by apply closed_store_read_dict |].
        intros kv. apply IH. }
      destruct (omap _ _) as [ps | |]; [| done | done]. cbn [obind].
      unfold Tag._openTagGuts, Tag.wrap.
      destruct name; rewrite ?str_VStr, Hl; try done;
        destruct (Tag._openTagGuts_loop _ _ _); by repeat case_match.
    + eapply Forall_impl; [by apply closed_store_read_list |]. apply IH.
  - unfold closed_in in Hx. cbn [closedb] in Hx.
    apply andb_true_iff in Hx as [[[[_ HO]%andb_true_iff _]%andb_true_iff
                                     _]%andb_true_iff _].
    cbn [str Pseudotag.__str__]. by apply IH.
Qed.

Lemma closed_store_module : closed_store module_store.
Proof.
  split.
  - unfold module_store; cbn [lists]. repeat constructor.
  - unfold module_store; cbn [dicts]. repeat constructor.
Qed.

End closedness.

(** ** Closedness is kept *)

Section closed_kept.
Import HTMLContainer.

Lemma forallb_Forall (f : value -> bool) xs :
  forallb f xs = true <-> Forall (fun x => f x = true) xs.
Proof.
  induction xs as [| x xs IH]; simpl.
  - split; [constructor | done].
  - rewrite andb_true_iff, IH, Forall_cons. done.
Qed.

Lemma closed_in_contents st x c :
  closed_in st x -> contents x = Some c -> c < length (lists st).
Proof.
  unfold closed_in.
  destruct x; cbn [closedb contents]; try done; intros H [= <-];
    repeat (apply andb_true_iff in H as [H ?]);
    repeat match goal with
           | H' : bool_decide _ = true |- _ => apply bool_decide_eq_true in H'
           end; done.
Qed.

Lemma closed_in_attrs st x a :
  closed_in st x -> attrs x = Some a -> a < length (dicts st).
Proof.
  unfold closed_in.
  destruct x; cbn [closedb attrs]; try done; intros H [= <-];
    repeat (apply andb_true_iff in H as [H ?]);
    repeat match goal with
           | H' : bool_decide _ = true |- _ => apply bool_decide_eq_true in H'
           end; done.
Qed.

Lemma closed_in_extraArgs st x ea :
  closed_in st x -> extraArgs x = Some ea -> Forall (closed_in st) ea.
Proof.
  unfold closed_in.
  destruct x; cbn [closedb extraArgs]; try done; intros H [= <-];
    repeat (apply andb_true_iff in H as [H ?]);
    by apply forallb_Forall.
Qed.

Lemma closed_in_container st (mk : list value -> loc -> loc -> value) ea c a :
  (forall nl nd, closedb nl nd (mk ea c a)
                 = forallb (closedb nl nd) ea && bool_decide (c < nl)
                   && bool_decide (a < nd)) ->
  Forall (closed_in st) ea -> c < length (lists st) -> a < length (dicts st) ->
  closed_in st (mk ea c a).
Proof.
  intros Hmk Hea Hc Ha. unfold closed_in. rewrite Hmk.
  rewrite (proj2 (forallb_Forall _ _) Hea).
  by rewrite !bool_decide_eq_true_2.
Qed.

Lemma closed_store_grow st ys ds :
  closed_store st -> Forall (closed_in st) ys ->
  Forall (Forall (fun kv : string * value => closed_in st kv.2)) ds ->
  closed_store (Store (lists st ++ [ys]) (dicts st ++ ds)).
Proof.
  intros [Hl Hd] Hys Hds.
  assert (Hmono : forall x, closed_in st x ->
                    closed_in (Store (lists st ++ [ys]) (dicts st ++ ds)) x).
  { intros x. unfold closed_in; cbn [lists dicts].
    apply closedb_mono; rewrite length_app; lia. }
  split; cbn [lists dicts].
  - apply Forall_app. split.
    + eapply Forall_impl; [exact Hl |]. intros xs Hxs.
      eapply Forall_impl; [exact Hxs | exact Hmono].
    + constructor; [| constructor].
      eapply Forall_impl; [exact Hys | exact Hmono].
  - apply Forall_app. split.
    + eapply Forall_impl; [exact Hd |]. intros xs Hxs.
      eapply Forall_impl; [exact Hxs |]. intros kv. apply Hmono.
    + eapply Forall_impl; [exact Hds |]. intros xs Hxs.
      eapply Forall_impl; [exact Hxs |]. intros kv. apply Hmono.
Qed.

Lemma dict_set_values (P : value -> Prop) k v (d : list (string * value)) :
  P v -> Forall (fun kv => P kv.2) d -> Forall (fun kv => P kv.2) (dict_set k v d).
Proof.
  intros Hv. induction 1 as [| [k1 v1] d H1 Hd IH]; simpl.
  - by repeat constructor.
  - destruct (String.eqb k k1); apply Forall_cons; split; done.
Qed.

Lemma fold_remap_values (P : value -> Prop) (d : list (string * value)) :
  Forall (fun kv => P kv.2) d -> forall acc,
  Forall (fun kv => P kv.2) acc ->
  Forall (fun kv => P kv.2)
    (fold_left (fun acc kv => dict_set (_specialAttrs_get kv.1) kv.2 acc) d acc).
Proof.
  induction 1 as [| [k v] d Hv _ IH]; intros acc Hacc; simpl; [done |].
  apply IH. by apply dict_set_values.
Qed.

Lemma remap_attrs_values (P : value -> Prop) (d : list (string * value)) :
  Forall (fun kv => P kv.2) d -> Forall (fun kv => P kv.2) (remap_attrs d).
Proof. intros Hd. apply fold_remap_values; [done | constructor]. Qed.

Lemma dict_update_values (P : value -> Prop) (d new : list (string * value)) :
  Forall (fun kv => P kv.2) d -> Forall (fun kv => P kv.2) new ->
  Forall (fun kv => P kv.2) (dict_update d new).
Proof.
  unfold dict_update. intros Hd Hnew. revert d Hd.
  induction Hnew as [| [k v] new Hv _ IH]; intros d Hd; simpl; [done |].
  apply IH. by apply dict_set_values.
Qed.

Lemma py_iter_closed st x it :
  closed_store st -> closed_in st x -> py_iter st x = Some it ->
  Forall (closed_in st) it.
Proof.
  intros Hst Hx.
  destruct x as [s | | | s m it' | ea c a | name ty ea c a | k inn out ea c a];
    cbn [py_iter]; intros H; try discriminate.
  - injection H as <-. apply Forall_forall. intros y Hy.
    apply list_elem_of_fmap in Hy as (ch & -> & _). done.
  - subst it'. unfold closed_in in Hx. cbn [closedb] in Hx.
    by apply forallb_Forall.
  - injection H as <-. by apply closed_store_read_list.
  - injection H as <-. by apply closed_store_read_list.
  - injection H as <-. by apply closed_store_read_list.
Qed.

Lemma py_iter_grown st ys x :
  closed_in st x ->
  py_iter (Store (lists st ++ [ys]) (dicts st)) x = py_iter st x.
Proof.
  intros Hx.
  destruct x as [s | | | s m it' | ea c a | name ty ea c a | k inn out ea c a];
    cbn [py_iter]; try done; f_equal; apply read_list_grown;
    by eapply closed_in_contents.
Qed.

Lemma r_flatten_unfold n l x st :
  _r_flatten (S n) l x st
  = if _atomicOverride x then list_append l x st
    else match py_iter st x with
         | None => list_append l x st
         | Some it => for_each (_r_flatten n l) it st
         end.
Proof. cbn [_r_flatten]. by destruct (_atomicOverride x). Qed.

(** Flattening closed values into a new list leaves closed items in it,
    however it ends. *)
Lemma r_flatten_closed st : forall n x ys0 o st1,
  closed_store st -> closed_in st x ->
  _r_flatten n (length (lists st)) x (Store (lists st ++ [ys0]) (dicts st))
  = (o, st1) ->
  exists ys, st1 = Store (lists st ++ [ys0 ++ ys]) (dicts st)
             /\ Forall (closed_in st) ys.
Proof.
  intros n. induction n as [| n IH]; intros x ys0 o st1 Hst Hx H.
  - injection H as _ <-. exists []. by rewrite app_nil_r.
  - rewrite r_flatten_unfold, py_iter_grown in H by done.
    assert (Happ : forall o' st',
              list_append (length (lists st)) x
                (Store (lists st ++ [ys0]) (dicts st)) = (o', st') ->
              exists ys, st' = Store (lists st ++ [ys0 ++ ys]) (dicts st)
                         /\ Forall (closed_in st) ys).
    { intros o' st'. rewrite list_append_spec, append_to_last.
      intros [= _ <-]. exists [x]. split; [done | by constructor]. }
    destruct (_atomicOverride x); [by eapply Happ |].
    destruct (py_iter st x) as [it |] eqn:Hit; [| by eapply Happ].
    pose proof (py_iter_closed _ _ _ Hst Hx Hit) as Hcl. clear Hit Happ Hx.
    revert ys0 H. induction Hcl as [| y it Hy _ IHit]; intros ys0 H.
    + injection H as _ <-. exists []. by rewrite app_nil_r.
    + cbn [for_each] in H. unfold bind in H.
      destruct (_r_flatten n _ y _) as [[[] | e |] st2] eqn:E;
        destruct (IH _ _ _ _ Hst Hy E) as (ys1 & -> & Hys1).
      * destruct (IHit _ H) as (ys2 & -> & Hys2).
        exists (ys1 ++ ys2). rewrite app_assoc. split; [done |].
        by apply Forall_app.
      * injection H as _ <-. by exists ys1.
      * injection H as _ <-. by exists ys1.
Qed.

Lemma for_each_r_flatten_closed st n xs : forall ys0 o st1,
  closed_store st -> Forall (closed_in st) xs ->
  for_each (_r_flatten n (length (lists st))) xs
           (Store (lists st ++ [ys0]) (dicts st)) = (o, st1) ->
  exists ys, st1 = Store (lists st ++ [ys0 ++ ys]) (dicts st)
             /\ Forall (closed_in st) ys.
Proof.
  intros ys0 o st1 Hst Hxs. revert ys0.
  induction Hxs as [| y it Hy _ IHit]; intros ys0 H.
  - injection H as _ <-. exists []. by rewrite app_nil_r.
  - cbn [for_each] in H. unfold bind in H.
    destruct (_r_flatten n _ y _) as [[[] | e |] st2] eqn:E;
      destruct (r_flatten_closed _ _ _ _ _ _ Hst Hy E) as (ys1 & -> & Hys1).
    + destruct (IHit _ H) as (ys2 & -> & Hys2).
      exists (ys1 ++ ys2). rewrite app_assoc. split; [done |].
      by apply Forall_app.
    + injection H as _ <-. by exists ys1.
    + injection H as _ <-. by exists ys1.
Qed.

(** A constructor keeps the store closed, and what it returns is closed,
    when its arguments are. *)
Lemma init_closed digest n args kwargs st o st' temp ea self :
  closed_store st -> digest args = Ret (temp, ea, self) ->
  Forall (closed_in st) temp -> Forall (closed_in st) ea ->
  Forall (fun kv : string * value => closed_in st kv.2) kwargs ->
  (forall nl nd c a, closedb nl nd (self ea c a)
                     = forallb (closedb nl nd) ea && bool_decide (c < nl)
                       && bool_decide (a < nd)) ->
  __init__ digest n args kwargs st = (o, st') ->
  closed_store st' /\ forall v, o = Ret v -> closed_in st' v.
Proof.
  intros Hst Hd Ht Hea Hkw Hself. rewrite (init_unfold _ _ _ _ _ _ _ _ Hd).
  destruct (for_each _ temp _) as [[[] | e |] st1] eqn:E;
    destruct (for_each_r_flatten_closed _ _ _ _ _ _ Hst Ht E) as (ys & -> & Hys);
    intros [= <- <-]; cbn [lists dicts].
  - assert (Hcs : closed_store
                    (Store (lists st ++ [[] ++ ys])
                           (dicts st ++ [remap_attrs kwargs]))).
    { apply closed_store_grow; [done | done |].
      constructor; [| constructor]. by apply remap_attrs_values. }
    split; [done |]. intros v [= <-].
    apply closed_in_container; cbn [lists dicts]; try done.
    + eapply Forall_impl; [exact Hea |]. intros x.
      unfold closed_in; cbn [lists dicts].
      apply closedb_mono; rewrite length_app; lia.
    + rewrite length_app. simpl. lia.
    + rewrite length_app. simpl. lia.
  - split; [| done].
    rewrite <- (app_nil_r (dicts st)). by apply closed_store_grow.
  - split; [| done].
    rewrite <- (app_nil_r (dicts st)). by apply closed_store_grow.
Qed.

Lemma init_closed_raise digest n args kwargs st o st' :
  closed_store st -> (forall r, digest args <> Ret r) ->
  __init__ digest n args kwargs st = (o, st') ->
  closed_store st' /\ forall v, o = Ret v -> closed_in st' v.
Proof.
  intros Hst Hd. unfold __init__, bind, lift.
  destruct (digest args) as [r | e |]; [by destruct (Hd r) | |];
    intros [= <- <-]; done.
Qed.

Lemma TagList_init_closed n args kwargs st o st' :
  closed_store st -> Forall (closed_in st) args ->
  Forall (fun kv : string * value => closed_in st kv.2) kwargs ->
  TagList.__init__ n args kwargs st = (o, st') ->
  closed_store st' /\ forall v, o = Ret v -> closed_in st' v.
Proof.
  intros Hst Ha Hkw.
  by apply (init_closed TagList.digest n args kwargs st o st' args [] VTagList).
Qed.

Lemma Tag_init_closed n args kwargs st o st' :
  closed_store st -> Forall (closed_in st) args ->
  Forall (fun kv : string * value => closed_in st kv.2) kwargs ->
  Tag.__init__ n args kwargs st = (o, st') ->
  closed_store st' /\ forall v, o = Ret v -> closed_in st' v.
Proof.
  intros Hst Ha Hkw. rewrite Tag_init_unfold.
  destruct (Tag.digest (str n st) args) as [[[temp ea] self] | e |] eqn:Hd.
  - assert (Hshape : exists name ty,
              args = name :: ty :: temp
              /\ ea = [name; ty] /\ self = VTag name ty).
    { unfold Tag.digest in Hd.
      destruct args as [| name [| ty ?]]; try discriminate.
      destruct (negb _).
      - destruct (Tag.format_d ty); [| done | done]. cbn [obind] in Hd.
        by destruct (str n st name).
      - injection Hd as <- <- <-. eauto. }
    destruct Hshape as (name & ty & -> & -> & ->).
    apply Forall_cons in Ha as [Hname Ha]. apply Forall_cons in Ha as [Hty Ha].
    apply (init_closed (Tag.digest (str n st)) n _ kwargs st o st' temp
             [name; ty] (VTag name ty)); try done.
    by repeat constructor.
  - apply init_closed_raise; [done |]. by rewrite Hd.
  - apply init_closed_raise; [done |]. by rewrite Hd.
Qed.

End closed_kept.

(** ** Closedness along the pages *)

Section closed_pages.
Import HTMLContainer.

Lemma closed_ctor_TagList n : closed_ctor (TagList.__init__ n).
Proof. intros args kw st o st' Hst _ Ha Hkw. by apply TagList_init_closed. Qed.

Lemma closed_ctor_Tag n : closed_ctor (Tag.__init__ n).
Proof. intros args kw st o st' Hst _ Ha Hkw. by apply Tag_init_closed. Qed.

Lemma closed_ctor_call type_self n self :
  closed_ctor (type_self n) ->
  forall new kw st o st',
    closed_store st -> extends module_store st ->
    closed_in st self -> Forall (closed_in st) new ->
    Forall (fun kv : string * value => closed_in st kv.2) kw ->
    __call__ type_self n self new kw st = (o, st') ->
    closed_store st' /\ forall v, o = Ret v -> closed_in st' v.
Proof.
  intros Ht new kw st o st' Hst He Hs Hnew Hkw. unfold __call__, getattr.
  destruct (attrs self) as [a |] eqn:Ea; [| by intros [= <- <-]].
  destruct (extraArgs self) as [ea |] eqn:Eea; [| by intros [= <- <-]].
  destruct (contents self) as [c |] eqn:Ec; [| by intros [= <- <-]].
  unfold bind, ret. apply Ht; try done.
  - apply Forall_app. split; [by eapply closed_in_extraArgs |].
    apply Forall_app. split; [by apply closed_store_read_list | done].
  - apply dict_update_values; [by apply closed_store_read_dict | done].
Qed.

Lemma keeps_closed_bind {A B} live (m : M A) (k : A -> M B) res res2 :
  keeps_closed live m res -> grows m ->
  (forall a, keeps_closed (res a ++ live) (k a) res2) ->
  keeps_closed live (bind m k) res2.
Proof.
  intros Hm Hg Hk st o st' Hst He Hl. unfold bind.
  destruct (m st) as [[a | e |] st1] eqn:E;
    destruct (Hm _ _ _ Hst He Hl E) as [Hst1 Hres].
  - pose proof (Hg _ _ _ E) as He1. apply Hk; [done | | ].
    + by eapply extends_trans.
    + apply Forall_app. split; [by apply Hres |].
      eapply Forall_impl; [exact Hl |]. intros x. by apply closed_in_extends.
  - by intros [= <- <-].
  - by intros [= <- <-].
Qed.

Lemma keeps_closed_ret {A} live (a : A) res :
  (forall st, Forall (closed_in st) live -> Forall (closed_in st) (res a)) ->
  keeps_closed live (ret a) res.
Proof.
  intros H st o st' Hst He Hl [= <- <-]. split; [done |].
  intros a' [= <-]. by apply H.
Qed.

Lemma keeps_closed_raise {A} live e res : keeps_closed live (@raise A e) res.
Proof. intros st o st' Hst He Hl [= <- <-]. done. Qed.

Lemma closed_module_globals :
  Forall (fun kv : string * value => closed_in module_store kv.2) module_globals.
Proof. unfold module_globals. repeat constructor. Qed.

Lemma keeps_closed_global live K :
  keeps_closed live (global K) (fun v => [v]).
Proof.
  intros st o st' Hst He Hl. unfold global, lookup_global.
  destruct (dict_get K module_globals) as [v |] eqn:E; intros [= <- <-];
    (split; [done |]); [| done].
  intros a [= <-]. constructor; [| constructor].
  apply (closed_in_extends module_store); [done |].
  pose proof closed_module_globals as H. rewrite Forall_forall in H.
  by apply (H (K, v)), dict_get_Some_elem.
Qed.

Lemma keeps_closed_ctor live f args kw :
  closed_ctor f ->
  (forall st, Forall (closed_in st) live ->
     Forall (closed_in st) args
     /\ Forall (fun kv : string * value => closed_in st kv.2) kw) ->
  keeps_closed live (f args kw) (fun v => [v]).
Proof.
  intros Hf Hside st o st' Hst He Hl H.
  destruct (Hside st Hl) as [Ha Hkw].
  destruct (Hf _ _ _ _ _ Hst He Ha Hkw H) as [Hst' Hv].
  split; [done |]. intros v ->. constructor; [by apply Hv | constructor].
Qed.

Lemma keeps_closed_Tag_call live n self new kw :
  (forall st, Forall (closed_in st) live ->
     closed_in st self /\ Forall (closed_in st) new
     /\ Forall (fun kv : string * value => closed_in st kv.2) kw) ->
  keeps_closed live (Tag.__call__ n self new kw) (fun v => [v]).
Proof.
  intros Hside st o st' Hst He Hl H.
  destruct (Hside st Hl) as (Hs & Hnew & Hkw).
  destruct (closed_ctor_call Tag.__init__ n self (closed_ctor_Tag n)
              _ _ _ _ _ Hst He Hs Hnew Hkw H) as [Hst' Hv].
  split; [done |]. intros v ->. constructor; [by apply Hv | constructor].
Qed.

Lemma keeps_closed_unpack_first live x :
  (forall st, Forall (closed_in st) live -> closed_in st x) ->
  keeps_closed live (unpack_first x) (fun p => p.1 :: p.2).
Proof.
  intros Hside st o st' Hst He Hl. unfold unpack_first.
  destruct (py_iter st x) as [[| y ys] |] eqn:E; intros [= <- <-];
    (split; [done |]); try done.
  intros a [= <-]. cbn [fst snd].
  by apply (py_iter_closed st x (y :: ys) Hst (Hside st Hl)).
Qed.

Lemma closed_in_vif st css l :
  closed_in st css -> closed_in st l -> closed_in st (vif [css; l]).
Proof. intros Hc Hl. cbn [vif]. by destruct (truthy css). Qed.

Ltac split_live H :=
  repeat match type of H with
         | Forall _ (_ ++ _) =>
             let H1 := fresh "Hl" in
             apply Forall_app in H as [H1 H]; split_live H1
         | Forall _ (_ :: _) =>
             let H1 := fresh "Hl" in apply Forall_cons in H as [H1 H]
         end.

Lemma keeps_closed_head_PAGE live n title css :
  (forall st, Forall (closed_in st) live ->
     closed_in st title /\ closed_in st css) ->
  keeps_closed live (PAGE_.head n title css) (fun v => [v]).
Proof.
  intros Hside. unfold PAGE_.head.
  eapply (keeps_closed_bind _ _ _ (fun v => [v]));
    [apply keeps_closed_global | apply grows_global | intros HEAD].
  eapply (keeps_closed_bind _ _ _ (fun v => [v]));
    [apply keeps_closed_global | apply grows_global | intros TITLE].
  eapply (keeps_closed_bind _ _ _ (fun v => [v]));
    [apply keeps_closed_Tag_call | apply grows_Tag_call | intros t].
  { intros st H. split_live H. destruct (Hside st H) as [Ht Hc].
    repeat split; try done; by repeat constructor. }
  eapply (keeps_closed_bind _ _ _ (fun v => [v]));
    [apply keeps_closed_global | apply grows_global | intros LINK].
  eapply (keeps_closed_bind _ _ _ (fun v => [v]));
    [apply keeps_closed_Tag_call | apply grows_Tag_call | intros l].
  { intros st H. split_live H. destruct (Hside st H) as [Ht Hc].
    repeat split; try done; by repeat constructor. }
  apply keeps_closed_Tag_call.
  intros st H. split_live H. destruct (Hside st H) as [Ht Hc].
  split; [done |]. split; [| constructor].
  apply Forall_cons. split; [done |]. apply Forall_cons. split; [| constructor].
  by apply closed_in_vif.
Qed.

Lemma keeps_closed_head_JQPAGE live n title css :
  (forall st, Forall (closed_in st) live ->
     closed_in st title /\ closed_in st css) ->
  keeps_closed live (JQPAGE_.head n title css) (fun v => [v]).
Proof.
  intros Hside. unfold JQPAGE_.head.
  eapply (keeps_closed_bind _ _ _ (fun v => [v]));
    [apply keeps_closed_global | apply grows_global | intros HEAD].
  eapply (keeps_closed_bind _ _ _ (fun v => [v]));
    [apply keeps_closed_global | apply grows_global | intros TITLE].
  eapply (keeps_closed_bind _ _ _ (fun v => [v]));
    [apply keeps_closed_Tag_call | apply grows_Tag_call | intros t].
  { intros st H. split_live H. destruct (Hside st H) as [Ht Hc].
    repeat split; try done; by repeat constructor. }
  eapply (keeps_closed_bind _ _ _ (fun v => [v]));
    [apply keeps_closed_global | apply grows_global | intros LINK].
  eapply (keeps_closed_bind _ _ _ (fun v => [v]));
    [apply keeps_closed_Tag_call | apply grows_Tag_call | intros l].
  { intros st H. split_live H. destruct (Hside st H) as [Ht Hc].
    repeat split; try done; by repeat constructor. }
  eapply (keeps_closed_bind _ _ _ (fun v => [v]));
    [apply keeps_closed_global | apply grows_global | intros GETJQ].
  apply keeps_closed_Tag_call.
  intros st H. split_live H. destruct (Hside st H) as [Ht Hc].
  split; [done |]. split; [| constructor].
  apply Forall_cons. split; [done |]. apply Forall_cons. split.
  { by apply closed_in_vif. }
  apply Forall_cons. split; [done | constructor].
Qed.

Lemma keeps_closed_doctype live n :
  keeps_closed live (doctype n) (fun v => [v]).
Proof.
  unfold doctype. apply keeps_closed_ctor; [apply closed_ctor_Tag |].
  intros st _. split; by repeat constructor.
Qed.

Lemma keeps_closed_PageWrapper_skeleton live head n inner ea :
  (forall live' title css,
     (forall st, Forall (closed_in st) live' ->
        closed_in st title /\ closed_in st css) ->
     keeps_closed live' (head n title css) (fun v => [v])) ->
  (forall title css, grows (head n title css)) ->
  (forall st, Forall (closed_in st) live ->
     closed_in st inner /\ Forall (closed_in st) ea) ->
  keeps_closed live (PageWrapper.skeleton head n inner ea) (fun v => [v]).
Proof.
  intros Hhead Hgrows Hside. unfold PageWrapper.skeleton.
  destruct ea as [| title [| css [| ? ?]]]; try apply keeps_closed_raise.
  eapply (keeps_closed_bind _ _ _ (fun v => [v]));
    [apply keeps_closed_doctype | apply grows_Tag_init | intros d].
  eapply (keeps_closed_bind _ _ _ (fun v => [v]));
    [apply Hhead | apply Hgrows | intros h].
  { intros st H. split_live H. destruct (Hside st H) as [_ Hea].
    apply Forall_cons in Hea as [Ht Hea]. by apply Forall_cons in Hea as [Hc _]. }
  eapply (keeps_closed_bind _ _ _ (fun v => [v]));
    [apply keeps_closed_global | apply grows_global | intros HTML].
  eapply (keeps_closed_bind _ _ _ (fun v => [v]));
    [apply keeps_closed_Tag_call | apply grows_Tag_call | intros html].
  { intros st H. split_live H. destruct (Hside st H) as [Hi _].
    split; [done |]. split; [| constructor].
    apply Forall_cons. split; [done |]. apply Forall_cons. by split. }
  apply keeps_closed_ctor; [apply closed_ctor_TagList |].
  intros st H. split_live H. split; [| constructor].
  apply Forall_cons. split; [done |]. apply Forall_cons. by split.
Qed.

Lemma keeps_closed_skeleton live k n inner ea :
  (forall st, Forall (closed_in st) live ->
     closed_in st inner /\ Forall (closed_in st) ea) ->
  keeps_closed live (skeleton k n inner ea) (fun v => [v]).
Proof.
  intros Hside. destruct k; cbn [skeleton].
  - unfold SIMPLEPAGE_.skeleton.
    destruct ea as [| ? ?]; [| apply keeps_closed_raise].
    eapply (keeps_closed_bind _ _ _ (fun v => [v]));
      [apply keeps_closed_doctype | apply grows_Tag_init | intros d].
    apply keeps_closed_ctor; [apply closed_ctor_TagList |].
    intros st H. split_live H. destruct (Hside st H) as [Hi _].
    split; [| constructor].
    apply Forall_cons. split; [done |]. apply Forall_cons. by split.
  - apply keeps_closed_PageWrapper_skeleton; [| | done].
    + intros. by apply keeps_closed_head_PAGE.
    + intros. apply grows_head_PAGE.
  - apply keeps_closed_PageWrapper_skeleton; [| | done].
    + intros. by apply keeps_closed_head_JQPAGE.
    + intros. apply grows_head_JQPAGE.
Qed.

Lemma dict_del_Forall (Q : string * value -> Prop) k (d : list (string * value)) :
  Forall Q d -> Forall Q (dict_del k d).
Proof.
  unfold dict_del. induction 1 as [| kv d Hkv _ IH]; simpl; [constructor |].
  destruct (negb _); [by constructor | done].
Qed.

(** What [heart] binds comes from the arguments of the call. *)
Lemma heart_parameters_Forall (P : value -> Prop) args kw title css args' kw' :
  PageWrapper.heart_parameters args kw = Some (title, css, args', kw') ->
  Forall P args -> Forall (fun kv : string * value => P kv.2) kw ->
  P title /\ P css /\ Forall P args'
  /\ Forall (fun kv : string * value => P kv.2) kw'.
Proof.
  intros E Ha Hkw. unfold PageWrapper.heart_parameters in E.
  assert (Hget : forall k v, dict_get k kw = Some v -> P v).
  { intros k v Hk%dict_get_Some_elem.
    rewrite Forall_forall in Hkw. apply (Hkw _ Hk). }
  destruct args as [| t [| c r]];
    destruct (dict_get "title" kw) as [vt |] eqn:Et;
    destruct (dict_get "css" kw) as [vc |] eqn:Ec;
    try discriminate; injection E as <- <- <- <-.
  - repeat split; eauto; try constructor. by repeat apply dict_del_Forall.
  - apply Forall_cons in Ha as [Ht _].
    repeat split; eauto; try constructor. by apply dict_del_Forall.
  - apply Forall_cons in Ha as [Ht Ha]. apply Forall_cons in Ha as [Hc Ha].
    done.
Qed.

Lemma keeps_closed_heart live k n args kw :
  (forall st, Forall (closed_in st) live ->
     Forall (closed_in st) args
     /\ Forall (fun kv : string * value => closed_in st kv.2) kw) ->
  keeps_closed live (heart k n args kw) (fun p => p.1 :: p.2).
Proof.
  intros Hside.
  assert (HP : keeps_closed live (PageWrapper.heart n args kw)
                 (fun p => p.1 :: p.2)).
  { unfold PageWrapper.heart.
    destruct (PageWrapper.heart_parameters args kw)
      as [[[[title css] args'] kw'] |] eqn:Ep; [| apply keeps_closed_raise].
    eapply (keeps_closed_bind _ _ _ (fun v => [v]));
      [apply keeps_closed_global | apply grows_global | intros BODY].
    eapply (keeps_closed_bind _ _ _ (fun v => [v]));
      [apply keeps_closed_Tag_call | apply grows_Tag_call | intros body].
    { intros st H. split_live H. destruct (Hside st H) as [Ha Hkw].
      destruct (heart_parameters_Forall (closed_in st) _ _ _ _ _ _ Ep Ha Hkw)
        as (_ & _ & Ha' & Hkw').
      done. }
    apply keeps_closed_ret. intros st H. split_live H.
    destruct (Hside st H) as [Ha Hkw].
    destruct (heart_parameters_Forall (closed_in st) _ _ _ _ _ _ Ep Ha Hkw)
      as (Ht & Hc & _ & _).
    cbn [fst snd]. apply Forall_cons. split; [done |].
    apply Forall_cons. split; [done |]. apply Forall_cons. by split. }
  destruct k; cbn [heart]; try exact HP.
  unfold SIMPLEPAGE_.heart.
  eapply (keeps_closed_bind _ _ _ (fun v => [v]));
    [apply keeps_closed_global | apply grows_global | intros HTML].
  eapply (keeps_closed_bind _ _ _ (fun v => [v]));
    [apply keeps_closed_Tag_call | apply grows_Tag_call | intros r].
  { intros st H. split_live H. destruct (Hside st H) as [Ha Hkw]. done. }
  apply keeps_closed_unpack_first. intros st H. by split_live H.
Qed.

Lemma closed_store_new_dict st d :
  closed_store st ->
  Forall (fun kv : string * value => closed_in st kv.2) d ->
  closed_store (Store (lists st) (dicts st ++ [d])).
Proof.
  intros [Hl Hd] Hnew.
  assert (Hmono : forall x, closed_in st x ->
                    closed_in (Store (lists st) (dicts st ++ [d])) x).
  { intros x. unfold closed_in; cbn [lists dicts].
    apply closedb_mono; rewrite ?length_app; lia. }
  split; cbn [lists dicts].
  - eapply Forall_impl; [exact Hl |]. intros xs Hxs.
    eapply Forall_impl; [exact Hxs | exact Hmono].
  - apply Forall_app. split.
    + eapply Forall_impl; [exact Hd |]. intros xs Hxs.
      eapply Forall_impl; [exact Hxs |]. intros kv. apply Hmono.
    + constructor; [| constructor].
      eapply Forall_impl; [exact Hnew |]. intros kv. apply Hmono.
Qed.

Lemma closed_values st (kw : list (string * value)) :
  Forall (closed_in st) kw.*2
  <-> Forall (fun kv : string * value => closed_in st kv.2) kw.
Proof.
  induction kw as [| [k v] kw IH]; [by split; constructor |].
  rewrite fmap_cons, !Forall_cons, IH. done.
Qed.

Lemma closed_ctor_new_pseudotag k n : closed_ctor (new_pseudotag k n).
Proof.
  intros args kw st o st' Hst He Ha Hkw.
  assert (Hside1 : forall s, Forall (closed_in s) (args ++ kw.*2) ->
            Forall (closed_in s) args
            /\ Forall (fun kv : string * value => closed_in s kv.2) kw).
  { intros s H. apply Forall_app in H as [H1 H2]. split; [done |].
    by apply closed_values. }
  assert (Hlive1 : Forall (closed_in st) (args ++ kw.*2)).
  { apply Forall_app. split; [done |]. by apply closed_values. }
  unfold new_pseudotag, Pseudotag.__init__. unfold bind at 1.
  destruct (heart k n args kw st) as [[[inner ea] | e |] st1] eqn:E1;
    destruct (keeps_closed_heart (args ++ kw.*2) k n args kw Hside1
                _ _ _ Hst He Hlive1 E1) as [Hst1 Hr1];
    try (by intros [= <- <-]).
  pose proof (grows_heart _ _ _ _ _ _ _ E1) as He1.
  specialize (Hr1 _ eq_refl). cbn [fst snd] in Hr1.
  apply Forall_cons in Hr1 as [Hi Hea].
  assert (Hside2 : forall s, Forall (closed_in s) (inner :: ea) ->
            closed_in s inner /\ Forall (closed_in s) ea).
  { intros s H. by apply Forall_cons in H. }
  assert (Hlive2 : Forall (closed_in st1) (inner :: ea))
    by (by apply Forall_cons).
  unfold bind at 1.
  destruct (skeleton k n inner ea st1) as [[outer | e |] st2] eqn:E2;
    destruct (keeps_closed_skeleton (inner :: ea) k n inner ea Hside2
                _ _ _ Hst1 (extends_trans _ _ _ He He1) Hlive2 E2)
      as [Hst2 Hr2];
    try (by intros [= <- <-]).
  pose proof (grows_skeleton _ _ _ _ _ _ _ E2) as He2.
  specialize (Hr2 _ eq_refl). apply Forall_cons in Hr2 as [Ho _].
  unfold bind, getattr.
  destruct (contents inner) as [c |] eqn:Ec; [| by intros [= <- <-]].
  unfold ret, new_dict. intros [= <- <-].
  assert (He02 : extends st st2) by (by eapply extends_trans).
  assert (Hkw2 : Forall (fun kv : string * value => closed_in st2 kv.2)
                        (HTMLContainer.remap_attrs kw)).
  { apply remap_attrs_values. eapply Forall_impl; [exact Hkw |].
    intros kv. by apply closed_in_extends. }
  split; [by apply closed_store_new_dict |].
  intros v [= <-].
  assert (E3 : extends st2 (Store (lists st2)
                              (dicts st2 ++ [HTMLContainer.remap_attrs kw])))
    by apply extends_new_dict.
  assert (Hi3 := closed_in_extends _ _ _ (extends_trans _ _ _ He2 E3) Hi).
  assert (Ho3 := closed_in_extends _ _ _ E3 Ho).
  assert (Hea3 : Forall (closed_in (Store (lists st2)
                           (dicts st2 ++ [HTMLContainer.remap_attrs kw]))) ea).
  { eapply Forall_impl; [exact Hea |]. intros x.
    apply closed_in_extends. by eapply extends_trans. }
  pose proof (closed_in_contents _ _ _ Hi3 Ec) as Hc.
  unfold closed_in in *. cbn [closedb lists dicts] in *.
  rewrite Hi3, Ho3, (proj2 (forallb_Forall _ _) Hea3).
  rewrite !bool_decide_eq_true_2; [done | | done].
  rewrite length_app. simpl. lia.
Qed.

Lemma call_closed n c x kw st o st' :
  closed_store st -> extends module_store st ->
  closed_in st c -> Forall (closed_in st) x ->
  Forall (fun kv : string * value => closed_in st kv.2) kw ->
  call n c x kw st = (o, st') ->
  closed_store st' /\ forall v, o = Ret v -> closed_in st' v.
Proof.
  intros Hst He Hc Hx Hkw.
  destruct c; cbn [call]; try (by intros [= <- <-]).
  - by apply (closed_ctor_call TagList.__init__ n _ (closed_ctor_TagList n)).
  - by apply (closed_ctor_call Tag.__init__ n _ (closed_ctor_Tag n)).
  - by apply (closed_ctor_call (new_pseudotag k) n _
                (closed_ctor_new_pseudotag k n)).
Qed.

Lemma join_closed n self x st o st' :
  closed_store st -> closed_in st self -> closed_in st x ->
  HTMLContainer'.join n self x st = (o, st') ->
  closed_store st' /\ forall v, o = Ret v -> closed_in st' v.
Proof.
  intros Hst Hs Hx. unfold HTMLContainer'.join.
  destruct (_atomicOverride x).
  { apply TagList_init_closed; [done | by repeat constructor | constructor]. }
  destruct (py_iter st x) as [it |] eqn:Hit; [| by intros [= <- <-]].
  pose proof (py_iter_closed _ _ _ Hst Hx Hit) as Hcl.
  destruct it as [| first rest];
    (apply TagList_init_closed; [done | | constructor]); [constructor |].
  apply Forall_cons in Hcl as [Hf Hr]. apply Forall_cons. split; [done |].
  clear Hit Hf. induction Hr as [| y rest Hy _ IH]; simpl; [constructor |].
  apply Forall_cons. split; [done |]. apply Forall_cons. by split.
Qed.

End closed_pages.

(** ** What an extension shows *)

Section visible.
Import HTMLContainer.

Lemma append_inv_l (a x y : string) : a +:+ x = a +:+ y -> x = y.
Proof.
  induction a as [| ch a IH]; [done |]. rewrite !append_cons.
  intros [= H]. by apply IH.
Qed.

Lemma append_inv_r (a b r : string) : a +:+ r = b +:+ r -> a = b.
Proof.
  revert b. induction a as [| ch a IH]; intros [| ch' b] H; [done | | |].
  - apply (f_equal String.length) in H. rewrite !length_append in H.
    simpl in H. lia.
  - apply (f_equal String.length) in H. rewrite !length_append in H.
    simpl in H. lia.
  - rewrite !append_cons in H. injection H as -> H. f_equal. by apply IH.
Qed.

Lemma attr_token_mono (f g : value -> outcome string) kv t :
  (forall x y, f x = Ret y -> g x = Ret y) ->
  attr_token f kv t -> attr_token g kv t.
Proof.
  intros Hfg H. destruct H as [k | k | k v s Hv Hs];
    [constructor | constructor |].
  apply attr_token_other; [done | by apply Hfg].
Qed.

Lemma attr_token_short str_ kv t : attr_token str_ kv t -> length t <= 1.
Proof. intros H. destruct H; simpl; lia. Qed.

Lemma dict_set_split k v v0 (d : list (string * value)) :
  dict_get k d = Some v0 ->
  exists pre post,
    d = pre ++ (k, v0) :: post /\ dict_set k v d = pre ++ (k, v) :: post.
Proof.
  induction d as [| [k' v'] d IH]; simpl; [done |].
  destruct (String.eqb_spec k k') as [<- | Hne].
  - intros [= ->]. by exists [], d.
  - intros H. destruct (IH H) as (pre & post & -> & ->).
    by exists ((k', v') :: pre), post.
Qed.

Lemma join_cons_ne sep x (xs : list string) :
  xs <> [] -> join sep (x :: xs) = x +:+ sep +:+ join sep xs.
Proof. destruct xs; [done | reflexivity]. Qed.

(** In a joined list, one item (or none) can be told from another in the
    same place. *)
Lemma join_middle (A B t0 t : list string) :
  A <> [] -> length t0 <= 1 -> length t <= 1 ->
  join " " (A ++ t0 ++ B) = join " " (A ++ t ++ B) -> t0 = t.
Proof.
  intros HA H0 H1.
  assert (Hlen : forall b,
            String.length (join " " (A ++ B))
            < String.length (join " " (A ++ [b] ++ B))).
  { intros b. rewrite (join_app " " A ([b] ++ B)) by done.
    destruct B as [| y B].
    - rewrite app_nil_r, !length_append. simpl. lia.
    - rewrite (join_app " " A (y :: B)) by done.
      cbn [app]. rewrite join_cons, !length_append. simpl. lia. }
  destruct t0 as [| a [| ? ?]]; [| | simpl in H0; lia];
    (destruct t as [| b [| ? ?]]; [| | simpl in H1; lia]).
  - done.
  - intros H. apply (f_equal String.length) in H.
    specialize (Hlen b). cbn [app] in *. lia.
  - intros H. apply (f_equal String.length) in H.
    specialize (Hlen a). cbn [app] in *. lia.
  - rewrite (join_app " " A ([a] ++ B)), (join_app " " A ([b] ++ B)) by done.
    intros H%append_inv_l%append_inv_l. cbn [app] in H.
    destruct B as [| y B].
    + change (a = b) in H. by subst.
    + rewrite !join_cons in H. apply append_inv_r in H. by subst.
Qed.

Lemma tag_text_guts_inj filled ty g g' inner name :
  tag_text filled ty g inner name = tag_text filled ty g' inner name -> g = g'.
Proof.
  unfold tag_text.
  repeat case_match; intros Heq%append_inv_l; by apply append_inv_r in Heq.
Qed.

(** The text of a tag grows with its open tag and with its contents. *)
Lemma length_tag_text_grows (f f' : bool) ty g g' inner inner' name :
  (f = true -> f' = true) ->
  String.length g <= String.length g' ->
  String.length inner <= String.length inner' ->
  (String.length inner < String.length inner' -> f' = true) ->
  String.length g < String.length g'
  \/ String.length inner < String.length inner' ->
  String.length (tag_text f ty g inner name)
  < String.length (tag_text f' ty g' inner' name).
Proof.
  intros Hf Hg Hi Hfi Hlt. unfold tag_text.
  destruct f, f'; try (by specialize (Hf eq_refl));
    cbn [orb];
    destruct (ty =? Tag.FORCED_PAIR)%Z; destruct (ty =? Tag.LONE)%Z;
    rewrite ?length_append; simpl; rewrite ?length_append; simpl;
    try lia;
    (destruct Hlt as [Hlt | Hlt]; [lia | by specialize (Hfi Hlt)]).
Qed.

Lemma page_text_inj title rest B B' :
  page_text title rest B = page_text title rest B' -> B = B'.
Proof.
  unfold page_text, element, tag_text. cbn [orb].
  intros H. do 4 apply append_inv_l in H.
  apply append_inv_r in H. by apply append_inv_l in H.
Qed.

(** The open tag, as the tokens of the attributes make it. *)
Lemma openTagGuts_inv str_ name d g :
  Tag._openTagGuts str_ (VStr name) d = Ret g ->
  exists toks,
    Forall2 (attr_token str_) d toks
    /\ g = join " " ([name] ++ concat toks).
Proof.
  unfold Tag._openTagGuts.
  destruct (Tag._openTagGuts_loop _ _ _) as [t | |] eqn:Et; try discriminate.
  simpl. intros [= <-].
  apply openTagGuts_loop_inv in Et as (toks & Hf & ->). by exists toks.
Qed.

Lemma length_guts_more name (toks toks2 : list (list string)) :
  String.length (join " " ([name] ++ concat toks))
  <= String.length (join " " ([name] ++ concat (toks ++ toks2)))
  /\ (concat toks2 <> [] ->
      String.length (join " " ([name] ++ concat toks))
      < String.length (join " " ([name] ++ concat (toks ++ toks2)))).
Proof.
  rewrite concat_app, app_assoc.
  destruct (concat toks2) as [| t ts] eqn:E.
  - rewrite app_nil_r. split; [lia | done].
  - rewrite (join_app " " ([name] ++ concat toks) (t :: ts)) by done.
    rewrite !length_append. simpl. split; [lia |]. intros _. lia.
Qed.

(** Two tags of the same name and type in one store, the second with the
    contents of the first followed by [ys] and with its attributes updated
    by [new], as an extension leaves them. *)
Lemma tag_change_visible m st name ty ea ea' c a c' a' d ys new s s' :
  normal d ->
  read_dict st a = d ->
  read_dict st a' = remap_attrs (dict_update d new) ->
  read_list st c' = read_list st c ++ ys ->
  str (S m) st (VTag name ty ea c a) = Ret s ->
  str (S m) st (VTag name ty ea' c' a') = Ret s' ->
  visible_change st d ys new -> s' <> s.
Proof.
  intros Hn Ra Ra' Rc' Hs Hs' Hv.
  apply str_VTag_ret_any in Hs as (nm & ps & g & -> & Hps & Hg & ->).
  apply str_VTag_ret_any in Hs' as (nm' & qs & g' & [= <-] & Hqs & Hg' & ->).
  rewrite Ra in Hg. rewrite Ra' in Hg'. rewrite Rc' in *.
  set (xs := read_list st c) in *.
  apply omap_app_inv in Hqs as (ps' & rs & Hps' & Hrs & ->).
  rewrite Hps in Hps'. injection Hps' as <-.
  apply openTagGuts_inv in Hg as (toks & Hf & ->).
  apply openTagGuts_inv in Hg' as (toks' & Hf' & ->).
  destruct Hv as [[Hnd Hv] | (-> & k & v & v0 & t & t0 & n & -> & Hget & Ht0 & Ht & Hne)].
  - (* new keys *)
    rewrite remap_update_fresh in Hf' by done.
    apply Forall2_app_inv_l in Hf' as (toks1 & toks2 & Hf1 & Hf2 & ->).
    rewrite (attr_tokens_functional _ _ _ _ Hf1 Hf) in *.
    destruct (length_guts_more nm toks toks2) as [Hle Hlt].
    intros Heq. apply (f_equal String.length) in Heq. revert Heq.
    assert (Hinner : String.length (join EmptyString ps)
                     <= String.length (join EmptyString (ps ++ rs))).
    { rewrite join_empty_app, length_append. lia. }
    pose proof (length_tag_text_grows
                  (negb (bool_decide (xs = [])))
                  (negb (bool_decide (xs ++ ys = [])))
                  (type_code ty)
                  (join " " ([nm] ++ concat toks))
                  (join " " ([nm] ++ concat (toks ++ toks2)))
                  (join EmptyString ps) (join EmptyString (ps ++ rs)) nm)
      as Hgrow.
    assert (Hff : negb (bool_decide (xs = [])) = true ->
                  negb (bool_decide (xs ++ ys = [])) = true).
    { intros H%negb_true_iff%bool_decide_eq_false.
      apply negb_true_iff, bool_decide_eq_false.
      by intros [? _]%app_eq_nil. }
    assert (Hfi : String.length (join EmptyString ps)
                  < String.length (join EmptyString (ps ++ rs)) ->
                  negb (bool_decide (xs ++ ys = [])) = true).
    { intros Hlt'. apply negb_true_iff, bool_decide_eq_false.
      intros [_ ->]%app_eq_nil. simpl in Hrs. injection Hrs as <-.
      rewrite app_nil_r in Hlt'. lia. }
    specialize (Hgrow Hff Hle Hinner Hfi).
    destruct Hv as [(y & sy & Hy & Hry & Hsy) | (k & v & Hin & Hv)].
    + destruct (omap_elem_inv _ _ _ _ Hrs Hy) as (q & Hq & Hqin).
      assert (q = sy) as ->
        by (eapply renders_functional; [by exists m | done]).
      pose proof (length_join_elem _ _ Hqin) as Hq'.
      assert (0 < String.length sy) by (destruct sy; [done | simpl; lia]).
      assert (Hlt' : String.length (join EmptyString ps)
                     < String.length (join EmptyString (ps ++ rs))).
      { rewrite join_empty_app, length_append. lia. }
      specialize (Hgrow (or_intror Hlt')). lia.
    + assert (Hc2 : concat toks2 <> []).
      { eapply (attr_tokens_nonempty _ _ _ (_specialAttrs_get k) v);
          [exact Hf2 | | done].
        apply (list_elem_of_fmap_2
                 (fun kv : string * value => (_specialAttrs_get kv.1, kv.2))
                 _ (k, v) Hin). }
      specialize (Hgrow (or_introl (Hlt Hc2))). lia.
  - (* one changed key *)
    simpl in Hrs. injection Hrs as <-. rewrite !app_nil_r.
    rewrite (remap_update [(k, v)] d Hn) in Hf'
      by (apply NoDup_singleton).
    change (dict_update d (remap_item <$> [(k, v)]))
      with (dict_set (_specialAttrs_get k) v d) in Hf'.
    destruct (dict_set_split _ v _ _ Hget) as (pre & post & Ed & Ed').
    rewrite Ed' in Hf'. rewrite Ed in Hf.
    apply Forall2_app_inv_l in Hf as (tp & tq & Hfp & Hfq & ->).
    apply Forall2_cons_inv_l in Hfq as (u0 & tpost & Hu0 & Hfpost & ->).
    apply Forall2_app_inv_l in Hf' as (tp' & tq' & Hfp' & Hfq' & ->).
    apply Forall2_cons_inv_l in Hfq' as (u & tpost' & Hu & Hfpost' & ->).
    rewrite (attr_tokens_functional _ _ _ _ Hfp' Hfp) in *.
    rewrite (attr_tokens_functional _ _ _ _ Hfpost' Hfpost) in *.
    assert (Hmono : forall n1 n2 x y, n1 <= n2 ->
              str n1 st x = Ret y -> str n2 st x = Ret y).
    { intros n1 n2 x y Hle. by apply str_mono. }
    assert (u0 = t0) as ->.
    { eapply (attr_token_functional (str (n `max` m) st));
        (eapply attr_token_mono; [| eassumption]);
        intros x y; apply Hmono; lia. }
    assert (u = t) as ->.
    { eapply (attr_token_functional (str (n `max` m) st));
        (eapply attr_token_mono; [| eassumption]);
        intros x y; apply Hmono; lia. }
    intros Heq%tag_text_guts_inj. apply Hne.
    rewrite !concat_app in Heq. cbn [concat] in Heq.
    rewrite !app_assoc in Heq. rewrite <- !(app_assoc _ _ (concat tpost)) in Heq.
    symmetry.
    apply (join_middle ([nm] ++ concat tp) (concat tpost));
      [done | by eapply attr_token_short | by eapply attr_token_short |].
    by rewrite <- Heq.
Qed.

End visible.


(** * The specification, statement by statement *)

(** C1.  Element rendering follows the tag-kind rule.  Let the children of
    a tag render to [parts] and its open tag be [g].  With contents, or of
    kind [FORCED_PAIR], the tag renders as [<g>], the joined [parts] and
    the close tag; else of kind [LONE], as [<g>] alone; else as [<g />].
    In particular [Tag('div', NORMAL)] renders as [<div />],
    [Tag('div', NORMAL)('x')] as [<div>x</div>], [Tag('br', LONE)] as
    [<br>] and [Tag('script', FORCED_PAIR)] as [<script></script>]. *)
Theorem tag_rendering_rule :
  (forall n st name ty ea c a parts g,
     omap (str n st) (read_list st c) = Ret parts ->
     Tag._openTagGuts (str n st) (VStr name) (read_dict st a) = Ret g ->
     (read_list st c <> [] \/ ty = Tag.FORCED_PAIR ->
      str (S n) st (VTag (VStr name) (VInt ty) ea c a)
      = Ret ("<" +:+ g +:+ ">" +:+ join EmptyString parts
             +:+ "</" +:+ name +:+ ">"))
     /\ (read_list st c = [] -> ty = Tag.LONE ->
         str (S n) st (VTag (VStr name) (VInt ty) ea c a) = Ret ("<" +:+ g +:+ ">"))
     /\ (read_list st c = [] -> ty <> Tag.FORCED_PAIR -> ty <> Tag.LONE ->
         str (S n) st (VTag (VStr name) (VInt ty) ea c a) = Ret ("<" +:+ g +:+ " />")))
  /\ str_of (Tag.__init__ 0 [VStr "div"; VInt Tag.NORMAL] []) empty_store 1
     = Ret "<div />"
  /\ str_of (do div <- Tag.__init__ 0 [VStr "div"; VInt Tag.NORMAL] [] ;;
             call 1 div [VStr "x"] []) empty_store 1
     = Ret "<div>x</div>"
  /\ str_of (Tag.__init__ 0 [VStr "br"; VInt Tag.LONE] []) empty_store 1
     = Ret "<br>"
  /\ str_of (Tag.__init__ 0 [VStr "script"; VInt Tag.FORCED_PAIR] [])
            empty_store 1
     = Ret "<script></script>".
Proof.
  split; [| repeat split; reflexivity].
  intros n st name ty ea c a parts g Hparts Hg.
  rewrite str_VTag, Hparts. cbn [obind]. unfold Tag.wrap. rewrite Hg.
  cbn [obind Tag.eq_int]. unfold HTMLContainer.spacer.
  split; [| split].
  - intros [Hc | ->].
    + rewrite bool_decide_eq_false_2 by done. reflexivity.
    + rewrite orb_true_r. reflexivity.
  - intros Hc ->. rewrite bool_decide_eq_true_2 by done. reflexivity.
  - intros Hc Hf Hl. rewrite bool_decide_eq_true_2 by done. cbn [negb orb].
    destruct (Z.eqb_spec ty Tag.FORCED_PAIR); [done |].
    destruct (Z.eqb_spec ty Tag.LONE); [done |]. reflexivity.
Qed.

Lemma tag_rendering_rule_witness :
  str 1 (Store [[VStr "x"; VInt 2]] [[("id", VStr "i")]])
      (VTag (VStr "p") (VInt Tag.NORMAL) [VStr "p"; VInt Tag.NORMAL] 0 0)
  = Ret ("<p id=" +:+ dquote +:+ "i" +:+ dquote +:+ ">x2</p>").
Proof.
  apply (proj1 (proj1 tag_rendering_rule 0
                  (Store [[VStr "x"; VInt 2]] [[("id", VStr "i")]])
                  "p" Tag.NORMAL [VStr "p"; VInt Tag.NORMAL] 0 0
                  ["x"; "2"] ("p id=" +:+ dquote +:+ "i" +:+ dquote)
                  eq_refl eq_refl)).
  left. discriminate.
Defined.

(** C2.  Flattening is invariant under the nesting of non-atomic
    iterables.  Whatever the values [ts] nest, at any depth, the
    constructors of [TagList] and [Tag], the extension of a [TagList] or
    [Tag], and the constructors of the pages build the same container over
    the same store (so the same flat contents list) from the nested
    arguments as from their leaves taken depth-first, left to right; this
    holds in particular of [[a, [b, [c, d]], e]] against [[a, b, c, d, e]].
    When the leaves are themselves flat items, the constructor returns, on
    a stack as deep as the nesting, and the contents list is the list of
    the leaves in that order. *)
Theorem flatten_nesting_invariant :
  (forall ts attrs st v st',
     builds TagList.__init__ (map embed ts) attrs st v st'
     <-> builds TagList.__init__ (concat (map leaves ts)) attrs st v st')
  /\ (forall name ty ts attrs st v st',
     builds Tag.__init__ (VStr name :: VInt ty :: map embed ts) attrs st v st'
     <-> builds Tag.__init__ (VStr name :: VInt ty :: concat (map leaves ts))
                attrs st v st')
  /\ (forall c ts newAttrs st v st',
     primitive c ->
     (exists n, call n c (map embed ts) newAttrs st = (Ret v, st'))
     <-> (exists n, call n c (concat (map leaves ts)) newAttrs st = (Ret v, st')))
  /\ (forall k pre ts attrs st v st',
     length pre = match k with SIMPLEPAGE => 0 | _ => 2 end ->
     builds (new_pseudotag k) (pre ++ map embed ts) attrs st v st'
     <-> builds (new_pseudotag k) (pre ++ concat (map leaves ts)) attrs st v st')
  /\ (forall a b c d e attrs st v st',
     builds TagList.__init__ [a; VList [b; VList [c; d]]; e] attrs st v st'
     <-> builds TagList.__init__ [a; b; c; d; e] attrs st v st')
  /\ (forall ts attrs st,
     Forall (fun x => flat_item x = true) (concat (map leaves ts)) ->
     TagList.__init__ (S (list_max (map nest_depth ts))) (map embed ts) attrs st
     = (Ret (VTagList [] (length (lists st)) (length (dicts st))),
        allocate (concat (map leaves ts)) (HTMLContainer.remap_attrs attrs) st)).
Proof.
  assert (HT : forall ts attrs st v st',
     builds TagList.__init__ (map embed ts) attrs st v st'
     <-> builds TagList.__init__ (concat (map leaves ts)) attrs st v st').
  { intros. by eapply init_nests_iff. }
  split; [exact HT | split; [| split; [| split; [| split]]]].
  - intros name ty ts attrs st v st'.
    destruct (negb (existsb (Tag.eq_int (VInt ty)) [Tag.NORMAL; Tag.LONE; Tag.FORCED_PAIR]))
      eqn:E.
    + assert (Hd : forall n c,
                Tag.digest (str n st) (VStr name :: VInt ty :: c)
                = Raise ValueError).
      { intros n c. by rewrite Tag_digest_cons, E. }
      unfold builds.
      split; intros [n H]; rewrite Tag_init_unfold in H;
        rewrite (init_raise_digest _ _ _ _ _ _ (Hd _ _)) in H; discriminate.
    + assert (Hd : forall n c,
                Tag.digest (str n st) (VStr name :: VInt ty :: c)
                = Ret (c, [VStr name; VInt ty], VTag (VStr name) (VInt ty))).
      { intros n c. by rewrite Tag_digest_cons, E. }
      unfold builds.
      split; intros [n H]; rewrite Tag_init_unfold in H;
        apply (init_ret _ _ _ _ _ _ _ _ _ _ (Hd _ _)) in H
          as (ys & Hf & -> & ->).
      * destruct (proj1 (flattens_nests_iff st ts ys) (ex_intro _ n Hf))
          as [m Hm].
        exists m. rewrite Tag_init_unfold.
        apply (init_ret _ _ _ _ _ _ _ _ _ _ (Hd _ _)). by exists ys.
      * destruct (proj2 (flattens_nests_iff st ts ys) (ex_intro _ n Hf))
          as [m Hm].
        exists m. rewrite Tag_init_unfold.
        apply (init_ret _ _ _ _ _ _ _ _ _ _ (Hd _ _)). by exists ys.
  - intros c ts newAttrs st v st' Hp. by apply call_nests_iff.
  - intros k pre ts attrs st v st' Hlen. by apply new_pseudotag_nests_iff.
  - intros a b c d e attrs st v st'.
    apply (HT [Leaf a;
               Nest "[...]" false [Leaf b; Nest "[...]" false [Leaf c; Leaf d]];
               Leaf e]).
  - apply TagList_init_flat_leaves.
Qed.

Lemma flatten_nesting_invariant_witness :
  TagList.__init__ 3
    [VStr "a"; VList [VInt 1; VList [VStr "c"; VBool true]]; VStr "e"] []
    empty_store
  = (Ret (VTagList [] 0 0),
     Store [[VStr "a"; VInt 1; VStr "c"; VBool true; VStr "e"]] [[]]).
Proof.
  apply (proj2 (proj2 (proj2 (proj2 (proj2 flatten_nesting_invariant))))
           [Leaf (VStr "a");
            Nest "[...]" false
              [Leaf (VInt 1);
               Nest "[...]" false [Leaf (VStr "c"); Leaf (VBool true)]];
            Leaf (VStr "e")] [] empty_store).
  repeat constructor.
Defined.

(** C3.  Extension never mutates the receiver.  For a [TagList] or [Tag]
    [c] living in the store, [c(x, **attrs)] is the constructor of the class
    of [c] applied to [c]'s [extraArgs], then [c]'s contents, then [x], with
    a copy of [c]'s attributes updated by [attrs] as keyword arguments.
    However the call ends, every list and dictionary of the store is as it
    was, [c]'s contents and attributes among them.  When it returns, the
    result is a container of the class and class-specific arguments of [c]
    over a new contents list and a new attributes dictionary; the list
    holds the flattening of [c]'s contents followed by [x], the dictionary
    what the constructor stores for the updated copy (its keys remapped;
    the updated copy itself when [c]'s dictionary is normal and [attrs] has
    no reserved-word alias).  Given flat contents and flat [x], the call
    returns. *)
Theorem extension_does_not_mutate n c x newAttrs st cl al :
  primitive c -> contents c = Some cl -> attrs c = Some al ->
  cl < length (lists st) -> al < length (dicts st) ->
  call n c x newAttrs st
  = type_ c n (default [] (extraArgs c) ++ read_list st cl ++ x)
            (dict_update (read_dict st al) newAttrs) st
  /\ (forall o st',
        call n c x newAttrs st = (o, st') ->
        extends st st'
        /\ read_list st' cl = read_list st cl
        /\ read_dict st' al = read_dict st al)
  /\ (forall c' st',
        call n c x newAttrs st = (Ret c', st') ->
        exists ys,
          c' = reseat c (length (lists st)) (length (dicts st))
          /\ contents c' <> Some cl /\ attrs c' <> Some al
          /\ flattens n st (read_list st cl ++ x) ys
          /\ read_list st' (length (lists st)) = ys
          /\ read_dict st' (length (dicts st))
             = HTMLContainer.remap_attrs
                 (dict_update (read_dict st al) newAttrs)
          /\ (normal (read_dict st al) ->
              Forall (fun k => HTMLContainer._specialAttrs_get k = k)
                     newAttrs.*1 ->
              read_dict st' (length (dicts st))
              = dict_update (read_dict st al) newAttrs))
  /\ (recognized c ->
      Forall (fun y => flat_item y = true) (read_list st cl) ->
      Forall (fun y => flat_item y = true) x ->
      call (S n) c x newAttrs st
      = (Ret (reseat c (length (lists st)) (length (dicts st))),
         allocate (read_list st cl ++ x)
           (HTMLContainer.remap_attrs (dict_update (read_dict st al) newAttrs))
           st)).
Proof.
  intros Hp Hc Ha Hcl Hal.
  split; [by apply call_primitive |].
  split; [| split].
  - intros o st' H. apply call_primitive_extends in H; [| done].
    split; [done |]. split; [by apply extends_read_list | by apply extends_read_dict].
  - intros c' st' H.
    apply (call_primitive_ret _ _ _ _ _ _ _ _ _ Hp Hc Ha) in H
      as (ys & Hf & -> & -> & _).
    exists ys. split; [done |].
    assert (Hnew : contents (reseat c (length (lists st)) (length (dicts st)))
                   = Some (length (lists st))
                   /\ attrs (reseat c (length (lists st)) (length (dicts st)))
                      = Some (length (dicts st))).
    { by destruct c. }
    destruct Hnew as [-> ->].
    split; [intros [= E]; lia |]. split; [intros [= E]; lia |].
    split; [done |].
    assert (Hd : read_dict (allocate ys
                   (HTMLContainer.remap_attrs
                      (dict_update (read_dict st al) newAttrs)) st)
                   (length (dicts st))
                 = HTMLContainer.remap_attrs
                     (dict_update (read_dict st al) newAttrs)).
    { unfold read_dict, allocate; cbn [dicts].
      by rewrite lookup_app_r, Nat.sub_diag by lia. }
    split; [| split; [exact Hd |]].
    + unfold read_list, allocate; cbn [lists].
      by rewrite lookup_app_r, Nat.sub_diag by lia.
    + intros Hn Hk. rewrite Hd. apply remap_attrs_normal.
      by apply normal_dict_update.
  - intros Hr Hfc Hfx.
    apply (call_primitive_ret _ _ _ _ _ _ _ _ _ Hp Hc Ha).
    exists (read_list st cl ++ x). split; [| done].
    apply flattens_flat_items. by apply Forall_app.
Qed.

Lemma extension_does_not_mutate_witness :
  call 1 (VTag (VStr "div") (VInt 0) [VStr "div"; VInt 0] 0 0)
       [VStr "b"] [("class_", VStr "k")]
       (Store [[VStr "a"]] [[("id", VStr "i")]])
  = (Ret (VTag (VStr "div") (VInt 0) [VStr "div"; VInt 0] 1 1),
     Store [[VStr "a"]; [VStr "a"; VStr "b"]]
           [[("id", VStr "i")]; [("id", VStr "i"); ("class", VStr "k")]]).
Proof.
  apply (proj2 (proj2 (proj2
           (extension_does_not_mutate 0
              (VTag (VStr "div") (VInt 0) [VStr "div"; VInt 0] 0 0)
              [VStr "b"] [("class_", VStr "k")]
              (Store [[VStr "a"]] [[("id", VStr "i")]]) 0 0
              eq_refl eq_refl eq_refl (le_n 1) (le_n 1))))).
  - reflexivity.
  - repeat constructor.
  - repeat constructor.
Defined.




(** C5.  Attribute rendering in the open tag.  For the attributes of a
    tag taken in order, a value [True] contributes the bare name, a value
    [False] nothing, and any other value [v] contributes [name="str(v)"],
    the string of the value as it is; the open tag is the tag name and
    these contributions joined by single spaces.  So
    [OPTION(selected = True)] renders as [<option selected />],
    [OPTION(selected = False)] as [<option />], and a value containing
    quotes and angle brackets appears unescaped. *)
Theorem attribute_rendering :
  (forall str_ tagName attrs toks,
     Forall2 (attr_token str_) attrs toks ->
     Tag._openTagGuts str_ (VStr tagName) attrs
     = Ret (join " " (tagName :: concat toks)))
  /\ (forall n st name ty ea c a toks,
     Forall2 (attr_token (str n st)) (read_dict st a) toks ->
     read_list st c = [] -> ty = Tag.NORMAL ->
     str (S n) st (VTag (VStr name) (VInt ty) ea c a)
     = Ret ("<" +:+ join " " (name :: concat toks) +:+ " />"))
  /\ str_of (do OPTION <- global "OPTION" ;;
             call 0 OPTION [] [("selected", VBool true)]) module_store 1
     = Ret "<option selected />"
  /\ str_of (do OPTION <- global "OPTION" ;;
             call 0 OPTION [] [("selected", VBool false)]) module_store 1
     = Ret "<option />"
  /\ str_of (do A <- global "A" ;;
             call 0 A [] [("href", VStr ("x" +:+ dquote +:+ "y<z&"));
                          ("n", VInt 1); ("b", VBool true)])
            module_store 1
     = Ret ("<a href=" +:+ dquote +:+ "x" +:+ dquote +:+ "y<z&" +:+ dquote
            +:+ " n=" +:+ dquote +:+ "1" +:+ dquote +:+ " b />").
Proof.
  split; [| split; [| split; [| split]]].
  - intros str_ tagName attrs toks H. unfold Tag._openTagGuts.
    by rewrite (openTagGuts_loop_tokens _ _ _ H).
  - intros n st name ty ea c a toks H Hc ->. simpl.
    rewrite Hc. simpl. unfold Tag._openTagGuts.
    by rewrite (openTagGuts_loop_tokens _ _ _ H).
  - reflexivity.
  - reflexivity.
  - reflexivity.
Qed.

Lemma attribute_rendering_witness :
  Tag._openTagGuts (str 0 empty_store) (VStr "input")
    [("type", VStr "checkbox"); ("checked", VBool true);
     ("disabled", VBool false); ("size", VInt 3)]
  = Ret ("input type=" +:+ dquote +:+ "checkbox" +:+ dquote +:+ " checked size="
         +:+ dquote +:+ "3" +:+ dquote).
Proof.
  apply (proj1 attribute_rendering (str 0 empty_store) "input"
           [("type", VStr "checkbox"); ("checked", VBool true);
            ("disabled", VBool false); ("size", VInt 3)]
           [["type=" +:+ dquote +:+ "checkbox" +:+ dquote]; ["checked"]; [];
            ["size=" +:+ dquote +:+ "3" +:+ dquote]]).
  constructor;
    [apply (attr_token_other _ "type" (VStr "checkbox") "checkbox");
       [done | reflexivity] |].
  constructor; [apply attr_token_True |].
  constructor; [apply attr_token_False |].
  constructor;
    [apply (attr_token_other _ "size" (VInt 3) "3"); [done | reflexivity] |].
  constructor.
Defined.

(** C6.  Atomicity override.  A truthy [_HTMLAtomic] decides, whatever the
    type of the object, and a string is atomic.  A call of [_r_flatten] on
    a string or on a marked object appends that one object to the contents
    and returns, although both can be iterated (a string would yield its
    characters, a marked object its items).  So a constructor given strings
    and marked objects, directly or inside nested iterables, stores each of
    them as one child, in order. *)
Theorem atomicity_override :
  (forall x, _HTMLAtomic x = Some true -> HTMLContainer._atomicOverride x = true)
  /\ (forall s, HTMLContainer._atomicOverride (VStr s) = true
                /\ iterable (VStr s) = true)
  /\ (forall n l x st,
        isinstance_str x = true \/ _HTMLAtomic x = Some true ->
        HTMLContainer._r_flatten (S n) l x st = (Ret tt, append_to l [x] st))
  /\ (forall ts attrs st,
        Forall (fun x => isinstance_str x = true \/ _HTMLAtomic x = Some true)
               (concat (map leaves ts)) ->
        TagList.__init__ (S (list_max (map nest_depth ts))) (map embed ts)
                         attrs st
        = (Ret (VTagList [] (length (lists st)) (length (dicts st))),
           allocate (concat (map leaves ts))
                    (HTMLContainer.remap_attrs attrs) st)).
Proof.
  assert (Hat : forall x, isinstance_str x = true \/ _HTMLAtomic x = Some true ->
                          HTMLContainer._atomicOverride x = true).
  { intros x [H | H]; unfold HTMLContainer._atomicOverride; rewrite H; [done |].
    by destruct (isinstance_str x). }
  split; [intros x H; apply Hat; by right |].
  split; [done |].
  split.
  - intros n l x st H. apply r_flatten_flat_item, flat_item_atomic, Hat, H.
  - intros ts attrs st H. apply TagList_init_flat_leaves.
    eapply Forall_impl; [exact H |]. intros x Hx. apply flat_item_atomic, Hat, Hx.
Qed.

Lemma atomicity_override_witness :
  TagList.__init__ 2
    [VStr "abc"; VList [VObj "o" (Some true) (Some [VStr "x"; VStr "y"])]] []
    empty_store
  = (Ret (VTagList [] 0 0),
     Store [[VStr "abc"; VObj "o" (Some true) (Some [VStr "x"; VStr "y"])]] [[]]).
Proof.
  apply (proj2 (proj2 (proj2 atomicity_override))
           [Leaf (VStr "abc");
            Nest "[...]" false
              [Leaf (VObj "o" (Some true) (Some [VStr "x"; VStr "y"]))]]
           [] empty_store).
  simpl.
  constructor; [left; reflexivity | constructor; [right; reflexivity | constructor]].
Defined.

(** C7 as the specification states it fails: a [tagType] outside the three
    constants does not always raise [ValueError].  [Tag('div', 'x')] raises
    [TypeError]: the [%d] of the error message refuses the string before
    the [ValueError] is built. *)
Lemma unknown_tagType_counterexample :
  existsb (Tag.eq_int (VStr "x")) [Tag.NORMAL; Tag.LONE; Tag.FORCED_PAIR]
  = false
  /\ forall n,
       Tag.__init__ n [VStr "div"; VStr "x"] [] empty_store
       = (Raise TypeError, empty_store).
Proof. split; [reflexivity |]. intros n. by destruct n. Qed.



(** C8.  Non-iterable fallback.  For a value that is not a string, has no
    truthy [_HTMLAtomic] and cannot be iterated, a call of [_r_flatten]
    appends the value itself to the contents and returns; no call on a
    value that cannot be iterated raises or fails to return; a constructor
    given such values stores them as they are. *)
Theorem non_iterable_fallback :
  (forall n l x st,
     isinstance_str x = false -> _HTMLAtomic x <> Some true ->
     iterable x = false ->
     HTMLContainer._atomicOverride x = false
     /\ HTMLContainer._r_flatten (S n) l x st = (Ret tt, append_to l [x] st))
  /\ (forall n l x st,
     iterable x = false ->
     HTMLContainer._r_flatten (S n) l x st = (Ret tt, append_to l [x] st))
  /\ (forall n xs attrs st,
     Forall (fun x => iterable x = false) xs ->
     TagList.__init__ (S n) xs attrs st
     = (Ret (VTagList [] (length (lists st)) (length (dicts st))),
        allocate xs (HTMLContainer.remap_attrs attrs) st)).
Proof.
  assert (Hni : forall x, iterable x = false -> flat_item x = true).
  { intros x H. unfold flat_item. rewrite H. apply orb_true_r. }
  split; [| split].
  - intros n l x st Hs Hm Hi. split.
    + unfold HTMLContainer._atomicOverride. rewrite Hs.
      by destruct (_HTMLAtomic x) as [[] |].
    + by apply r_flatten_flat_item, Hni.
  - intros n l x st Hi. by apply r_flatten_flat_item, Hni.
  - intros n xs attrs st H.
    apply (init_ret TagList.digest _ _ _ _ xs [] VTagList); [done |].
    exists xs. split; [| done]. apply flattens_flat_items.
    eapply Forall_impl; [exact H |]. exact Hni.
Qed.

Lemma non_iterable_fallback_witness :
  TagList.__init__ 1 [VInt 5; VOpaque "<obj>"; VBool true] [] empty_store
  = (Ret (VTagList [] 0 0),
     Store [[VInt 5; VOpaque "<obj>"; VBool true]] [[]]).
Proof.
  apply (proj2 (proj2 non_iterable_fallback) 0
           [VInt 5; VOpaque "<obj>"; VBool true] [] empty_store).
  repeat constructor.
Defined.

(** C9.  Composite delegation.  [Pseudotag.__init__] returns exactly when
    its [heart] returns an inner container [I] with the extra arguments
    and its [skeleton], called on [I] and those arguments in the store the
    heart left, returns the outer container [O]; the [Pseudotag] [p] it
    then returns holds that [I] and that [O], and a new attributes
    dictionary is all it adds to the store the skeleton left.  The
    [contents] of [p] is the very list of [I] (the same location of the
    store); [str(p)] is [str(O)]; [p[i]] is [I.contents[i]], in every
    store, and an item assigned through [p] is read back through [I]. *)
Theorem pseudotag_delegation :
  (forall k heart_ skeleton_ n args attrs st p st',
     Pseudotag.__init__ k heart_ skeleton_ n args attrs st = (Ret p, st') ->
     exists I O ea cl st1 st2,
       heart_ n args attrs st = (Ret (I, ea), st1)
       /\ skeleton_ n I ea st1 = (Ret O, st2)
       /\ contents I = Some cl
       /\ p = VPseudotag k I O ea cl (length (dicts st2))
       /\ st' = Store (lists st2)
                  (dicts st2 ++ [HTMLContainer.remap_attrs attrs])
       /\ contents p = contents I
       /\ (forall m st3, str (S m) st3 p = str m st3 O)
       /\ (forall st3 s, renders st3 p s <-> renders st3 O s)
       /\ (forall st3 i,
             HTMLContainer.__getitem__ p i st3
             = HTMLContainer.__getitem__ I i st3)
       /\ (forall st3 i,
             (HTMLContainer.__getitem__ p i st3).1
             = match read_list st3 cl !! i with
               | Some x => Ret x
               | None => Raise IndexError
               end)
       /\ (forall st3 i v st4,
             HTMLContainer.__setitem__ p i v st3 = (Ret tt, st4) ->
             HTMLContainer.__getitem__ I i st4 = (Ret v, st4)))
  /\ (forall k heart_ skeleton_ n args attrs st I ea st1 O st2 cl,
       heart_ n args attrs st = (Ret (I, ea), st1) ->
       skeleton_ n I ea st1 = (Ret O, st2) ->
       contents I = Some cl ->
       Pseudotag.__init__ k heart_ skeleton_ n args attrs st
       = (Ret (VPseudotag k I O ea cl (length (dicts st2))),
          Store (lists st2) (dicts st2 ++ [HTMLContainer.remap_attrs attrs]))).
Proof.
  split.
  - intros k heart_ skeleton_ n args attrs st p st'.
    unfold Pseudotag.__init__. intros H.
    apply bind_inv_ret in H as ([I ea] & st1 & Hh & H).
    apply bind_inv_ret in H as (O & st2 & Hs & H).
    apply bind_inv_ret in H as (cl & st3 & Hc & H).
    apply bind_inv_ret in H as (al & st4 & Ha & H).
    inversion H; subst; clear H.
    unfold getattr in Hc. destruct (contents I) as [cl' |] eqn:EI; [| done].
    inversion Hc; subst; clear Hc.
    unfold new_dict in Ha. inversion Ha; subst; clear Ha.
    exists I, O, ea, cl, st1, st3.
    split; [done |]. split; [done |]. split; [done |]. split; [done |].
    split; [done |]. split; [done |]. split; [done |].
    split; [| split; [| split]].
    + intros s0 s. split; intros [m Hm].
      * destruct m as [| m]; [done |]. by exists m.
      * by exists (S m).
    + intros s0 i. unfold HTMLContainer.__getitem__, bind, getattr, ret.
      simpl. by rewrite EI.
    + intros s0 i. unfold HTMLContainer.__getitem__, bind, getattr, ret. simpl.
      by destruct (read_list s0 cl !! i).
    + intros s0 i v s3. unfold HTMLContainer.__setitem__, HTMLContainer.__getitem__,
        bind, getattr, ret, list_setitem. simpl. rewrite EI.
      case_bool_decide as Hi; [| done]. intros [= <-].
      unfold read_list in *; cbn [lists].
      rewrite list_lookup_alter, decide_True by done.
      destruct (lists s0 !! cl) as [xs |] eqn:E; simpl in *; [| lia].
      by rewrite list_lookup_insert_eq.
  - intros k heart_ skeleton_ n args attrs st I ea st1 O st2 cl Hh Hs Hc.
    unfold Pseudotag.__init__.
    rewrite (bind_ret _ _ _ _ _ Hh). cbv beta iota.
    rewrite (bind_ret _ _ _ _ _ Hs).
    unfold bind, getattr, new_dict, ret. by rewrite Hc.
Qed.

Lemma pseudotag_delegation_witness :
  exists st',
    new_pseudotag PAGE 1 [VStr "T"; VStr "a.css"; VStr "hello"] [] module_store
    = (Ret (VPseudotag PAGE
              (VTag (VStr "body") (VInt 0) [VStr "body"; VInt 0] 52 52)
              (VTagList [] 58 58) [VStr "T"; VStr "a.css"] 52 59), st')
    /\ (heart PAGE 1 [VStr "T"; VStr "a.css"; VStr "hello"] [] module_store).1
       = Ret (VTag (VStr "body") (VInt 0) [VStr "body"; VInt 0] 52 52,
              [VStr "T"; VStr "a.css"])
    /\ str 5 st' (VPseudotag PAGE
                    (VTag (VStr "body") (VInt 0) [VStr "body"; VInt 0] 52 52)
                    (VTagList [] 58 58) [VStr "T"; VStr "a.css"] 52 59)
       = str 4 st' (VTagList [] 58 58)
    /\ str 4 st' (VTagList [] 58 58)
       = Ret (page_text "T" (link_text "a.css") "<body>hello</body>")
    /\ read_list st' 52 = [VStr "hello"]
    /\ HTMLContainer.__getitem__
         (VPseudotag PAGE
            (VTag (VStr "body") (VInt 0) [VStr "body"; VInt 0] 52 52)
            (VTagList [] 58 58) [VStr "T"; VStr "a.css"] 52 59) 0 st'
       = HTMLContainer.__getitem__
           (VTag (VStr "body") (VInt 0) [VStr "body"; VInt 0] 52 52) 0 st'.
Proof.
  destruct (new_pseudotag PAGE 1 [VStr "T"; VStr "a.css"; VStr "hello"] []
              module_store) as [o st'] eqn:E.
  pose proof E as E'. vm_compute in E'. injection E' as <- Est.
  destruct (proj1 pseudotag_delegation PAGE (heart PAGE) (skeleton PAGE) 1
              [VStr "T"; VStr "a.css"; VStr "hello"] [] module_store _ _ E)
    as (I & O & ea & cl & st1 & st2 & Hh & Hs & Hc & Hp & Hst & _ & Hstr & _
        & Hget & _).
  injection Hp as <- <- <- <- _.
  exists st'. split; [reflexivity |]. split; [by rewrite Hh |].
  split; [apply Hstr |]. split; [by rewrite <- Est |].
  split; [by rewrite <- Est |]. apply Hget.
Defined.

(** C10, at [SIMPLEPAGE].  The store of [simplepage_scenario] is reached
    by constructor and extension calls alone, and its contents lists are
    flat; but the page [p = SIMPLEPAGE(DIV(SPAN('z')))] has the contents
    [[SPAN('z')]], and [p()], the page extended by nothing, has the contents
    [['z']]: the contents of [p] are not a prefix of them.  ([heart] returns
    the [HTML] tag where a tuple is unpacked, so [inner] is the first child
    of that tag.) *)
Theorem simplepage_extension_loses_contents :
  exists p p' st cl cl',
    simplepage_scenario module_store = (Ret (p, p'), st)
    /\ built st
    /\ flat_store st
    /\ contents p = Some cl
    /\ contents p' = Some cl'
    /\ read_list st cl = [VTag (VStr "span") (VInt 0) [VStr "span"; VInt 0] 52 52]
    /\ read_list st 52 = [VStr "z"]
    /\ read_list st cl' = [VStr "z"]
    /\ ~ (read_list st cl `prefix_of` read_list st cl').
Proof.
  set (SPAN := VTag (VStr "span") (VInt 0) [VStr "span"; VInt 0] 29 29).
  set (DIV := VTag (VStr "div") (VInt 0) [VStr "div"; VInt 0] 7 7).
  set (span := VTag (VStr "span") (VInt 0) [VStr "span"; VInt 0] 52 52).
  set (div := VTag (VStr "div") (VInt 0) [VStr "div"; VInt 0] 53 53).
  destruct (call 1 SPAN [VStr "z"] [] module_store) as [o1 st1] eqn:E1.
  destruct (call 1 DIV [span] [] st1) as [o2 st2] eqn:E2.
  destruct (new_pseudotag SIMPLEPAGE 1 [div] [] st2) as [o3 st3] eqn:E3.
  pose proof (built_call _ _ _ _ _ _ _ built_module E1) as B1.
  pose proof (built_call _ _ _ _ _ _ _ B1 E2) as B2.
  pose proof (built_Pseudotag _ _ _ _ _ _ _ B2 E3) as B3.
  vm_compute in E1. injection E1 as <- <-.
  vm_compute in E2. injection E2 as <- <-.
  vm_compute in E3. injection E3 as <- <-.
  match type of B3 with built ?s => set (st3 := s) in * end.
  set (p := VPseudotag SIMPLEPAGE div (VTagList [] 56 56) [] 53 57).
  destruct (call 1 p [] [] st3) as [o4 st4] eqn:E4.
  pose proof (built_call _ _ _ _ _ _ _ B3 E4) as B4.
  vm_compute in E4. injection E4 as <- <-.
  do 5 eexists.
  split; [vm_compute; reflexivity |].
  split; [exact B4 |].
  split; [exact (built_flat_store _ B4) |].
  split; [reflexivity |]. split; [reflexivity |].
  split; [reflexivity |]. split; [reflexivity |]. split; [reflexivity |].
  intros [k Hk]. vm_compute in Hk. discriminate.
Qed.

(** * Further properties of the code *)

(** X1.  Constructing never changes what exists.  A constructor of
    [TagList] or [Tag], the constructor of a page, the extension of any
    container, [join] and [+]: however the call ends, every contents list
    and every attributes dictionary that the store held before the call is
    unchanged after it. *)
Theorem operations_only_allocate n k self x args attrs st o st' :
  TagList.__init__ n args attrs st = (o, st')
  \/ Tag.__init__ n args attrs st = (o, st')
  \/ new_pseudotag k n args attrs st = (o, st')
  \/ call n self args attrs st = (o, st')
  \/ HTMLContainer'.join n self x st = (o, st')
  \/ HTMLContainer'.__add__ n self x st = (o, st')
  \/ HTMLContainer'.__radd__ n self x st = (o, st') ->
  extends st st'
  /\ (forall l, l < length (lists st) -> read_list st' l = read_list st l)
  /\ (forall a, a < length (dicts st) -> read_dict st' a = read_dict st a).
Proof.
  intros H.
  assert (He : extends st st').
  { destruct H as [H | [H | [H | [H | [H | [H | H]]]]]].
    - first [by eapply grows_init | by eapply grows_Tag_init].
    - first [by eapply grows_init | by eapply grows_Tag_init].
    - by eapply grows_new_pseudotag.
    - by eapply grows_any_call.
    - by eapply grows_join.
    - first [by eapply grows_init | by eapply grows_Tag_init].
    - first [by eapply grows_init | by eapply grows_Tag_init]. }
  split; [done |]. split; intros ? ?.
  - by apply extends_read_list.
  - by apply extends_read_dict.
Qed.

Lemma operations_only_allocate_witness :
  extends module_store
    (new_pseudotag PAGE 1 [VStr "t"; VStr "c.css"; VStr "hello"] [] module_store).2.
Proof.
  apply (operations_only_allocate 1 PAGE (VStr "x") (VStr "x")
           [VStr "t"; VStr "c.css"; VStr "hello"] [] module_store
           (new_pseudotag PAGE 1 [VStr "t"; VStr "c.css"; VStr "hello"] []
              module_store).1
           (new_pseudotag PAGE 1 [VStr "t"; VStr "c.css"; VStr "hello"] []
              module_store).2).
  right; right; left. by destruct (new_pseudotag _ _ _ _ _).
Defined.

(** X2.  The names of the module stay what the import made them.  Each
    key of [_loneTags], [_normalTags] and [_forcedPairTags] is bound to a
    [Tag] of the table's tag name and tag type; in every store reached by
    constructor and extension calls that tag still has no contents and no
    attributes, and it renders as its bare tag: [<br>], [<div />],
    [<script></script>]. *)
Theorem predefined_tags_stay_as_imported st table ty K v :
  built st -> (table, ty) ∈ tag_tables -> (K, v) ∈ table ->
  exists c a,
    global K st = (Ret (VTag (VStr v) (VInt ty) [VStr v; VInt ty] c a), st)
    /\ read_list st c = [] /\ read_dict st a = []
    /\ str 1 st (VTag (VStr v) (VInt ty) [VStr v; VInt ty] c a)
       = Ret (tag_text false ty v EmptyString v).
Proof.
  intros Hb Ht HK.
  pose proof module_tables_bound as HF.
  rewrite Forall_forall in HF. specialize (HF _ Ht). cbn [fst snd] in HF.
  rewrite Forall_forall in HF.
  destruct (HF _ HK) as (c & a & Hg & Hc & Ha & Hl & Hd). cbn [fst snd] in Hg.
  pose proof (built_extends_module _ Hb) as He.
  assert (Hl' : read_list st c = []).
  { by rewrite (extends_read_list _ _ _ He Hc). }
  assert (Hd' : read_dict st a = []).
  { by rewrite (extends_read_dict _ _ _ He Ha). }
  exists c, a. split; [| split; [done | split; [done |]]].
  - unfold global, lookup_global. by rewrite Hg.
  - by apply str_empty_tag.
Qed.

Lemma predefined_tags_stay_as_imported_witness :
  exists c a,
    global "DIV" (call 1 (VTag (VStr "div") (VInt 0) [VStr "div"; VInt 0] 7 7)
                    [VStr "x"] [("id", VStr "i")] module_store).2
    = (Ret (VTag (VStr "div") (VInt Tag.NORMAL) [VStr "div"; VInt Tag.NORMAL] c a),
       (call 1 (VTag (VStr "div") (VInt 0) [VStr "div"; VInt 0] 7 7)
          [VStr "x"] [("id", VStr "i")] module_store).2)
    /\ str 1 (call 1 (VTag (VStr "div") (VInt 0) [VStr "div"; VInt 0] 7 7)
                [VStr "x"] [("id", VStr "i")] module_store).2
           (VTag (VStr "div") (VInt Tag.NORMAL) [VStr "div"; VInt Tag.NORMAL] c a)
       = Ret "<div />".
Proof.
  destruct (predefined_tags_stay_as_imported
              (call 1 (VTag (VStr "div") (VInt 0) [VStr "div"; VInt 0] 7 7)
                 [VStr "x"] [("id", VStr "i")] module_store).2
              _normalTags Tag.NORMAL "DIV" "div")
    as (c & a & Hg & _ & _ & Hs).
  - eapply (built_call 1 (VTag (VStr "div") (VInt 0) [VStr "div"; VInt 0] 7 7)
              [VStr "x"] [("id", VStr "i")] module_store);
      [apply built_module | apply surjective_pairing].
  - unfold tag_tables. apply list_elem_of_further, list_elem_of_here.
  - unfold _normalTags. do 5 apply list_elem_of_further. apply list_elem_of_here.
  - exists c, a. split; [exact Hg | exact Hs].
Defined.

(** X3.  Contents stay flat.  In every store reached from the imported
    module by constructor and extension calls, whatever their arguments and
    however they end, each item of each contents list is atomic (a string,
    a [Tag], a page, an object whose [_HTMLAtomic] is true) or cannot be
    iterated: no contents list holds a [TagList] or a list. *)
Theorem contents_stay_flat st l x :
  built st -> x ∈ read_list st l ->
  (HTMLContainer._atomicOverride x = true \/ iterable x = false)
  /\ (forall ea c a, x <> VTagList ea c a)
  /\ (forall xs, x <> VList xs).
Proof.
  intros Hb Hx.
  pose proof (flat_store_read_list st l (built_flat_store _ Hb)) as Hf.
  rewrite Forall_forall in Hf. specialize (Hf _ Hx).
  split; [| split].
  - unfold flat_item in Hf. apply orb_true_iff in Hf as [H | H]; [by left |].
    right. by apply negb_true_iff.
  - intros ea c a ->. discriminate.
  - intros xs ->. discriminate.
Qed.

Lemma contents_stay_flat_witness :
  HTMLContainer._atomicOverride (VStr "b") = true \/ iterable (VStr "b") = false.
Proof.
  apply (contents_stay_flat
           (TagList.__init__ 3 [VStr "a"; VList [VStr "b"; VList []]] []
              module_store).2 52 (VStr "b")).
  - eapply (built_TagList 3 [VStr "a"; VList [VStr "b"; VList []]] []
              module_store);
      [apply built_module | apply surjective_pairing].
  - vm_compute. apply list_elem_of_further, list_elem_of_here.
Defined.

(** X4.  A [TagList] among the arguments of a constructor dissolves into
    its items; a [Tag] or a page stays one child.  Over a store with flat
    contents, when each argument is a flat item or a [TagList] of the
    store, the constructors of [TagList] and of [Tag] return, and the new
    contents list is the arguments in order, each [TagList] replaced by
    its items. *)
Theorem TagList_arguments_dissolve n name ty args attrs st :
  flat_store st -> Forall (plain st) args ->
  TagList.__init__ (S (S n)) args attrs st
  = (Ret (VTagList [] (length (lists st)) (length (dicts st))),
     allocate (concat (map (splice st) args))
              (HTMLContainer.remap_attrs attrs) st)
  /\ (ty = Tag.NORMAL \/ ty = Tag.LONE \/ ty = Tag.FORCED_PAIR ->
      Tag.__init__ (S (S n)) (VStr name :: VInt ty :: args) attrs st
      = (Ret (VTag (VStr name) (VInt ty) [VStr name; VInt ty]
                   (length (lists st)) (length (dicts st))),
         allocate (concat (map (splice st) args))
                  (HTMLContainer.remap_attrs attrs) st)).
Proof.
  intros Hst Ha. split; [by apply TagList_init_plain |].
  intros Hty. rewrite Tag_init_unfold.
  apply (init_plain (Tag.digest (str _ st))); [done | | done].
  rewrite Tag_digest_cons. apply recognized_spec in Hty. by rewrite Hty.
Qed.

Lemma TagList_arguments_dissolve_witness :
  Tag.__init__ 2
    [VStr "ul"; VInt 0; VStr "x"; VTagList [] 0 0;
     VTag (VStr "li") (VInt 0) [VStr "li"; VInt 0] 1 1] []
    (Store [[VStr "a"; VStr "b"]; [VStr "c"]] [[]; []])
  = (Ret (VTag (VStr "ul") (VInt 0) [VStr "ul"; VInt 0] 2 2),
     Store [[VStr "a"; VStr "b"]; [VStr "c"];
            [VStr "x"; VStr "a"; VStr "b";
             VTag (VStr "li") (VInt 0) [VStr "li"; VInt 0] 1 1]]
           [[]; []; []]).
Proof.
  assert (Hst : flat_store (Store [[VStr "a"; VStr "b"]; [VStr "c"]] [[]; []]))
    by repeat constructor.
  assert (Ha : Forall (plain (Store [[VStr "a"; VStr "b"]; [VStr "c"]] [[]; []]))
                 [VStr "x"; VTagList [] 0 0;
                  VTag (VStr "li") (VInt 0) [VStr "li"; VInt 0] 1 1]).
  { apply Forall_cons. split; [by left |].
    apply Forall_cons. split.
    { unfold plain. right. do 3 eexists. split; [reflexivity | simpl; lia]. }
    apply Forall_cons. split; [by left | by apply Forall_nil]. }
  apply (proj2 (TagList_arguments_dissolve 0 "ul" 0 _ [] _ Hst Ha)).
  by left.
Defined.

(** X5.  A [TagList] renders to the strings of its arguments, one after
    the other, whatever attributes it is given.  Over a store with flat
    contents, for arguments that are flat items or [TagList]s of the store,
    [str(TagList( *args, **attrs))] is the concatenation of [str(x)] over
    the arguments [x]. *)
Theorem TagList_renders_its_arguments n args attrs st :
  flat_store st -> Forall (plain st) args ->
  exists v st',
    TagList.__init__ (S (S n)) args attrs st = (Ret v, st')
    /\ forall ps, Forall2 (renders st') args ps ->
                  renders st' v (join EmptyString ps).
Proof.
  intros Hst Ha. do 2 eexists. split; [by apply TagList_init_plain |].
  intros ps Hps. by apply TagList_plain_renders.
Qed.

Lemma TagList_renders_its_arguments_witness :
  exists v st',
    TagList.__init__ 2 [VStr "x"; VTagList [] 0 0; VInt 7] [("id", VStr "i")]
      (Store [[VStr "a"; VStr "b"]] [[]])
    = (Ret v, st')
    /\ renders st' v "xab7".
Proof.
  destruct (TagList_renders_its_arguments 0
              [VStr "x"; VTagList [] 0 0; VInt 7] [("id", VStr "i")]
              (Store [[VStr "a"; VStr "b"]] [[]]))
    as (v & st' & H & Hr).
  - repeat constructor.
  - apply Forall_cons. split; [by left |].
    apply Forall_cons. split.
    { unfold plain. right. do 3 eexists. split; [reflexivity | simpl; lia]. }
    apply Forall_cons. split; [by left | by apply Forall_nil].
  - exists v, st'. split; [exact H |].
    apply (Hr ["x"; "ab"; "7"]).
    injection H as <- <-.
    repeat (apply Forall2_cons; split; [by exists 1 |]). constructor.
Defined.





(** X8.  [join] renders like [str.join].  For [self] a [Tag], a page or
    a [TagList] of a store with flat contents, and [x] a non-atomic
    iterable whose items are flat items or [TagList]s of the store,
    [self.join(x)] returns a [TagList], and its string is the strings of
    the items of [x] separated by [str(self)]. *)
Theorem join_renders_separated n self x items st :
  flat_store st -> plain st self ->
  HTMLContainer._atomicOverride x = false -> py_iter st x = Some items ->
  Forall (plain st) items ->
  exists v st',
    HTMLContainer'.join (S (S n)) self x st = (Ret v, st')
    /\ forall s ps, renders st' self s -> Forall2 (renders st') items ps ->
                    renders st' v (String.concat s ps).
Proof.
  intros Hst Hs Hx Hi Hit.
  pose proof (join_args_plain st self items Hs Hit) as Hp.
  rewrite (join_unfold _ _ _ _ items Hx Hi).
  destruct items as [| first rest]; do 2 eexists;
    (split; [by apply TagList_init_plain |]); intros s ps Hrs Hps.
  - apply Forall2_nil_inv_l in Hps as ->.
    apply (TagList_plain_renders st [] _ [] Hst Hp). constructor.
  - apply Forall2_cons_inv_l in Hps as (p & ps' & Hy & Hrest & ->).
    rewrite <- join_join_strings.
    apply (TagList_plain_renders st _ _ (p :: join_strings s ps') Hst Hp).
    apply Forall2_cons. split; [done |]. by apply join_temp_renders.
Qed.

Lemma join_renders_separated_witness :
  exists v st',
    HTMLContainer'.join 2 (VTag (VStr "br") (VInt 1) [VStr "br"; VInt 1] 0 0)
      (VList [VStr "a"; VInt 2; VStr "c"]) (Store [[]] [[]])
    = (Ret v, st')
    /\ renders st' v "a<br>2<br>c".
Proof.
  destruct (join_renders_separated 0 (VTag (VStr "br") (VInt 1) [VStr "br"; VInt 1] 0 0)
              (VList [VStr "a"; VInt 2; VStr "c"])
              [VStr "a"; VInt 2; VStr "c"] (Store [[]] [[]]))
    as (v & st' & H & Hr).
  - repeat constructor.
  - by left.
  - reflexivity.
  - reflexivity.
  - repeat first [by apply Forall_nil | apply Forall_cons; split; [by left |]].
  - exists v, st'. split; [exact H |].
    apply (Hr "<br>" ["a"; "2"; "c"]); injection H as <- <-.
    + by exists 1.
    + repeat (apply Forall2_cons; split; [by exists 0 |]). constructor.
Defined.

(** X9.  The edges of [join].  An atomic [x] (a string, a [Tag], a page)
    is taken whole: the result holds [x] as its one child, so a string is
    not split into characters.  An [x] that is neither atomic nor iterable
    raises [TypeError] and leaves the store alone, whereas a constructor
    takes such a value as a child.  An empty iterable gives an empty
    [TagList], and one item gives that item without any separator. *)
Theorem join_edge_cases n self x st :
  (HTMLContainer._atomicOverride x = true ->
   HTMLContainer'.join (S n) self x st
   = (Ret (VTagList [] (length (lists st)) (length (dicts st))),
      allocate [x] [] st))
  /\ (HTMLContainer._atomicOverride x = false -> iterable x = false ->
      HTMLContainer'.join n self x st = (Raise TypeError, st)
      /\ TagList.__init__ (S n) [x] [] st
         = (Ret (VTagList [] (length (lists st)) (length (dicts st))),
            allocate [x] [] st))
  /\ (HTMLContainer._atomicOverride x = false -> py_iter st x = Some [] ->
      HTMLContainer'.join n self x st
      = (Ret (VTagList [] (length (lists st)) (length (dicts st))),
         allocate [] [] st))
  /\ (forall y,
        HTMLContainer._atomicOverride x = false -> py_iter st x = Some [y] ->
        flat_item y = true ->
        HTMLContainer'.join (S n) self x st
        = (Ret (VTagList [] (length (lists st)) (length (dicts st))),
           allocate [y] [] st)).
Proof.
  split; [| split; [| split]].
  - intros Hx. unfold HTMLContainer'.join. rewrite Hx.
    apply TagList_init_flat. constructor; [| constructor].
    by apply flat_item_atomic.
  - intros Hx Hi. split.
    + unfold HTMLContainer'.join. rewrite Hx.
      by rewrite (proj2 (py_iter_None st x) Hi).
    + apply TagList_init_flat. constructor; [| constructor].
      unfold flat_item. rewrite Hi. apply orb_true_r.
  - intros Hx Hi. rewrite (join_unfold _ _ _ _ [] Hx Hi).
    apply (init_ret TagList.digest n [] [] st [] [] VTagList _ _ eq_refl).
    exists []. split; [| done]. unfold flattens. by destruct n.
  - intros y Hx Hi Hy. rewrite (join_unfold _ _ _ _ [y] Hx Hi).
    apply TagList_init_flat. by repeat constructor.
Qed.

Lemma join_edge_cases_witness :
  HTMLContainer'.join 1 (VTag (VStr "br") (VInt 1) [VStr "br"; VInt 1] 0 0) (VStr "abc")
    (Store [[]] [[]])
  = (Ret (VTagList [] 1 1), Store [[]; [VStr "abc"]] [[]; []]).
Proof.
  apply (proj1 (join_edge_cases 0 (VTag (VStr "br") (VInt 1) [VStr "br"; VInt 1] 0 0)
                  (VStr "abc") (Store [[]] [[]]))).
  reflexivity.
Defined.

(** X10.  Assigning and reading by index.  For an index inside the
    contents, [self[i] = v] returns; afterwards [self[i]] is [v], every
    other index reads as before, the contents have the length they had,
    and no other contents list and no attributes dictionary has changed.
    For an index past the end, both [self[i] = v] and [self[i]] raise
    [IndexError] and leave the store alone. *)
Theorem setitem_getitem_round_trip self c i v st :
  contents self = Some c ->
  (i < length (read_list st c) ->
   exists st',
     HTMLContainer.__setitem__ self i v st = (Ret tt, st')
     /\ HTMLContainer.__getitem__ self i st' = (Ret v, st')
     /\ (forall j, j <> i ->
           (HTMLContainer.__getitem__ self j st').1
           = (HTMLContainer.__getitem__ self j st).1)
     /\ length (read_list st' c) = length (read_list st c)
     /\ (forall l, l <> c -> read_list st' l = read_list st l)
     /\ dicts st' = dicts st)
  /\ (length (read_list st c) <= i ->
      HTMLContainer.__setitem__ self i v st = (Raise IndexError, st)
      /\ HTMLContainer.__getitem__ self i st = (Raise IndexError, st)).
Proof.
  intros Hc. split.
  - intros Hi. pose proof (read_list_in_store _ _ _ Hi) as Hcl.
    eexists. split; [by apply setitem_unfold |].
    assert (R : read_list
                  (Store (alter (fun xs => <[i:=v]> xs) c (lists st)) (dicts st)) c
                = <[i:=v]> (read_list st c)).
    { by rewrite read_list_alter_eq. }
    split; [| split; [| split; [| split]]].
    + rewrite (getitem_unfold _ _ _ _ Hc), R.
      by rewrite list_lookup_insert_eq.
    + intros j Hj. rewrite !(getitem_unfold _ _ _ _ Hc), R.
      rewrite list_lookup_insert_ne by done.
      by destruct (read_list st c !! j).
    + by rewrite R, length_insert.
    + intros l Hl. by apply read_list_alter_ne.
    + done.
  - intros Hi. split.
    + unfold HTMLContainer.__setitem__, getattr. rewrite Hc.
      unfold bind, ret, list_setitem.
      rewrite bool_decide_eq_false_2 by lia. done.
    + rewrite (getitem_unfold _ _ _ _ Hc).
      by rewrite (lookup_ge_None_2 _ _ Hi).
Qed.

Lemma setitem_getitem_round_trip_witness :
  exists st',
    HTMLContainer.__setitem__ (VTagList [] 0 0) 1 (VStr "z")
      (Store [[VStr "a"; VStr "b"]] [[]]) = (Ret tt, st')
    /\ HTMLContainer.__getitem__ (VTagList [] 0 0) 1 st' = (Ret (VStr "z"), st').
Proof.
  destruct (proj1 (setitem_getitem_round_trip (VTagList [] 0 0) 0 1 (VStr "z")
                     (Store [[VStr "a"; VStr "b"]] [[]]) eq_refl))
    as (st' & H1 & H2 & _).
  - simpl. lia.
  - exists st'. by split.
Defined.

(** X11.  What is assigned by index is stored as it is, and flattened by
    the next extension.  After [c[i] = [y1, ..., yk]] on a [TagList] or
    [Tag] [c] with flat contents, the contents of [c] hold the list itself
    at index [i]; the extension [c()] then returns a container whose
    contents hold the items [y1, ..., yk] in its place, so the contents of
    [c()] are no longer those of [c]. *)
Theorem assigned_list_is_flattened_by_extension n c cl al i items st :
  flat_store st -> primitive c -> recognized c ->
  contents c = Some cl -> attrs c = Some al ->
  i < length (read_list st cl) ->
  Forall (fun y => flat_item y = true) items ->
  exists st1 c' st2,
    HTMLContainer.__setitem__ c i (VList items) st = (Ret tt, st1)
    /\ read_list st1 cl = <[i := VList items]> (read_list st cl)
    /\ call (S (S n)) c [] [] st1 = (Ret c', st2)
    /\ contents c' = Some (length (lists st))
    /\ read_list st2 (length (lists st))
       = take i (read_list st cl) ++ items ++ drop (S i) (read_list st cl)
    /\ read_list st2 cl = <[i := VList items]> (read_list st cl).
Proof.
  intros Hst Hp Hr Hc Ha Hi Hit.
  pose proof (read_list_in_store _ _ _ Hi) as Hcl.
  pose proof (flat_store_read_list st cl Hst) as Hxs.
  set (xs := read_list st cl) in *.
  set (st1 := Store (alter (fun ys => <[i:=VList items]> ys) cl (lists st))
                    (dicts st)).
  assert (R : read_list st1 cl = <[i:=VList items]> xs).
  { unfold st1. by rewrite read_list_alter_eq. }
  assert (L : length (lists st1) = length (lists st)).
  { unfold st1; cbn [lists]. by rewrite length_alter. }
  assert (Hcall : call (S (S n)) c [] [] st1
                  = (Ret (reseat c (length (lists st1)) (length (dicts st1))),
                     allocate (take i xs ++ items ++ drop (S i) xs)
                       (HTMLContainer.remap_attrs
                          (dict_update (read_dict st1 al) [])) st1)).
  { apply (call_primitive_ret _ _ _ _ _ _ _ _ _ Hp Hc Ha).
    exists (take i xs ++ items ++ drop (S i) xs).
    split; [| split; [done | split; [done | by destruct c]]].
    rewrite R, app_nil_r, insert_take_drop by done.
    apply flattens_around_list; [| done |].
    - by apply Forall_take.
    - by apply Forall_drop. }
  exists st1, (reseat c (length (lists st1)) (length (dicts st1))).
  eexists. split; [by apply setitem_unfold |]. split; [exact R |].
  split; [exact Hcall |]. rewrite L.
  split; [by destruct c |]. split.
  - rewrite <- L. apply read_list_allocate_new.
  - rewrite read_list_allocate_old by lia. exact R.
Qed.

Lemma assigned_list_is_flattened_by_extension_witness :
  exists st1 c' st2,
    HTMLContainer.__setitem__ (VTagList [] 0 0) 0
      (VList [VStr "x"; VStr "y"]) (Store [[VStr "a"; VStr "b"]] [[]])
    = (Ret tt, st1)
    /\ call 2 (VTagList [] 0 0) [] [] st1 = (Ret c', st2)
    /\ read_list st2 1 = [VStr "x"; VStr "y"; VStr "b"].
Proof.
  destruct (assigned_list_is_flattened_by_extension 0 (VTagList [] 0 0) 0 0 0
              [VStr "x"; VStr "y"] (Store [[VStr "a"; VStr "b"]] [[]]))
    as (st1 & c' & st2 & H1 & _ & H2 & _ & H3 & _).
  - repeat constructor.
  - reflexivity.
  - exact I.
  - reflexivity.
  - reflexivity.
  - simpl. lia.
  - repeat constructor.
  - exists st1, c', st2. split; [exact H1 |]. split; [exact H2 | exact H3].
Defined.

(** X12.  [insert], [pop] and [append], the list methods that
    [__getattr__] forwards to the contents.  For a container whose
    contents live in the store and an index up to their length,
    [self.insert(i, x)] followed by [self.pop(i)] returns [x] and leaves
    the store exactly as it was.  [self.append(x)] is [insert] at the
    length: [x] becomes the last item, as it is and unflattened.  [pop] at
    an index past the end raises [IndexError] and changes nothing. *)
Theorem insert_pop_round_trip self c i x st :
  contents self = Some c -> c < length (lists st) ->
  (i <= length (read_list st c) ->
   (do _ <- HTMLContainer'.insert self i x ;; HTMLContainer'.pop self i) st
   = (Ret x, st))
  /\ HTMLContainer'.append self x st
     = HTMLContainer'.insert self (length (read_list st c)) x st
  /\ (exists st',
        HTMLContainer'.append self x st = (Ret tt, st')
        /\ read_list st' c = read_list st c ++ [x])
  /\ (length (read_list st c) <= i ->
      HTMLContainer'.pop self i st = (Raise IndexError, st)).
Proof.
  intros Hc Hcl.
  unfold HTMLContainer'.insert, HTMLContainer'.pop, HTMLContainer'.append,
    getattr.
  rewrite Hc. unfold bind, ret.
  unfold HTMLContainer'.list_insert, HTMLContainer'.list_pop, list_append.
  split; [| split; [| split]].
  - intros Hi. rewrite read_list_alter_eq by done.
    assert (E : (take i (read_list st c) ++ x :: drop i (read_list st c)) !! i
                = Some x).
    { rewrite lookup_app_r by (rewrite length_take; lia).
      by rewrite length_take_le, Nat.sub_diag by lia. }
    rewrite E. cbn [lists dicts]. f_equal. destruct st as [ls ds]. f_equal.
    apply alter_alter_id. intros xs Hxs. cbn [lists] in *.
    assert (xs = read_list (Store ls ds) c) as ->.
    { unfold read_list; cbn [lists]. by rewrite Hxs. }
    rewrite <- (length_take_le (read_list (Store ls ds) c) i) at 1 by done.
    by rewrite delete_middle, take_drop.
  - f_equal. f_equal. apply list_eq; intros j. rewrite !list_lookup_alter.
    case_decide; [| done]. subst j.
    destruct (lookup_lt_is_Some_2 (lists st) c Hcl) as [xs Hxs].
    rewrite Hxs. simpl. f_equal.
    assert (read_list st c = xs) as -> by (unfold read_list; by rewrite Hxs).
    by rewrite firstn_all, drop_all.
  - eexists. split; [reflexivity |]. by rewrite read_list_alter_eq.
  - intros Hi. by rewrite (lookup_ge_None_2 _ _ Hi).
Qed.

Lemma insert_pop_round_trip_witness :
  (do _ <- HTMLContainer'.insert (VTagList [] 0 0) 1 (VStr "x") ;;
   HTMLContainer'.pop (VTagList [] 0 0) 1) (Store [[VStr "a"; VStr "b"]] [[]])
  = (Ret (VStr "x"), Store [[VStr "a"; VStr "b"]] [[]]).
Proof.
  apply (proj1 (insert_pop_round_trip (VTagList [] 0 0) 0 1 (VStr "x")
                  (Store [[VStr "a"; VStr "b"]] [[]]) eq_refl (le_n 1))).
  simpl. lia.
Defined.

(** X13.  Which keyword argument a constructor keeps.  The attributes
    dictionary that the constructor of a [TagList] or [Tag] stores is the
    keyword arguments under their stored names ([class] for [class_], [for]
    for [for_]): its keys are distinct, none is an alias, and under a key it
    holds the value of the last keyword argument stored by that name, so of
    [class_] and [class] given together the later one wins. *)
Theorem constructor_keeps_last_attribute n args kwargs st v st' :
  TagList.__init__ n args kwargs st = (Ret v, st')
  \/ Tag.__init__ n args kwargs st = (Ret v, st') ->
  exists a,
    attrs v = Some a
    /\ read_dict st' a = HTMLContainer.remap_attrs kwargs
    /\ normal (read_dict st' a)
    /\ forall k val,
         dict_get k (read_dict st' a) = Some val
         <-> exists pre k0 post,
               kwargs = pre ++ (k0, val) :: post
               /\ HTMLContainer._specialAttrs_get k0 = k
               /\ Forall (fun kv => HTMLContainer._specialAttrs_get kv.1 <> k)
                         post.
Proof.
  intros H. exists (length (dicts st)).
  assert (Hv : attrs v = Some (length (dicts st))
               /\ exists ys,
                    st' = allocate ys (HTMLContainer.remap_attrs kwargs) st).
  { destruct H as [H | H];
      apply init_ret_inv in H as (temp & ea & self & ys & Hd & _ & -> & ->).
    - injection Hd as _ _ <-. split; [done | by exists ys].
    - apply Tag_digest_ret in Hd as (name & ty & ->).
      split; [done | by exists ys]. }
  destruct Hv as [Ha [ys ->]]. split; [exact Ha |].
  rewrite read_dict_allocate_new. split; [done |].
  split; [apply normal_remap_attrs |].
  intros k val. unfold HTMLContainer.remap_attrs.
  rewrite dict_get_fold_remap. split.
  - intros [H' | [_ H']]; [done | discriminate].
  - intros H'. by left.
Qed.

Lemma constructor_keeps_last_attribute_witness :
  exists a,
    attrs (VTag (VStr "p") (VInt 0) [VStr "p"; VInt 0] 0 0) = Some a
    /\ dict_get "class"
         (read_dict
            (Tag.__init__ 1 [VStr "p"; VInt 0]
               [("class_", VStr "a"); ("id", VStr "i"); ("class", VStr "b")]
               empty_store).2 a)
       = Some (VStr "b").
Proof.
  destruct (constructor_keeps_last_attribute 1 [VStr "p"; VInt 0]
              [("class_", VStr "a"); ("id", VStr "i"); ("class", VStr "b")]
              empty_store (VTag (VStr "p") (VInt 0) [VStr "p"; VInt 0] 0 0)
              (Tag.__init__ 1 [VStr "p"; VInt 0]
                 [("class_", VStr "a"); ("id", VStr "i"); ("class", VStr "b")]
                 empty_store).2)
    as (a & Ha & _ & _ & Hk).
  - right. reflexivity.
  - exists a. split; [exact Ha |]. apply Hk.
    exists [("class_", VStr "a"); ("id", VStr "i")], "class", [].
    split; [reflexivity |]. split; [reflexivity | constructor].
Defined.

(** X14.  How an extension merges attributes.  Let [c] be a [TagList] or
    [Tag] whose dictionary is as a constructor stores it, and let no two
    of the new attributes be stored by the same name.  The dictionary of
    [c(x, **new)] is [c]'s updated by the new attributes under their stored
    names: the keys of [c] keep their places and the new names follow in the
    order given; each new attribute is found under its stored name, and
    every other key holds what it held in [c]. *)
Theorem extension_merges_attributes n c x new st cl al c' st' :
  primitive c -> contents c = Some cl -> attrs c = Some al ->
  normal (read_dict st al) ->
  NoDup (HTMLContainer._specialAttrs_get <$> new.*1) ->
  call n c x new st = (Ret c', st') ->
  exists a',
    attrs c' = Some a'
    /\ read_dict st' a' = dict_update (read_dict st al) (remap_item <$> new)
    /\ (read_dict st' a').*1
       = (read_dict st al).*1
         ++ filter (fun k => k ∉ (read_dict st al).*1)
                   (HTMLContainer._specialAttrs_get <$> new.*1)
    /\ (forall k v, (k, v) ∈ new ->
          dict_get (HTMLContainer._specialAttrs_get k) (read_dict st' a')
          = Some v)
    /\ (forall k, k ∉ (HTMLContainer._specialAttrs_get <$> new.*1) ->
          dict_get k (read_dict st' a') = dict_get k (read_dict st al)).
Proof.
  intros Hp Hc Ha Hn Hnew Hcall.
  apply (call_primitive_ret _ _ _ _ _ _ _ _ _ Hp Hc Ha) in Hcall
    as (ys & _ & -> & -> & _).
  exists (length (dicts st)). split; [by destruct c |].
  rewrite read_dict_allocate_new, remap_update by done.
  pose proof (remap_item_keys new) as Hkeys.
  split; [done |]. split; [| split].
  - rewrite dict_update_keys by (by rewrite Hkeys). by rewrite Hkeys.
  - intros k v Hin. apply dict_get_update_new; [by rewrite Hkeys |].
    by apply (list_elem_of_fmap_2 remap_item new (k, v)).
  - intros k Hk. apply dict_get_update_old. by rewrite Hkeys.
Qed.

Lemma extension_merges_attributes_witness :
  exists a',
    read_dict
      (call 1 (VTag (VStr "div") (VInt 0) [VStr "div"; VInt 0] 0 0) []
         [("class_", VStr "k"); ("title", VStr "t")]
         (Store [[]] [[("id", VStr "i"); ("class", VStr "j")]])).2 a'
    = [("id", VStr "i"); ("class", VStr "k"); ("title", VStr "t")].
Proof.
  destruct (extension_merges_attributes 1
              (VTag (VStr "div") (VInt 0) [VStr "div"; VInt 0] 0 0) []
              [("class_", VStr "k"); ("title", VStr "t")]
              (Store [[]] [[("id", VStr "i"); ("class", VStr "j")]]) 0 0
              (VTag (VStr "div") (VInt 0) [VStr "div"; VInt 0] 1 1)
              (call 1 (VTag (VStr "div") (VInt 0) [VStr "div"; VInt 0] 0 0) []
                 [("class_", VStr "k"); ("title", VStr "t")]
                 (Store [[]] [[("id", VStr "i"); ("class", VStr "j")]])).2)
    as (a' & _ & Hd & _).
  - reflexivity.
  - reflexivity.
  - reflexivity.
  - split.
    + vm_compute. repeat (apply NoDup_cons; split;
                          [by (intros H; repeat (apply elem_of_cons in H
                                                   as [H | H]; [discriminate |]);
                               by apply elem_of_nil in H) |]).
      apply NoDup_nil_2.
    + vm_compute. repeat constructor.
  - vm_compute. repeat (apply NoDup_cons; split;
                        [by (intros H; repeat (apply elem_of_cons in H
                                                 as [H | H]; [discriminate |]);
                             by apply elem_of_nil in H) |]).
    apply NoDup_nil_2.
  - reflexivity.
  - exists a'. exact Hd.
Defined.

(** X15.  [vif] returns the value that follows the first true condition.
    After any number of condition-value pairs whose conditions are false,
    [vif] goes on with the rest of its arguments: it returns the value of
    the first true condition (a string, a number, a boolean or a
    container; the truth of other objects is their own matter), the single
    last argument when every condition is false and one argument is left
    over, and [''] when nothing is left. *)
Theorem vif_first_truthy (pairs : list (value * value)) :
  Forall (fun p => truthy p.1 = false) pairs ->
  (forall rest, vif (concat (map (fun p => [p.1; p.2]) pairs) ++ rest) = vif rest)
  /\ (forall c v rest,
        truthy c = true -> (forall s m it, c <> VObj s m it) ->
        vif (concat (map (fun p => [p.1; p.2]) pairs) ++ c :: v :: rest) = v)
  /\ (forall dflt,
        vif (concat (map (fun p => [p.1; p.2]) pairs) ++ [dflt]) = dflt)
  /\ vif (concat (map (fun p => [p.1; p.2]) pairs)) = VStr EmptyString.
Proof.
  intros Hp.
  assert (H : forall rest,
            vif (concat (map (fun p => [p.1; p.2]) pairs) ++ rest) = vif rest).
  { induction Hp as [| [c v] pairs Hc _ IH]; intros rest; [done |].
    cbn [map concat fst snd app vif]. simpl in Hc. by rewrite Hc. }
  split; [exact H |]. split; [| split].
  - intros c v rest Hc _. rewrite H. cbn [vif]. by rewrite Hc.
  - intros dflt. by rewrite H.
  - rewrite <- (app_nil_r (concat _)). by rewrite H.
Qed.

Lemma vif_first_truthy_witness :
  vif [VStr EmptyString; VStr "a"; VInt 0; VStr "b"; VBool true; VStr "c";
       VStr "d"]
  = VStr "c".
Proof.
  apply (proj1 (proj2 (vif_first_truthy
                         [(VStr EmptyString, VStr "a"); (VInt 0, VStr "b")]
                         ltac:(repeat constructor)))
           (VBool true) (VStr "c") [VStr "d"]).
  - reflexivity.
  - discriminate.
Defined.

(** X16.  [lif] calls only what it needs.  After condition-value pairs
    whose conditions return false values, [lif] goes on with the rest
    without calling the values of those pairs, whatever they would do
    (raise, change the store); at the first true condition (a string, a
    number, a boolean or a container) it calls that pair's value and
    nothing after it.  On callables that just return their values, [lif]
    returns what [vif] returns on the values. *)
Theorem lif_calls_only_what_it_needs (pairs : list (value * M value)) st :
  Forall (fun p => truthy p.1 = false) pairs ->
  (forall rest,
     lif (concat (map (fun p => [ret p.1; p.2]) pairs) ++ rest) st = lif rest st)
  /\ (forall c b rest,
        truthy c = true -> (forall s m it, c <> VObj s m it) ->
        lif (concat (map (fun p => [ret p.1; p.2]) pairs) ++ ret c :: b :: rest) st
        = b st)
  /\ (forall args, lif (map ret args) st = (Ret (vif args), st)).
Proof.
  intros Hp.
  assert (H : forall rest,
            lif (concat (map (fun p => [ret p.1; p.2]) pairs) ++ rest) st
            = lif rest st).
  { induction Hp as [| [c v] pairs Hc _ IH]; intros rest; [done |].
    cbn [map concat fst snd app lif]. simpl in Hc.
    unfold bind, ret at 1. by rewrite Hc. }
  split; [exact H |]. split.
  - intros c b rest Hc _. rewrite H. cbn [lif]. unfold bind, ret at 1.
    by rewrite Hc.
  - intros args. by apply (lif_ret_vif_bounded st (length args)).
Qed.

Lemma lif_calls_only_what_it_needs_witness :
  lif [ret (VInt 0); raise ValueError; ret (VStr "yes"); ret (VStr "b");
       raise TypeError] empty_store
  = (Ret (VStr "b"), empty_store).
Proof.
  apply (proj1 (proj2 (lif_calls_only_what_it_needs
                         [(VInt 0, raise ValueError)] empty_store
                         ltac:(repeat constructor)))
           (VStr "yes") (ret (VStr "b")) [raise TypeError]).
  - reflexivity.
  - discriminate.
Defined.

(** X17.  [nbsp(n)] is [n] entities.  It is the empty string when [n]
    is not positive, has six characters for each unit of a positive [n],
    and [nbsp(n + m)] is [nbsp(n)] followed by [nbsp(m)] for [n] and [m]
    that are not negative. *)
Theorem nbsp_repeats n m :
  (n <= 0 -> nbsp n = EmptyString)%Z
  /\ String.length (nbsp n) = 6 * Z.to_nat n
  /\ (0 <= n -> 0 <= m -> nbsp (n + m) = nbsp n +:+ nbsp m)%Z.
Proof.
  split; [| split].
  - intros Hn. unfold nbsp, str_mul.
    by replace (Z.to_nat n) with 0 by lia.
  - unfold nbsp. rewrite length_str_mul. simpl. lia.
  - intros Hn Hm. unfold nbsp, str_mul.
    rewrite Z2Nat.inj_add by done. rewrite repeat_app.
    apply (join_empty_app (repeat "&nbsp;" (Z.to_nat n))
             (repeat "&nbsp;" (Z.to_nat m))).
Qed.

Lemma nbsp_repeats_witness : nbsp (1 + 2) = nbsp 1 +:+ nbsp 2.
Proof. apply (proj2 (proj2 (nbsp_repeats 1 2))); lia. Defined.

(** X18.  Calling a tag of the module.  For a name [K] of [_loneTags],
    [_normalTags] or [_forcedPairTags] and flat items [x], in any store
    reached by constructor and extension calls, [K( *x, **kw)] returns a
    [Tag] of the table's tag name and tag type over a new contents list
    holding exactly [x] and a new dictionary holding [kw] under its stored
    names. *)
Theorem predefined_tag_builds n table ty K v x kw st :
  built st -> (table, ty) ∈ tag_tables -> (K, v) ∈ table ->
  Forall (fun y => flat_item y = true) x -> NoDup kw.*1 ->
  (do G <- global K ;; call (S n) G x kw) st
  = (Ret (VTag (VStr v) (VInt ty) [VStr v; VInt ty] (length (lists st)) (length (dicts st))),
     allocate x (HTMLContainer.remap_attrs kw) st).
Proof.
  intros Hb Ht HK Hx Hkw.
  destruct (global_call n table ty K v x kw st
              (built_extends_module _ Hb) Ht HK Hx) as (c & a & HG & Hcall).
  rewrite (bind_ret _ _ _ _ _ HG).
  rewrite <- Tag_call_is_call by eauto 6. rewrite Hcall.
  by rewrite (dict_update_fresh [] kw).
Qed.

Lemma predefined_tag_builds_witness :
  (do G <- global "LI" ;; call 1 G [VStr "x"] [("class_", VStr "k")])
    module_store
  = (Ret (VTag (VStr "li") (VInt 0) [VStr "li"; VInt 0] 52 52),
     allocate [VStr "x"] [("class", VStr "k")] module_store).
Proof.
  apply (predefined_tag_builds 0 _normalTags Tag.NORMAL "LI" "li"
           [VStr "x"] [("class_", VStr "k")] module_store built_module).
  - unfold tag_tables. apply list_elem_of_further, list_elem_of_here.
  - unfold _normalTags. do 42 apply list_elem_of_further.
    apply list_elem_of_here.
  - repeat constructor.
  - apply NoDup_singleton.
Defined.

(** X19.  [c()] is a copy.  For a [TagList] or [Tag] [c] of a store with
    flat contents, whose dictionary is as a constructor stores it, the
    extension by nothing returns a container over a new list and a new
    dictionary that hold what those of [c] hold, and it renders, on any
    stack, exactly as [c] does. *)
Theorem call_without_arguments_copies n c cl al st :
  flat_store st -> normal (read_dict st al) ->
  primitive c -> recognized c -> contents c = Some cl -> attrs c = Some al ->
  cl < length (lists st) -> al < length (dicts st) ->
  exists c' st' cl' al',
    call (S n) c [] [] st = (Ret c', st')
    /\ contents c' = Some cl' /\ attrs c' = Some al'
    /\ cl' <> cl /\ al' <> al
    /\ read_list st' cl' = read_list st cl
    /\ read_dict st' al' = read_dict st al
    /\ forall m, str m st' c' = str m st' c.
Proof.
  intros Hst Hn Hp Hr Hc Ha Hcl Hal.
  pose proof (call_flat n c [] [] st cl al Hp Hr Hc Ha
                (flat_store_read_list st cl Hst) (Forall_nil_2 _)) as Hcall.
  rewrite app_nil_r in Hcall.
  change (dict_update (read_dict st al) []) with (read_dict st al) in Hcall.
  rewrite (remap_attrs_normal _ Hn) in Hcall.
  set (st' := allocate (read_list st cl) (read_dict st al) st) in *.
  assert (R1 : read_list st' (length (lists st)) = read_list st cl)
    by apply read_list_allocate_new.
  assert (R2 : read_dict st' (length (dicts st)) = read_dict st al)
    by apply read_dict_allocate_new.
  assert (R3 : read_list st' cl = read_list st cl)
    by (by apply read_list_allocate_old).
  assert (R4 : read_dict st' al = read_dict st al)
    by (by apply read_dict_allocate_old).
  exists (reseat c (length (lists st)) (length (dicts st))), st',
    (length (lists st)), (length (dicts st)).
  split; [exact Hcall |].
  split; [by destruct c |]. split; [by destruct c |].
  split; [lia |]. split; [lia |]. split; [exact R1 |]. split; [exact R2 |].
  intros m. destruct c as [| | | | ea cl0 al0 | name ty ea cl0 al0 |]; try done;
    cbn [contents attrs] in Hc, Ha; injection Hc as ->; injection Ha as ->;
    cbn [reseat]; (destruct m as [| m]; [done |]).
  - by rewrite !str_VTagList, R1, R3.
  - by rewrite !str_VTag_any, R1, R2, R3, R4.
Qed.

Lemma call_without_arguments_copies_witness :
  exists c' st',
    call 1 (VTag (VStr "p") (VInt 0) [VStr "p"; VInt 0] 0 0) [] []
      (Store [[VStr "a"]] [[("id", VStr "i")]]) = (Ret c', st')
    /\ str 1 st' c' = str 1 st' (VTag (VStr "p") (VInt 0) [VStr "p"; VInt 0] 0 0).
Proof.
  destruct (call_without_arguments_copies 0 (VTag (VStr "p") (VInt 0) [VStr "p"; VInt 0] 0 0)
              0 0 (Store [[VStr "a"]] [[("id", VStr "i")]]))
    as (c' & st' & cl' & al' & H & _ & _ & _ & _ & _ & _ & Hs).
  - repeat constructor.
  - split.
    + apply NoDup_singleton.
    + repeat constructor.
  - reflexivity.
  - reflexivity.
  - reflexivity.
  - reflexivity.
  - simpl. lia.
  - simpl. lia.
  - exists c', st'. split; [exact H | apply Hs].
Defined.









(** X24.  Rendering is stable.  In a closed store (each value it holds
    mentions only lists and dictionaries of the store), the string of a
    closed value is not changed by a later constructor, page constructor,
    extension call, [join] or [+], however that call ends: on every stack
    depth, [str(x)] after the call is [str(x)] before it. *)
Theorem rendering_is_stable n k self y args kwargs st o st' x :
  closed_store st -> closed_in st x ->
  TagList.__init__ n args kwargs st = (o, st')
  \/ Tag.__init__ n args kwargs st = (o, st')
  \/ new_pseudotag k n args kwargs st = (o, st')
  \/ call n self args kwargs st = (o, st')
  \/ HTMLContainer'.join n self y st = (o, st')
  \/ HTMLContainer'.__add__ n self y st = (o, st')
  \/ HTMLContainer'.__radd__ n self y st = (o, st') ->
  forall m, str m st' x = str m st x.
Proof.
  intros Hst Hx H m.
  assert (He : extends st st').
  { destruct H as [H | [H | [H | [H | [H | [H | H]]]]]].
    - first [by eapply grows_init | by eapply grows_Tag_init].
    - first [by eapply grows_init | by eapply grows_Tag_init].
    - by eapply grows_new_pseudotag.
    - by eapply grows_any_call.
    - by eapply grows_join.
    - first [by eapply grows_init | by eapply grows_Tag_init].
    - first [by eapply grows_init | by eapply grows_Tag_init]. }
  by apply str_frame.
Qed.

Lemma rendering_is_stable_witness :
  str 1 (new_pseudotag PAGE 1 [VStr "t"; VStr "c.css"; VStr "hello"] []
           module_store).2 (VTag (VStr "script") (VInt 2) [VStr "script"; VInt 2] 51 51)
  = str 1 module_store (VTag (VStr "script") (VInt 2) [VStr "script"; VInt 2] 51 51).
Proof.
  apply (rendering_is_stable 1 PAGE (VStr "x") (VStr "x")
           [VStr "t"; VStr "c.css"; VStr "hello"] [] module_store
           (new_pseudotag PAGE 1 [VStr "t"; VStr "c.css"; VStr "hello"] []
              module_store).1
           (new_pseudotag PAGE 1 [VStr "t"; VStr "c.css"; VStr "hello"] []
              module_store).2
           (VTag (VStr "script") (VInt 2) [VStr "script"; VInt 2] 51 51)
           closed_store_module eq_refl).
  right; right; left. apply surjective_pairing.
Defined.

(** X25.  Closed stores stay closed.  The store of the imported module
    is closed.  From a closed store that holds the imported module, a
    constructor, page constructor, extension call, [join] or [+] whose
    receiver, arguments and attribute values are closed leaves, however it
    ends, a closed store that holds the imported module, and what it
    returns is closed in that store. *)
Theorem closedness_is_kept :
  closed_store module_store
  /\ forall n k self y args kwargs st o st',
       closed_store st -> extends module_store st ->
       closed_in st self -> closed_in st y -> Forall (closed_in st) args ->
       Forall (fun kv : string * value => closed_in st kv.2) kwargs ->
       TagList.__init__ n args kwargs st = (o, st')
       \/ Tag.__init__ n args kwargs st = (o, st')
       \/ new_pseudotag k n args kwargs st = (o, st')
       \/ call n self args kwargs st = (o, st')
       \/ HTMLContainer'.join n self y st = (o, st')
       \/ HTMLContainer'.__add__ n self y st = (o, st')
       \/ HTMLContainer'.__radd__ n self y st = (o, st') ->
       closed_store st' /\ extends module_store st'
       /\ forall v, o = Ret v -> closed_in st' v.
Proof.
  split; [apply closed_store_module |].
  intros n k self y args kwargs st o st' Hst He Hs Hy Ha Hkw H.
  assert (H2 : forall a b, closed_in st a -> closed_in st b ->
                 Forall (closed_in st) [a; b]).
  { intros a b Ha' Hb'. apply Forall_cons. split; [done |].
    apply Forall_cons. split; [done | constructor]. }
  assert (Hext : extends st st').
  { destruct H as [H | [H | [H | [H | [H | [H | H]]]]]].
    - first [by eapply grows_init | by eapply grows_Tag_init].
    - first [by eapply grows_init | by eapply grows_Tag_init].
    - by eapply grows_new_pseudotag.
    - by eapply grows_any_call.
    - by eapply grows_join.
    - first [by eapply grows_init | by eapply grows_Tag_init].
    - first [by eapply grows_init | by eapply grows_Tag_init]. }
  assert (Hres : closed_store st' /\ forall v, o = Ret v -> closed_in st' v).
  { destruct H as [H | [H | [H | [H | [H | [H | H]]]]]].
    - exact (TagList_init_closed n args kwargs st o st' Hst Ha Hkw H).
    - exact (Tag_init_closed n args kwargs st o st' Hst Ha Hkw H).
    - exact (closed_ctor_new_pseudotag k n args kwargs st o st' Hst He Ha Hkw H).
    - exact (call_closed n self args kwargs st o st' Hst He Hs Ha Hkw H).
    - exact (join_closed n self y st o st' Hst Hs Hy H).
    - exact (TagList_init_closed n [self; y] [] st o st' Hst
               (H2 self y Hs Hy) (Forall_nil_2 _) H).
    - exact (TagList_init_closed n [y; self] [] st o st' Hst
               (H2 y self Hy Hs) (Forall_nil_2 _) H). }
  destruct Hres as [Hst' Hv]. split; [done |]. split; [| done].
  by eapply extends_trans.
Qed.

Lemma closedness_is_kept_witness :
  closed_store
    (new_pseudotag JQPAGE 1 [VStr "t"; VStr "c.css"; VList [VStr "hello"]]
       [("id", VStr "b")] module_store).2.
Proof.
  apply (proj2 closedness_is_kept 1 JQPAGE (VStr "x") (VStr "x")
           [VStr "t"; VStr "c.css"; VList [VStr "hello"]] [("id", VStr "b")]
           module_store
           (new_pseudotag JQPAGE 1 [VStr "t"; VStr "c.css"; VList [VStr "hello"]]
              [("id", VStr "b")] module_store).1
           (new_pseudotag JQPAGE 1 [VStr "t"; VStr "c.css"; VList [VStr "hello"]]
              [("id", VStr "b")] module_store).2
           closed_store_module (extends_refl _) eq_refl eq_refl).
  - repeat constructor.
  - repeat constructor.
  - right; right; left. apply surjective_pairing.
Defined.
